(** * Streaming / coordination subsystem of crypto-ml-training-standalone

    A shallow embedding of the control-plane state files
    ([utils/producer_consumer/consumer_utils.py]), the producer loop
    ([producer.py]), the document-store writer ([utils/database/db.py]),
    the model version manager ([utils/model_version_manager.py]), the
    consumer callback ([consumer.py]) and the shutdown script
    ([kill_all.py]), with the properties the specification states about
    them. *)

From Stdlib Require Import ZArith String Ascii List Lia QArith.
From stdpp Require Import base gmap strings list fin_maps sorting.

Open Scope string_scope.
Open Scope list_scope.
Open Scope Z_scope.

(** ** Python-level plumbing shared by all modules *)

Module Py.

(** The exceptions that occur in the modelled code.  [BaseException]s that
    are not [Exception]s are kept apart, because [except Exception] does
    not catch them. *)
Inductive exn :=
| AttributeError
| UnicodeDecodeError
| KeyError
| ValueError
| FileNotFoundError
| SameFileError
| NotFound                      (* google.api_core.exceptions.NotFound *)
| ApiError (ename msg : string) (* any other store / network exception *)
| KeyboardInterrupt
| SystemExit (code : Z).

Definition is_Exception (e : exn) : bool :=
  match e with
  | KeyboardInterrupt | SystemExit _ => false
  | _ => true
  end.

Inductive outcome (A : Type) :=
| Return (a : A)
| Raise (e : exn).
Arguments Return {A} a.
Arguments Raise {A} e.

(** [str.lower()] on ASCII letters. *)
Definition lower_ascii (c : ascii) : ascii :=
  let n := nat_of_ascii c in
  if (65 <=? n)%nat && (n <=? 90)%nat then ascii_of_nat (n + 32) else c.

Fixpoint lower (s : string) : string :=
  match s with
  | EmptyString => EmptyString
  | String c r => String (lower_ascii c) (lower r)
  end.

(** [sub in s] *)
Definition contains (sub s : string) : bool :=
  match String.index 0 sub s with
  | Some _ => true
  | None => false
  end.

End Py.

Import Py.

(** ** Control plane: one JSON state file per entity (consumer_utils.py) *)

Module ControlPlane.

(** What [json.load] can give back.  Only the top level and one level of
    object fields matter to the code; deeper structure is [JNested]. *)
Inductive jval :=
| JNull
| JBool (b : bool)
| JNum (n : Z)
| JStr (s : string)
| JNested.

#[global] Instance jval_eq_dec : EqDecision jval.
Proof. solve_decision. Defined.

Inductive json :=
| JAtom (v : jval)
| JArray
| JObject (fields : gmap string jval).

(** A file of the state directory as [open] + [json.load] see it. *)
Inductive file :=
| Unreadable              (* open/read raises IOError (OSError) *)
| Undecodable             (* bytes that are not text: UnicodeDecodeError *)
| Malformed               (* json.JSONDecodeError *)
| Parsed (j : json).

(** The state directory, keyed by file name. *)
Abbreviation state_dir := (gmap string file).

(** <<
    if crypto == "ALL" and model == "producer":
        filename = "ALL_producer_main.json"
    else:
        filename = f"{crypto}_{model}_{version}.json"
    >> *)
Definition filename (crypto model version : string) : string :=
  if bool_decide (crypto = "ALL") && bool_decide (model = "producer")
  then "ALL_producer_main.json"
  else crypto +:+ "_" +:+ model +:+ "_" +:+ version +:+ ".json".

(** The dictionary [state_data] of [state_write]. *)
Definition state_data (crypto model version state error_msg : string)
  : gmap string jval :=
  <["crypto" := JStr crypto]>
  (<["model" := JStr model]>
  (<["version" := JStr version]>
  (<["state" := JStr state]>
  (<["error_msg" := JStr error_msg]> ∅)))).

(** [state_write(crypto, model, version, state, error_msg="")]: the
    optional argument is [None] when the caller leaves it out.  The file is
    opened with mode ['w'] and the whole dictionary is dumped into it. *)
Definition state_write (crypto model version state : string)
    (error_msg : option string) (fs : state_dir) : state_dir :=
  <[filename crypto model version :=
      Parsed (JObject (state_data crypto model version state
                         (default "" error_msg)))]> fs.

(** *** state_checker *)

(** The world as [state_checker] observes it: [obs k] is the state file at
    the [k]-th poll ([None]: [os.path.exists] is false), and [lag k] is the
    time in milliseconds that the [k]-th round takes beyond the
    [time.sleep(1)] it asks for. *)
Record world := { obs : nat → option file; lag : nat → N }.

(** The polling loop.  [elapsed] is [time.time() - start_time] in
    whole milliseconds, starting from 0; the clock only moves forward.  [None]: out of fuel; [Some None]: timed out;
    [Some (Some f)]: the file showed up with content [f]. *)
Fixpoint wait_for_file (fuel : nat) (w : world) (timeout : Z)
    (k : nat) (elapsed : Z) : option (option file) :=
  match fuel with
  | O => None
  | S fuel' =>
      match obs w k with
      | Some f => Some (Some f)
      | None =>
          if timeout * 1000 <? elapsed then Some None
          else wait_for_file fuel' w timeout (S k)
                 (elapsed + 1000 + Z.of_N (lag w k))
      end
  end.

(** <<
    try:
        with open(filepath, 'r') as f:
            state_data = json.load(f)
            return state_data.get("state", "unknown")
    except (json.JSONDecodeError, KeyError, IOError) as e:
        return "unknown"
    >> *)
Definition read_state (f : file) : outcome jval :=
  match f with
  | Unreadable => Return (JStr "unknown")
  | Malformed => Return (JStr "unknown")
  | Undecodable => Raise UnicodeDecodeError
  | Parsed (JObject o) => Return (default (JStr "unknown") (o !! "state"))
  | Parsed _ => Raise AttributeError
  end.

Definition state_checker_fuel (fuel : nat) (w : world) (timeout : Z)
  : option (outcome jval) :=
  match wait_for_file fuel w timeout 0 0 with
  | None => None
  | Some None => Some (Return (JStr "unknown"))
  | Some (Some f) => Some (read_state f)
  end.

(** Each round sleeps at least one second, so [timeout + 2] rounds are
    enough for the loop to leave. *)
Definition state_checker (w : world) (timeout : Z) : option (outcome jval) :=
  state_checker_fuel (Z.to_nat timeout + 2) w timeout.





(** The claim of the specification about [state_write], as a property of
    an implementation: a field stored earlier and not given in the call is
    still there afterwards. *)
Definition merge_preserving : Prop :=
  ∀ (fs : state_dir) crypto model version state (old : gmap string jval) v,
    fs !! filename crypto model version = Some (Parsed (JObject old)) →
    old !! "error_msg" = Some v →
    ∃ new, state_write crypto model version state None fs
             !! filename crypto model version = Some (Parsed (JObject new))
           ∧ new !! "error_msg" = Some v.



End ControlPlane.

(** ** Candles and stored values *)

Module Data.

(** Python floats only get copied and compared in the modelled code;
    rationals stand for them.  [None] is a missing value (NaN). *)
Inductive value :=
| VNull
| VTime (t : Z)                 (* timestamp, microseconds since the epoch *)
| VNum (x : Q)
| VVec (xs : list Q).

(** A row of a price DataFrame: the six required columns, and whatever
    other columns the frame has. *)
Record row := {
  open_time : Z;
  open_ : option Q;
  high : option Q;
  low : option Q;
  close : option Q;
  volume : option Q;
  extra : gmap string value
}.

Definition candle (t : Z) (x : Q) : row :=
  {| open_time := t; open_ := Some x; high := Some x; low := Some x;
     close := Some x; volume := Some 1%Q; extra := ∅ |}.

(** [df["open_time"].max()] of a frame that is not empty. *)
Definition max_open_time (df : list row) : option Z :=
  match df with
  | [] => None
  | r :: rest => Some (foldr (λ r' m, Z.max (open_time r') m) (open_time r) rest)
  end.

Definition minute : Z := 60 * 1000000.
Definition day : Z := 24 * 60 * minute.

End Data.

(** ** Producer main loop (producer.py) *)

Module Producer.
Import ControlPlane Data.

Inductive event :=
| StateWrite (state : string)     (* state_write("ALL", "producer", "main", _) *)
| StateWriteFailed (state : string)     (* the same call, raising *)
| Sleep (ms : Z)
| Download (start : option Z)     (* download_full_history from [start] *)
| PersistOk (n : nat)             (* bulk_insert_df went through *)
| PersistFailed                   (* "Database update failed. Stopping producer." *)
| CsvOk (n : nat)
| CsvFailed
| Published (n : nat).

(** What the outside world answers during one turn of the [while True]. *)
Record cycle_env := {
  polled : outcome jval;            (* state_checker(..., timeout=5) *)
  written : outcome unit;
    (* the state_write of the loop body: "deleted" or "running" *)
  written_on_interrupt : outcome unit;
    (* the state_write of the KeyboardInterrupt handler *)
  fetched : outcome (list row);     (* download_full_history *)
  persist : outcome unit;           (* crypto_db.bulk_insert_df *)
  csv : outcome unit;               (* new_df.to_csv *)
  publish : outcome unit;           (* send_df_to_quix *)
  to_next_minute : Z                (* (next_minute - now), milliseconds *)
}.

Inductive control :=
| Break
| Continue
| Propagate (e : exn).

(** The body of the inner [try], from "Fetch new data" down to the sleep
    that aligns with the minute.  It gives the new [last_time] or the
    exception that leaves the block. *)
Definition fetch_persist_publish (env : cycle_env) (last_time : option Z)
  : outcome (option Z) * list event :=
  let start := (λ t, t + minute) <$> last_time in
  match fetched env with
  | Raise e => (Raise e, [Download start])
  | Return new_df =>
      if bool_decide (new_df = [])
      then (Return last_time, [Download start; Sleep 60000])
      else
        let new_df :=
          match last_time with
          | Some lt => filter (λ r, lt < open_time r) new_df
          | None => new_df
          end in
        if bool_decide (new_df = [])
        then (Return last_time, [Download start; Sleep 60000])
        else
          match persist env with
          | Raise e => (Raise e, [Download start; PersistFailed])
          | Return _ =>
              let n := length new_df in
              let after_csv :=
                match csv env with
                | Return _ => inl [Download start; PersistOk n; CsvOk n]
                | Raise e =>
                    if is_Exception e
                    then inl [Download start; PersistOk n; CsvFailed]
                    else inr (e, [Download start; PersistOk n])
                end in
              match after_csv with
              | inr (e, evs) => (Raise e, evs)
              | inl evs =>
                  match publish env with
                  | Raise e => (Raise e, evs)
                  | Return _ =>
                      (Return (max_open_time new_df),
                       evs ++ [Published n] ++
                       (if 0 <? to_next_minute env
                        then [Sleep (to_next_minute env)] else []))
                  end
              end
          end
  end.

(** The two handlers of the outer [try].  What the [state_write] of the
    first one raises is raised inside a handler, and leaves [main]. *)
Definition outer_handlers (env : cycle_env) (e : exn) (last_time : option Z)
    (evs : list event) : control * option Z * list event :=
  match e with
  | KeyboardInterrupt =>
      match written_on_interrupt env with
      | Return _ => (Break, last_time, evs ++ [StateWrite "deleted"])
      | Raise e' => (Propagate e', last_time,
                     evs ++ [StateWriteFailed "deleted"])
      end
  | _ => if is_Exception e then (Continue, last_time, evs ++ [Sleep 10000])
         else (Propagate e, last_time, evs)
  end.

(** One turn of the main loop. *)
Definition cycle (env : cycle_env) (last_time : option Z)
  : control * option Z * list event :=
  match polled env with
  | Raise e => outer_handlers env e last_time []
  | Return state =>
      if bool_decide (state = JStr "delete")
      then
        match written env with
        | Return _ => (Break, last_time, [StateWrite "deleted"])
        | Raise e => outer_handlers env e last_time [StateWriteFailed "deleted"]
        end
      else if bool_decide (state = JStr "pause")
      then (Continue, last_time, [Sleep 10000])
      else if bool_decide (state ≠ JStr "running")
              && bool_decide (state ≠ JStr "start")
      then (Continue, last_time, [Sleep 10000])
      else
        let started :=
          if bool_decide (state = JStr "start")
          then match written env with
               | Return _ => Return [StateWrite "running"]
               | Raise e => Raise e
               end
          else Return [] in
        match started with
        | Raise e => outer_handlers env e last_time [StateWriteFailed "running"]
        | Return pre =>
            match fetch_persist_publish env last_time with
            | (Return lt, evs) => (Continue, lt, pre ++ evs)
            | (Raise e, evs) =>
                (* except Exception as e: log, sleep 10, continue *)
                if is_Exception e
                then (Continue, last_time, pre ++ evs ++ [Sleep 10000])
                else outer_handlers env e last_time (pre ++ evs)
            end
        end
  end.

(** How the process ends, if it does within the turns looked at. *)
Inductive status :=
| Polling (last_time : option Z)
| Exited (code : Z).

Definition exit_code (e : exn) : Z :=
  match e with
  | SystemExit c => c
  | _ => 1
  end.

Fixpoint main_loop (envs : list cycle_env) (last_time : option Z)
  : status * list event :=
  match envs with
  | [] => (Polling last_time, [])
  | env :: rest =>
      match cycle env last_time with
      | (Break, _, evs) => (Exited 0, evs)
      | (Propagate e, _, evs) => (Exited (exit_code e), evs)
      | (Continue, lt, evs) =>
          let '(st, evs') := main_loop rest lt in (st, evs ++ evs')
      end
  end.


(** A turn in which the store refuses the write. *)
Definition store_down (state : string) : cycle_env :=
  {| polled := Return (JStr state);
     written := Return tt; written_on_interrupt := Return tt;
     fetched := Return [candle 1704067200000000 42000];
     persist := Raise (ApiError "ServiceUnavailable" "503 unavailable");
     csv := Return tt; publish := Return tt; to_next_minute := 30000 |}.



(** The two claims of the specification about the loop. *)
Definition persist_failure_is_fatal : Prop :=
  ∀ env last_time rest,
    PersistFailed ∈ (cycle env last_time).2 →
    ∃ code, code ≠ 0 ∧ (main_loop (env :: rest) last_time).1 = Exited code.



End Producer.

(** ** The document store as the code uses it (google.cloud.firestore) *)

Module Firestore.
Import Data.

(** A document is a map from field names to values.  The price
    collections key their documents by [pd.to_datetime(t).isoformat()];
    the ISO text and the timestamp determine each other, so the timestamp
    stands for the document id. *)
Abbreviation doc := (gmap string value).
Abbreviation collection := (gmap Z doc).

(** The writes a [WriteBatch] collects. *)
Inductive write :=
| WSet (id : Z) (data : doc)       (* batch.set(ref, data, merge=True) *)
| WUpdate (id : Z) (data : doc)    (* batch.update(ref, data) *)
| WDelete (id : Z).                (* batch.delete(ref) *)

(** [set(..., merge=True)] creates the document or overwrites the given
    fields; [update] does the same to a document that exists and fails
    (404 "No document to update") when it does not; [delete] always goes
    through. *)
Definition apply_write (c : collection) (w : write) : option collection :=
  match w with
  | WSet id data => Some (<[id := data ∪ default ∅ (c !! id)]> c)
  | WUpdate id data =>
      match c !! id with
      | Some old => Some (<[id := data ∪ old]> c)
      | None => None
      end
  | WDelete id => Some (delete id c)
  end.

(** A batch is atomic: all writes, or none. *)
Fixpoint apply_batch (c : collection) (ws : list write) : option collection :=
  match ws with
  | [] => Some c
  | w :: rest =>
      match apply_write c w with
      | Some c' => apply_batch c' rest
      | None => None
      end
  end.

Inductive event :=
| Committed (coll : string) (ws : list write)
| CommitFailed (coll : string) (ws : list write) (e : exn)
| Slept (ms : Z).

(** The store, the fate of the commits to come ([Some e]: the commit is
    refused with [e]; nothing left: commits go through), and what happened
    so far.  Reads are taken to succeed. *)
Record world := {
  store : gmap string collection;
  faults : list (option exn);
  log : list event
}.

Definition coll_of (w : world) (name : string) : collection :=
  default ∅ (store w !! name).

(** Store operations: a state monad over [world] with exceptions. *)
Definition M (A : Type) : Type := world → outcome A * world.

#[global] Instance M_ret : MRet M := λ A a w, (Return a, w).
#[global] Instance M_bind : MBind M := λ A B f m w,
  match m w with
  | (Return a, w') => f a w'
  | (Raise e, w') => (Raise e, w')
  end.

Definition raise {A} (e : exn) : M A := λ w, (Raise e, w).
Definition get_coll (name : string) : M collection :=
  λ w, (Return (coll_of w name), w).
Definition sleep (ms : Z) : M unit :=
  λ w, (Return tt, {| store := store w; faults := faults w;
                      log := log w ++ [Slept ms] |}).

(** [try: m except Exception as e: h e] *)
Definition try_except {A} (m : M A) (h : exn → M A) : M A :=
  λ w, match m w with
       | (Raise e, w') => if is_Exception e then h e w' else (Raise e, w')
       | r => r
       end.

(** [batch.commit()] *)
Definition commit (name : string) (ws : list write) : M unit :=
  λ w,
    let refused e :=
      (Raise e, {| store := store w; faults := tail (faults w);
                   log := log w ++ [CommitFailed name ws e] |}) in
    match head (faults w) with
    | Some (Some e) => refused e
    | _ =>
        match apply_batch (coll_of w name) ws with
        | Some c' =>
            (Return tt, {| store := <[name := c']> (store w);
                           faults := tail (faults w);
                           log := log w ++ [Committed name ws] |})
        | None => refused NotFound
        end
    end.

(** The name of the exception type, and its text. *)
Definition exn_text (e : exn) : string * string :=
  match e with
  | ApiError ename msg => (ename, msg)
  | NotFound => ("NotFound", "404 No document to update")
  | AttributeError => ("AttributeError", "")
  | UnicodeDecodeError => ("UnicodeDecodeError", "")
  | KeyError => ("KeyError", "")
  | ValueError => ("ValueError", "")
  | FileNotFoundError => ("FileNotFoundError", "")
  | SameFileError => ("SameFileError", "")
  | KeyboardInterrupt => ("KeyboardInterrupt", "")
  | SystemExit _ => ("SystemExit", "")
  end.

End Firestore.

(** ** CryptoDB (utils/database/db.py) *)

Module CryptoDB.
Import Data Firestore.

Definition BATCH_LIMIT : nat := 500.

Definition doc_time (d : doc) : option Z :=
  match d !! "open_time" with
  | Some (VTime t) => Some t
  | _ => None
  end.

(** <<order_by(time, DESCENDING).limit(1)>>: the largest time field of the
    collection, if a document has one. *)
Definition latest_time (c : collection) : option Z :=
  match omap (λ kd, doc_time kd.2) (map_to_list c) with
  | [] => None
  | t :: ts => Some (foldr Z.max t ts)
  end.

(** <<order_by(open_time, ASCENDING).limit(1)>> *)
Definition earliest_time (c : collection) : option Z :=
  match omap (λ kd, doc_time kd.2) (map_to_list c) with
  | [] => None
  | t :: ts => Some (foldr Z.min t ts)
  end.

(** <<where(time, '<', cutoff).stream()>>: the ids of the documents that
    are too old, in the order the store hands them out. *)
Definition older_than (cutoff : Z) (c : collection) : list Z :=
  omap (λ kd, match doc_time kd.2 with
              | Some t => if t <? cutoff then Some kd.1 else None
              | None => None
              end) (map_to_list c).

(** The deleting loop of [_keep_last_365_days]; [batch_count] of the
    source is the length of [batch]. *)
Fixpoint delete_loop (name : string) (ids : list Z) (batch : list write)
  : M unit :=
  match ids with
  | [] => if bool_decide (0 < length batch)%nat then commit name batch
          else mret tt
  | id :: rest =>
      let batch := batch ++ [WDelete id] in
      if bool_decide (BATCH_LIMIT ≤ length batch)%nat
      then commit name batch ;; delete_loop name rest []
      else delete_loop name rest batch
  end.

Definition RETENTION : Z := 180 * day.

(** [_keep_last_365_days(table_name, time='open_time')] *)
Definition keep_last_365_days (table_name : string) : M unit :=
  let table_name := lower table_name in
  c ← get_coll table_name;
  match latest_time c with
  | None => mret tt
  | Some latest_ts =>
      let cutoff := latest_ts - RETENTION in
      delete_loop table_name (older_than cutoff c) []
  end.

Definition num (x : option Q) : value :=
  match x with Some q => VNum q | None => VNull end.

(** [doc_data] of [bulk_insert_df]: the six candle fields and nothing
    else of the row. *)
Definition doc_data (r : row) : doc :=
  <["open_time" := VTime (open_time r)]>
  (<["open" := num (open_ r)]>
  (<["high" := num (high r)]>
  (<["low" := num (low r)]>
  (<["close" := num (close r)]>
  (<["volume" := num (volume r)]> ∅))))).

(** <<"quota" in str(e).lower() or "429" in str(e)
      or "ResourceExhausted" in str(type(e).__name__)>> *)
Definition is_quota (e : exn) : bool :=
  let '(ename, msg) := exn_text e in
  contains "quota" (lower msg) || contains "429" msg
  || contains "ResourceExhausted" ename.

(** The commit of a full batch inside the row loop, with its handler. *)
Definition commit_full_batch (name : string) (batch : list write) : M unit :=
  try_except (commit name batch)
    (λ e, if is_quota e
          then sleep 60000 ;; commit name batch
          else raise e).

(** The row loop of [bulk_insert_df]: [idx] counts rows from 1, and the
    result is the batch that is still open, with [total_committed]. *)
Fixpoint insert_loop (name : string) (rows : list row) (idx : nat)
    (batch : list write) (total_committed : nat) : M (list write * nat) :=
  match rows with
  | [] => mret (batch, total_committed)
  | r :: rest =>
      let batch := batch ++ [WSet (open_time r) (doc_data r)] in
      '(batch, total_committed) ←
        (if bool_decide (BATCH_LIMIT ≤ length batch)%nat
         then commit_full_batch name batch ;;
              mret ([], (total_committed + length batch)%nat)
         else mret (batch, total_committed));
      (if bool_decide (idx mod 1000 = 0)%nat then sleep 100 else mret tt) ;;
      insert_loop name rest (S idx) batch total_committed
  end.

(** [bulk_insert_df(table_name, df)] *)
Definition bulk_insert_df (table_name : string) (df : list row) : M unit :=
  let table_name := lower table_name in
  if bool_decide (df = []) then mret tt
  else
    '(batch, total_committed) ← insert_loop table_name df 1 [] 0%nat;
    (if bool_decide (0 < length batch)%nat
     then commit table_name batch else mret tt) ;;
    keep_last_365_days table_name.

(** *** Predictions *)

(** [dict(zip(keys, values))]: keys in the order of their first
    occurrence, each with its last value. *)
Fixpoint dict_set {A} (k : Z) (v : A) (d : list (Z * A)) : list (Z * A) :=
  match d with
  | [] => [(k, v)]
  | (k', v') :: rest =>
      if bool_decide (k = k') then (k, v) :: rest
      else (k', v') :: dict_set k v rest
  end.

Definition py_dict {A} (kvs : list (Z * A)) : list (Z * A) :=
  foldl (λ d kv, dict_set kv.1 kv.2 d) [] kvs.

Definition dict_get {A} (k : Z) (d : list (Z * A)) : option A :=
  snd <$> head (filter (λ kv, kv.1 = k) d).

(** <<col_name = f"{model}_{version}">> after <<model = model.lower()>> *)
Definition col_name (model version : string) : string :=
  lower model +:+ "_" +:+ version.

(** [normalize_pred] leaves a list of floats as it is. *)
Definition normalize_pred (preds : list Q) : value := VVec preds.

Definition pred_field (col : string) (preds : list Q) : doc :=
  <[col := normalize_pred preds]> ∅.

(** The loop of the small-batch path: one [batch.update] per timestamp. *)
Fixpoint update_loop (name col : string) (items : list (Z * list Q))
    (batch : list write) : M unit :=
  match items with
  | [] => if bool_decide (0 < length batch)%nat then commit name batch
          else mret tt
  | (ot, preds) :: rest =>
      let batch := batch ++ [WUpdate ot (pred_field col preds)] in
      if bool_decide (BATCH_LIMIT ≤ length batch)%nat
      then commit name batch ;; update_loop name col rest []
      else update_loop name col rest batch
  end.

(** The loop of [bulk_update_predictions]: an update for each timestamp
    whose document exists. *)
Fixpoint exists_update_loop (name col : string) (items : list (Z * list Q))
    (batch : list write) : M unit :=
  match items with
  | [] => if bool_decide (0 < length batch)%nat then commit name batch
          else mret tt
  | (ot, preds) :: rest =>
      c ← get_coll name;
      match c !! ot with
      | Some _ =>
          let batch := batch ++ [WUpdate ot (pred_field col preds)] in
          if bool_decide (BATCH_LIMIT ≤ length batch)%nat
          then commit name batch ;; exists_update_loop name col rest []
          else exists_update_loop name col rest batch
      | None => exists_update_loop name col rest batch
      end
  end.

(** [bulk_update_predictions(table_name, model, version, pred_df)] *)
Definition bulk_update_predictions (table_name model version : string)
    (pred_df : list (Z * list Q)) : M unit :=
  let table_name := lower table_name in
  let col := col_name model version in
  c ← get_coll table_name;
  match earliest_time c with
  | None => mret tt
  | Some first_time_in_db =>
      let pred_df := filter (λ p, first_time_in_db ≤ p.1) pred_df in
      if bool_decide (pred_df = []) then mret tt
      else exists_update_loop table_name col (py_dict pred_df) []
  end.

(** <<missing_times = [ot for ot in open_times if ot not in existing_times]>> *)
Definition missing_times (c : collection) (open_times : list Z) : list Z :=
  filter (λ ot, c !! ot = None) open_times.

(** The rows of [original_df] at the missing times, with the prediction
    column added. *)
Definition insert_df (col : string) (missing : list Z)
    (pred_map : list (Z * list Q)) (original_df : list row) : list row :=
  (λ r, {| open_time := open_time r; open_ := open_ r; high := high r;
           low := low r; close := close r; volume := volume r;
           extra := <[col := match dict_get (open_time r) pred_map with
                             | Some preds => VVec preds
                             | None => VNull
                             end]> ∅ |})
  <$> filter (λ r, open_time r ∈ missing) original_df.

(** [upsert_predictions(table_name, model, version, open_times,
    predictions, original_df, threshold=100)] *)
Definition upsert_predictions (table_name model version : string)
    (open_times : list Z) (predictions : list (list Q))
    (original_df : list row) (threshold : nat) : M unit :=
  keep_last_365_days table_name ;;
  if bool_decide (length predictions = 0%nat) then mret tt
  else if bool_decide (length open_times ≠ length predictions)
  then raise ValueError
  else
    let table_name := lower table_name in
    let model := lower model in
    let col := model +:+ "_" +:+ version in
    let insert_missing : M unit :=
      c ← get_coll table_name;
      let missing := missing_times c open_times in
      if bool_decide (missing = []) then mret tt
      else bulk_insert_df table_name
             (insert_df col missing (py_dict (zip open_times predictions))
                original_df) in
    if bool_decide (threshold < length open_times)%nat
    then
      (* large batch: bulk update, then insert what is missing *)
      let pred_df := zip open_times predictions in
      (if bool_decide (pred_df = []) then mret tt
       else bulk_update_predictions table_name model version pred_df) ;;
      insert_missing
    else
      (* small batch path *)
      update_loop table_name col (zip open_times predictions) [] ;;
      insert_missing.

(** The default of the [threshold] parameter. *)
Definition THRESHOLD : nat := 100.

(** Some document of the collection carries the timestamp [t]. *)
Definition has_time (c : collection) (t : Z) : Prop :=
  ∃ id d, c !! id = Some d ∧ doc_time d = Some t.

(** What retention trimming is meant to leave of a collection. *)
Definition deletes (c : collection) (ids : list Z) : collection :=
  foldl (λ c id, delete id c) c ids.

Definition trimmed (c : collection) : collection :=
  match latest_time c with
  | None => c
  | Some latest_ts => deletes c (older_than (latest_ts - RETENTION) c)
  end.

(** What the log says, in short. *)
Inductive brief :=
| BCommit (n : nat)
| BFail (n : nat)
| BSleep (ms : Z).

Definition brief_of (ev : event) : brief :=
  match ev with
  | Committed _ ws => BCommit (length ws)
  | CommitFailed _ ws _ => BFail (length ws)
  | Slept ms => BSleep ms
  end.

(** The sizes of the committed batches of [set] writes. *)
Definition write_chunks (l : list event) : list nat :=
  omap (λ ev, match ev with
              | Committed _ ((WSet _ _ :: _) as ws) => Some (length ws)
              | _ => None
              end) l.

(** How [n] rows are cut into batches: full ones, then the remainder. *)
Definition chunk_sizes (n : nat) : list nat :=
  replicate (n / BATCH_LIMIT) BATCH_LIMIT
  ++ (if bool_decide (0 < n mod BATCH_LIMIT)%nat
      then [n mod BATCH_LIMIT]%nat else []).

(** The batch that [bulk_insert_df] builds from rows. *)
Definition sets (rows : list row) : list write :=
  (λ r, WSet (open_time r) (doc_data r)) <$> rows.

Definition quiet (st : gmap string collection) : world :=
  {| store := st; faults := []; log := [] |}.

(** Sample data: [n] one-minute candles from 2024-01-01T00:00:00Z on, and
    the error the store gives when the quota is used up. *)
Definition candles (n : nat) : list row :=
  (λ i, candle (1704067200000000 + Z.of_nat i * minute) 42000) <$> seq 0 n.

(** A price collection with one candle from 1970 and one from 2024. *)
Definition sample_store : gmap string collection :=
  <["btcusdt" := <[0 := doc_data (candle 0 1)]>
                 (<[1704067200000000 :=
                      doc_data (candle 1704067200000000 42000)]> ∅)]> ∅.

Definition t2024 : Z := 1704067200000000.

Definition sample_pred : list Q := [1 # 5; 3 # 10; 1 # 2]%Q.

Definition quota_error : exn :=
  ApiError "ResourceExhausted" "429 Quota exceeded.".

End CryptoDB.

(** ** Model version manager (utils/model_version_manager.py) *)

Module VersionManager.

(** A file path is its directory (a list of components) and its name:
    [Path.parent] and [Path.name] are the two projections, and
    [dir / name] is the pair. *)
Abbreviation dir := (list string).
Abbreviation path := (list string * string)%type.

(** The files on disk, with their content. *)
Abbreviation files := (gmap (list string * string) string).

Record slot_info := {
  slot_path : path;                     (* "path" *)
  created_at : Z;
  promoted_at : option Z;
  rolled_back_at : option Z;
  created_from_v1 : bool;
  metadata : gmap string string
}.

Record slots := { v1 : option slot_info; v2 : option slot_info;
                  v3 : option slot_info }.

Record history_entry := {
  h_model_type : string;
  h_action : string;
  h_timestamp : Z;
  h_version : string;                   (* "new_version" / "target_version" *)
  h_promoted : bool                     (* "previous_v3_promoted_to_v2" *)
}.

Record registry := {
  models : gmap string slots;
  last_updated : option Z;
  version_history : list history_entry
}.

(** The manager object together with the disk it works on: the artifact
    files, and the registry as last written to [version_registry.json]. *)
Record manager := {
  base_models_dir : dir;
  reg : registry;
  fs : files;
  saved : option registry
}.

Definition VM (A : Type) : Type := manager → outcome A * manager.

#[global] Instance VM_ret : MRet VM := λ A a m, (Return a, m).
#[global] Instance VM_bind : MBind VM := λ A B f c m,
  match c m with
  | (Return a, m') => f a m'
  | (Raise e, m') => (Raise e, m')
  end.

Definition vm_raise {A} (e : exn) : VM A := λ m, (Raise e, m).
Definition get : VM manager := λ m, (Return m, m).
Definition set_fs (f : files) : VM unit := λ m,
  (Return tt, {| base_models_dir := base_models_dir m; reg := reg m;
                 fs := f; saved := saved m |}).
Definition set_reg (r : registry) : VM unit := λ m,
  (Return tt, {| base_models_dir := base_models_dir m; reg := r;
                 fs := fs m; saved := saved m |}).

(** [_get_model_dir(model_type, version)] *)
Definition get_model_dir (m : manager) (model_type version : string) : dir :=
  base_models_dir m ++ [model_type; "v" +:+ version].

(** [shutil.copy2(src, dst)] *)
Definition copy2 (src dst : path) : VM unit :=
  m ← get;
  match fs m !! src with
  | None => vm_raise FileNotFoundError
  | Some content =>
      if bool_decide (src = dst) then vm_raise SameFileError
      else set_fs (<[dst := content]> (fs m))
  end.

Definition ends_with (suffix s : string) : bool :=
  String.prefix (String.rev suffix) (String.rev s).

(** The globs of [_copy_associated_files]: <<*_features.pkl>> for
    lightgbm, <<*scaler*.pkl>> for tst, nothing for the other types. *)
Definition associated (model_type name : string) : bool :=
  if bool_decide (model_type = "lightgbm")
  then ends_with "_features.pkl" name
  else if bool_decide (model_type = "tst")
  then ends_with ".pkl" name
       && contains "scaler" (String.substring 0 (String.length name - 4) name)
  else false.

Definition glob (model_type : string) (source_dir : dir) (f : files)
  : list (path * string) :=
  filter (λ pc, pc.1.1 = source_dir ∧ associated model_type pc.1.2 = true)
         (map_to_list f).

(** [_copy_associated_files(model_type, source_dir, dest_dir)] *)
Fixpoint copy_all (found : list (path * string)) (dest_dir : dir) : VM unit :=
  match found with
  | [] => mret tt
  | (p, _) :: rest => copy2 p (dest_dir, p.2) ;; copy_all rest dest_dir
  end.

Definition copy_associated_files (model_type : string)
    (source_dir dest_dir : dir) : VM unit :=
  m ← get; copy_all (glob model_type source_dir (fs m)) dest_dir.

Definition set_slots (model_type : string) (sl : slots) : VM unit :=
  m ← get;
  set_reg {| models := <[model_type := sl]> (models (reg m));
             last_updated := last_updated (reg m);
             version_history := version_history (reg m) |}.

Definition get_slots (model_type : string) : VM slots :=
  m ← get;
  match models (reg m) !! model_type with
  | Some sl => mret sl
  | None => vm_raise KeyError
  end.

(** [_save_registry()] *)
Definition save_registry (now : Z) : VM unit := λ m,
  let r := {| models := models (reg m); last_updated := Some now;
              version_history := version_history (reg m) |} in
  (Return tt, {| base_models_dir := base_models_dir m; reg := r;
                 fs := fs m; saved := Some r |}).

Definition append_history (h : history_entry) : VM unit :=
  m ← get;
  set_reg {| models := models (reg m);
             last_updated := last_updated (reg m);
             version_history := version_history (reg m) ++ [h] |}.

(** The copy of a slot's files into the directory of slot 2, with the
    registry entry that goes with it. *)
Definition fill_v2 (model_type : string) (from : slot_info)
    (entry : path → slot_info) : VM unit :=
  m ← get;
  let v2_dir := get_model_dir m model_type "2" in
  match fs m !! slot_path from with
  | None => mret tt                       (* if old_path.exists(): *)
  | Some _ =>
      let v2_path := (v2_dir, (slot_path from).2) in
      copy2 (slot_path from) v2_path ;;
      copy_associated_files model_type (slot_path from).1 v2_dir ;;
      sl ← get_slots model_type;
      set_slots model_type {| v1 := v1 sl; v2 := Some (entry v2_path);
                              v3 := v3 sl |}
  end.

(** [register_new_model(model_type, model_path, metadata=None)]; [now]
    stands for the readings of [datetime.now()]. *)
Definition register_new_model (model_type : string) (source_path : path)
    (meta : option (gmap string string)) (now : Z) : VM string :=
  m ← get;
  if bool_decide (fs m !! source_path = None) then vm_raise FileNotFoundError
  else
    sl ← get_slots model_type;
    match v3 sl, v1 sl, v2 sl with
    | Some old_v3, _, _ =>
        fill_v2 model_type old_v3
          (λ v2_path, {| slot_path := v2_path;
                         created_at := created_at old_v3;
                         promoted_at := Some now; rolled_back_at := None;
                         created_from_v1 := false;
                         metadata := metadata old_v3 |})
    | None, Some base, None =>
        fill_v2 model_type base
          (λ v2_path, {| slot_path := v2_path;
                         created_at := created_at base;
                         promoted_at := None; rolled_back_at := None;
                         created_from_v1 := true;
                         metadata := metadata base |})
    | _, _, _ => mret tt
    end ;;
    m ← get;
    let v3_dir := get_model_dir m model_type "3" in
    let dest_path := (v3_dir, source_path.2) in
    copy2 source_path dest_path ;;
    copy_associated_files model_type source_path.1 v3_dir ;;
    sl ← get_slots model_type;
    set_slots model_type
      {| v1 := v1 sl; v2 := v2 sl;
         v3 := Some {| slot_path := dest_path; created_at := now;
                       promoted_at := None; rolled_back_at := None;
                       created_from_v1 := false;
                       metadata := default ∅ meta |} |} ;;
    sl ← get_slots model_type;
    append_history {| h_model_type := model_type;
                      h_action := "new_model_registered";
                      h_timestamp := now; h_version := "3";
                      h_promoted := bool_decide (is_Some (v2 sl)) |} ;;
    save_registry now ;;
    mret "3".

(** What a slot holds: the content of the file its registry entry points
    to. *)
Definition slot_artifact (m : manager) (model_type : string)
    (slot : slots → option slot_info) : option string :=
  sl ← models (reg m) !! model_type;
  info ← slot sl;
  fs m !! slot_path info.

Definition with_fs (m : manager) (f : files) : manager :=
  {| base_models_dir := base_models_dir m; reg := reg m; fs := f;
     saved := saved m |}.

Definition with_slots (m : manager) (ty : string) (sl : slots) : manager :=
  {| base_models_dir := base_models_dir m;
     reg := {| models := <[ty := sl]> (models (reg m));
               last_updated := last_updated (reg m);
               version_history := version_history (reg m) |};
     fs := fs m; saved := saved m |}.

(** The slot whose files go to slot 2 when a new model comes in. *)
Definition rotation_source (sl : slots) : option slot_info :=
  match v3 sl, v1 sl, v2 sl with
  | Some old_v3, _, _ => Some old_v3
  | None, Some base, None => Some base
  | _, _, _ => None
  end.

(** A manager with a lightgbm baseline in slot 1, and two newly trained
    models (one with its feature list) in an output directory. *)
Definition baseline_info : slot_info :=
  {| slot_path := (["models"; "lightgbm"; "v1"], "lgb_model.txt");
     created_at := 0; promoted_at := None; rolled_back_at := None;
     created_from_v1 := false; metadata := ∅ |}.

Definition sample_manager : manager :=
  {| base_models_dir := ["models"];
     reg := {| models :=
                 <["lightgbm" := {| v1 := Some baseline_info; v2 := None;
                                    v3 := None |}]> ∅;
               last_updated := None; version_history := [] |};
     fs := <[(["models"; "lightgbm"; "v1"], "lgb_model.txt") := "A"]>
           (<[(["out"], "model_b.txt") := "B"]>
           (<[(["out"], "model_b_features.pkl") := "features of B"]>
           (<[(["out"], "model_c.txt") := "C"]> ∅)));
     saved := None |}.

(** A file that is not inside the two rotating slot directories. *)
Definition unmanaged (m : manager) (model_type : string) (p : path) : Prop :=
  p.1 ≠ get_model_dir m model_type "2" ∧ p.1 ≠ get_model_dir m model_type "3".

End VersionManager.

(** ** Consumer callback (consumer.py, maybe_process) *)

Module Consumer.
Import ControlPlane Data.

Definition seq_len : nat := 30.

(** The value of a Kafka message after JSON decoding: records that carry
    an [open_time], or [n] records none of which does. *)
Inductive message :=
| Candles (rows : list row)
| NoTimes (n : nat).

(** The two variables the callback closes over. *)
Record cstate := {
  last_processed_time : option Z;
  rolling_window : list row
}.

(** What the collaborators answer during one call. *)
Record call_env := {
  polled : outcome jval;                 (* state_checker(..., timeout=1) *)
  preprocessed : outcome (list (list Q));(* preprocess_data(window_df, seq_len) *)
  predicted : outcome (list (list Q));   (* get_predictions([feature_vector], ..) *)
  upserted : outcome unit;               (* crypto_db.upsert_predictions(..) *)
  appended : outcome unit                (* pred_df.to_csv(..) *)
}.

Inductive event :=
| Upserted (t : Z) (prediction : list Q)
| UpsertFailed (t : Z)
| Appended (t : Z)
| Processed (t : Z)                      (* "Processed prediction for .." *)
| ErrorLogged.

Definition row_le (a b : row) : Prop := open_time a ≤ open_time b.

#[global] Instance row_le_dec : RelDecision row_le.
Proof. intros a b. unfold row_le. apply _. Defined.

(** [rolling_window[-seq_len:]] *)
Definition last_n {A} (n : nat) (l : list A) : list A :=
  drop (length l - n) l.

Definition set_cursor (st : cstate) (t : Z) : cstate :=
  {| last_processed_time := Some t; rolling_window := rolling_window st |}.

Definition set_window (st : cstate) (w : list row) : cstate :=
  {| last_processed_time := last_processed_time st; rolling_window := w |}.

(** The inner [try] block: prediction, upsert, CSV line, cursor.  The
    result says which exception leaves the block, if one does. *)
Definition predict_and_store (env : call_env) (last_time : Z) (st : cstate)
  : outcome unit * cstate * list event :=
  match predicted env with
  | Raise e => (Raise e, st, [])
  | Return [] => (Return tt, st, [])                 (* if not predictions *)
  | Return (prediction :: _) =>
      match upserted env with
      | Raise e => (Raise e, st, [UpsertFailed last_time])
      | Return _ =>
          match appended env with
          | Raise e => (Raise e, st, [Upserted last_time prediction])
          | Return _ =>
              (Return tt, set_cursor st last_time,
               [Upserted last_time prediction; Appended last_time;
                Processed last_time])
          end
      end
  end.

(** [except Exception as e: logger.error(...)] *)
Definition logged (r : outcome unit * cstate * list event)
  : outcome unit * cstate * list event :=
  match r with
  | (Raise e, st, evs) =>
      if is_Exception e then (Return tt, st, evs ++ [ErrorLogged]) else r
  | _ => r
  end.

(** [maybe_process(value, context=None)]; the callback gives [value]
    back, so only the state and the exception, if any, are of interest. *)
Definition maybe_process (env : call_env) (value : message) (st : cstate)
  : outcome unit * cstate * list event :=
  logged
    match polled env with
    | Raise e => (Raise e, st, [])
    | Return state =>
        if bool_decide (state ∈ [JStr "wait"; JStr "pause"; JStr "paused";
                                 JStr "delete"])
        then (Return tt, st, [])
        else if bool_decide (state ≠ JStr "running") then (Return tt, st, [])
        else
          match value with
          | Candles [] | NoTimes _ => (Return tt, st, [])
          | Candles batch_data =>
              let df := merge_sort row_le batch_data in
              let df := match last_processed_time st with
                        | Some t => filter (λ r, t < open_time r) df
                        | None => df
                        end in
              if bool_decide (df = []) then (Return tt, st, [])
              else
                let window := rolling_window st ++ df in
                let window := if bool_decide (seq_len < length window)%nat
                              then last_n seq_len window else window in
                let st := set_window st window in
                if bool_decide (length window < seq_len)%nat
                then (Return tt, st, [])
                else
                  match preprocessed env with
                  | Raise e => (Raise e, st, [])
                  | Return [] => (Return tt, st, [])
                  | Return _ =>
                      match last (last_n seq_len window) with
                      | None => (Raise KeyError, st, [])
                      | Some r =>
                          logged (predict_and_store env (open_time r) st)
                      end
                  end
          end
    end.

(** The cursor after a call is the one from before, or the upsert went
    through and the cursor is the timestamp that was upserted. *)
Definition cursor_ok (env : call_env) (st : cstate)
    (r : outcome unit * cstate * list event) : Prop :=
  last_processed_time r.1.2 = last_processed_time st
  ∨ (upserted env = Return tt
     ∧ ∃ t prediction, last_processed_time r.1.2 = Some t
                       ∧ Upserted t prediction ∈ r.2).

(** Thirty candles, and a call in which everything works. *)
Definition thirty : list row :=
  (λ i, candle (1704067200000000 + Z.of_nat i * minute) 42000) <$> seq 0 30.

Definition all_well : call_env :=
  {| polled := Return (JStr "running");
     preprocessed := Return [[1%Q]];
     predicted := Return [[1 # 5; 3 # 10; 1 # 2]%Q];
     upserted := Return tt;
     appended := Return tt |}.

Definition store_unreachable : call_env :=
  {| polled := Return (JStr "running");
     preprocessed := Return [[1%Q]];
     predicted := Return [[1 # 5; 3 # 10; 1 # 2]%Q];
     upserted := Raise (ApiError "ServiceUnavailable" "503");
     appended := Return tt |}.

Definition fresh : cstate :=
  {| last_processed_time := None; rolling_window := [] |}.

End Consumer.

(** ** Shutdown script (kill_all.py) *)

Module KillAll.
Import ControlPlane.

Definition SYMBOLS : list string := ["BTCUSDT"].
Definition MODELS : list string := ["lightgbm"; "tst"].
Definition VERSIONS : list string := ["v1"; "v2"; "v3"].

Definition INDIVIDUAL_PROCESS_TIMEOUT : Z := 60.
Definition TOTAL_TIMEOUT : Z := 600.

(** What the outside world does during one call that leaves the script:
    the result if the call is a [state_checker], the result if it is a
    write, a delete or a sleep, the time the call takes beyond what it
    asks for (milliseconds), and whether SIGTERM or SIGINT arrives
    meanwhile (the handler then clears [_should_continue]). *)
Record answer := {
  checked : outcome jval;
  written : outcome unit;
  took : N;
  signalled : bool
}.

Inductive event :=
| Checked (crypto model version : string)
| Wrote (crypto model version state : string)
| Slept (ms : Z)
| DeletedAllStates
| ErrorLogged.

Record kstate := {
  oracle : nat → answer;
  tick : nat;                       (* calls made so far *)
  clock : Z;                        (* time.time(), milliseconds *)
  should_continue : bool;           (* _should_continue *)
  log : list event
}.

(** A computation may run out of the fuel its loops were given ([None]),
    return, or raise. *)
Definition KM (A : Type) : Type := kstate → option (outcome A * kstate).

#[global] Instance KM_ret : MRet KM := λ A a st, Some (Return a, st).
#[global] Instance KM_bind : MBind KM := λ A B f c st,
  match c st with
  | Some (Return a, st') => f a st'
  | Some (Raise e, st') => Some (Raise e, st')
  | None => None
  end.

Definition get : KM kstate := λ st, Some (Return st, st).

(** One call to the outside: [ms] is the time it asks for, [pick] the
    result it looks at, [ev] what goes into the log. *)
Definition call {A} (ms : Z) (pick : answer → outcome A) (ev : event) : KM A :=
  λ st,
    let a := oracle st (tick st) in
    Some (pick a,
          {| oracle := oracle st; tick := S (tick st);
             clock := clock st + ms + Z.of_N (took a);
             should_continue := should_continue st && negb (signalled a);
             log := log st ++ [ev] |}).

Definition state_checker (crypto model version : string) : KM jval :=
  call 0 checked (Checked crypto model version).
Definition state_write (crypto model version state : string) : KM unit :=
  call 0 written (Wrote crypto model version state).
Definition sleep (secs : Z) : KM unit :=
  call (secs * 1000) (λ _, Return tt) (Slept (secs * 1000)).
Definition delete_all_states : KM unit :=
  call 0 written DeletedAllStates.

Definition logger_error : KM unit := λ st,
  Some (Return tt, {| oracle := oracle st; tick := tick st; clock := clock st;
                      should_continue := should_continue st;
                      log := log st ++ [ErrorLogged] |}).

Definition stop_continuing : KM unit := λ st,
  Some (Return tt, {| oracle := oracle st; tick := tick st; clock := clock st;
                      should_continue := false; log := log st |}).

(** [try: c except Exception as e: h] *)
Definition try_except {A} (c : KM A) (h : KM A) : KM A := λ st,
  match c st with
  | Some (Raise e, st') => if is_Exception e then h st' else Some (Raise e, st')
  | r => r
  end.

(** [try: c finally: f]: when [f] raises, that is what goes on. *)
Definition try_finally {A} (c : KM A) (f : KM unit) : KM A := λ st,
  match c st with
  | Some (r, st') =>
      match f st' with
      | Some (Return _, st'') => Some (r, st'')
      | Some (Raise e, st'') => Some (Raise e, st'')
      | None => None
      end
  | None => None
  end.

Definition sys_exit {A} (code : Z) : KM A := λ st, Some (Raise (SystemExit code), st).

Definition gone (state : jval) : bool :=
  bool_decide (state ∈ [JStr "deleted"; JStr "unknown"]).

(** The [while] loop of [wait_for_shutdown]. *)
Fixpoint wait_loop (fuel : nat) (crypto model version : string)
    (timeout start_time : Z) : KM bool :=
  match fuel with
  | O => λ _, None
  | S fuel' =>
      st ← get;
      if (clock st - start_time <? timeout * 1000) && should_continue st
      then
        r ← try_except
               (state ← state_checker crypto model version;
                if bool_decide (state = JStr "deleted") then mret (Some true)
                else if bool_decide (state = JStr "unknown")
                then mret (Some true)
                else sleep 5 ;; mret None)
               (logger_error ;; sleep 5 ;; mret None);
        match r with
        | Some b => mret b
        | None => wait_loop fuel' crypto model version timeout start_time
        end
      else mret false
  end.

(** [wait_for_shutdown(crypto, model, version, timeout)]; every turn of
    the loop that does not return sleeps five seconds, so [timeout + 1]
    turns are more than the loop can take. *)
Definition wait_for_shutdown (crypto model version : string) (timeout : Z)
  : KM bool :=
  st ← get;
  if negb (should_continue st) then mret false
  else wait_loop (S (Z.to_nat timeout)) crypto model version timeout (clock st).

(** The entities in the order of the three nested [for] loops.  The
    loops all leave on the same tests, which nothing changes between one
    level and the next, so they are run as one loop over this list. *)
Definition entities : list (string * string * string) :=
  symbol ← SYMBOLS; model ← MODELS; version ← VERSIONS;
  [(symbol, model, version)].

Definition send_delete (crypto model version : string) : KM unit :=
  try_except
    (state ← state_checker crypto model version;
     if negb (gone state) then state_write crypto model version "delete"
     else mret tt)
    logger_error.

Fixpoint send_deletes (es : list (string * string * string))
    (script_start_time : Z) : KM unit :=
  match es with
  | [] => mret tt
  | (symbol, model, version) :: rest =>
      st ← get;
      if negb (should_continue st) then mret tt
      else if TOTAL_TIMEOUT * 1000 <? clock st - script_start_time
      then stop_continuing
      else send_delete symbol model version ;;
           send_deletes rest script_start_time
  end.

Fixpoint wait_all (es : list (string * string * string))
    (script_start_time : Z) : KM unit :=
  match es with
  | [] => mret tt
  | (symbol, model, version) :: rest =>
      st ← get;
      if negb (should_continue st)
         || (TOTAL_TIMEOUT * 1000 <? clock st - script_start_time)
      then mret tt
      else wait_for_shutdown symbol model version INDIVIDUAL_PROCESS_TIMEOUT ;;
           wait_all rest script_start_time
  end.

Definition when_continuing (c : KM unit) : KM unit :=
  st ← get; if should_continue st then c else mret tt.

(** The body of the [try] in [main]. *)
Definition shutdown : KM unit :=
  st ← get;
  let script_start_time := clock st in
  send_deletes entities script_start_time ;;
  when_continuing (send_delete "ALL" "producer" "main") ;;
  when_continuing (wait_all entities script_start_time) ;;
  st ← get;
  (if should_continue st
      && (clock st - script_start_time <=? TOTAL_TIMEOUT * 1000)
   then wait_for_shutdown "ALL" "producer" "main" INDIVIDUAL_PROCESS_TIMEOUT ;;
        mret tt
   else mret tt) ;;
  when_continuing (try_except delete_all_states logger_error).

(** [main()]: the handlers are installed, then
    <<try: ... except Exception: log finally: sys.exit(0)>>. *)
Definition main : KM unit :=
  try_finally (try_except shutdown logger_error) (sys_exit 0).

(** The exit status of a script whose [main] ends like this. *)
Definition exit_status (r : outcome unit) : Z :=
  match r with
  | Return _ => 0
  | Raise (SystemExit code) => code
  | Raise _ => 1
  end.

Definition start (o : nat → answer) : kstate :=
  {| oracle := o; tick := 0; clock := 0; should_continue := true; log := [] |}.

Definition kill_all (o : nat → answer) : option Z :=
  (λ r, exit_status r.1) <$> main (start o).

(** What [setup_logger] (logger.py) meets: whether the logger has handlers
    already, and what creating the log directory, [os.chmod] on it and
    opening the log file do. *)
Record log_env := {
  has_handlers : bool;              (* logger.handlers *)
  mkdir : outcome unit;             (* log_path.parent.mkdir(parents=True, exist_ok=True) *)
  chmod : outcome unit;             (* os.chmod(log_path.parent, 0o777) *)
  file_handler : outcome unit       (* logging.FileHandler(log_file) *)
}.

(** [setup_logger(name)]: only the [chmod] is inside a [try]. *)
Definition setup_logger (l : log_env) : outcome unit :=
  if has_handlers l then Return tt
  else
    match mkdir l with
    | Raise e => Raise e
    | Return _ =>
        match chmod l with
        | Raise e => if is_Exception e then file_handler l else Raise e
        | Return _ => file_handler l
        end
    end.

(** The script as the interpreter runs it: the module level, where line 29
    sets up the logger, and then [main()] under the [__main__] guard.  An
    exception that leaves the module level ends the run before [main] is
    entered, with the status of an uncaught exception. *)
Definition script (l : log_env) (o : nat → answer) : option Z :=
  match setup_logger l with
  | Raise e => Some (exit_status (Raise e))
  | Return _ => kill_all o
  end.

(** A log directory that cannot be created. *)
Definition no_log_dir : log_env :=
  {| has_handlers := false;
     mkdir := Raise (ApiError "PermissionError" "log dir");
     chmod := Return tt; file_handler := Return tt |}.

(** The claim of the specification: status 0 for every execution. *)
Definition always_exits_zero : Prop := ∀ l o, script l o = Some 0.

(** A computation that comes to an end from every state. *)
Definition total {A} (c : KM A) : Prop := ∀ st, is_Some (c st).

(** Consumers that never answer the delete: every check says [running]. *)
Definition stubborn : nat → answer :=
  λ _, {| checked := Return (JStr "running"); written := Return tt;
          took := 0; signalled := false |}.

(** A state directory that cannot be read or written at all. *)
Definition broken : nat → answer :=
  λ _, {| checked := Raise AttributeError;
          written := Raise (ApiError "PermissionError" "state dir");
          took := 0; signalled := false |}.

End KillAll.

(** ** The other state-file operations (consumer_utils.py) *)

Module StateFiles.
Import ControlPlane.

(** [s.endswith(suffix)] *)
Definition ends_with (suffix s : string) : bool :=
  String.prefix (String.rev suffix) (String.rev s).

(** [os.remove(filepath)] inside <<try: ... except Exception: print>>:
    the files in [stuck] cannot be removed, and stay. *)
Definition remove (stuck : gset string) (name : string)
    (fs : gmap string file) : gmap string file :=
  if bool_decide (name ∈ stuck) then fs else delete name fs.

(** [get_state_data(crypto, model, version)] *)
Definition get_state_data (crypto model version : string)
    (fs : gmap string file) : outcome (option json) :=
  match fs !! filename crypto model version with
  | None => Return None
  | Some Unreadable | Some Malformed => Return None
  | Some Undecodable => Raise UnicodeDecodeError
  | Some (Parsed j) => Return (Some j)
  end.

(** [delete_state(crypto, model, version)] *)
Definition delete_state (stuck : gset string) (crypto model version : string)
    (fs : gmap string file) : gmap string file :=
  match fs !! filename crypto model version with
  | Some _ => remove stuck (filename crypto model version) fs
  | None => fs
  end.

(** [delete_all_states()]: every entry of the directory listing whose
    name ends in <<.json>> is removed. *)
Definition delete_all_states (stuck : gset string) (fs : gmap string file)
  : gmap string file :=
  foldl (λ acc name, if ends_with ".json" name then remove stuck name acc
                     else acc)
        fs (map_to_list fs).*1.

(** A world in which the state directory stays as it is. *)
Definition frozen (fs : gmap string file) (name : string) : world :=
  {| obs := λ _, fs !! name; lag := λ _, 0%N |}.

End StateFiles.

(** ** Publishing a frame in batches (producer.py, send_df_to_quix) *)

Module Publisher.
Import Data.

Definition BATCH_SIZE : Z := 1000.

(** [range(0, stop, step)] for a positive [step]. *)
Definition py_range (stop step : nat) : list nat :=
  (λ k, k * step)%nat <$> seq 0 ((stop + step - 1) / step).

(** What the three ways of publishing do for one batch:
    [app.get_producer()], [topic.get_producer()], [topic.publish()]. *)
Record attempt := {
  via_app : outcome unit;
  via_topic : outcome unit;
  via_publish : outcome unit
}.

(** The [try] around one batch: an [AttributeError] sends the code to the
    next way of publishing, anything else is logged and raised again. *)
Definition publish_batch (a : attempt) : outcome unit :=
  match via_app a with
  | Raise AttributeError =>
      match via_topic a with
      | Raise AttributeError => via_publish a
      | r => r
      end
  | r => r
  end.

(** The loop over the batches: [answers k] is what happens to the
    [k]-th batch; the result lists the batches that went out, each with
    the row index [i] that is part of its key. *)
Fixpoint send_batches (df : list row) (batch_size : nat) (starts : list nat)
    (k : nat) (answers : nat → attempt)
  : outcome unit * list (nat * list row) :=
  match starts with
  | [] => (Return tt, [])
  | i :: rest =>
      let batch_df := take batch_size (drop i df) in
      match publish_batch (answers k) with
      | Raise e => (Raise e, [])
      | Return _ =>
          let '(r, sent) := send_batches df batch_size rest (S k) answers in
          (r, (i, batch_df) :: sent)
      end
  end.

(** [send_df_to_quix(app, symbol, df, batch_size=BATCH_SIZE)] *)
Definition send_df_to_quix (df : list row) (batch_size : Z)
    (answers : nat → attempt) : outcome unit * list (nat * list row) :=
  if bool_decide (df = []) then (Return tt, [])
  else if bool_decide (batch_size = 0) then (Raise ValueError, [])
  else if bool_decide (batch_size < 0) then (Return tt, [])
  else send_batches df (Z.to_nat batch_size)
         (py_range (length df) (Z.to_nat batch_size)) 0 answers.

Definition all_sent (answers : nat → attempt) : Prop :=
  ∀ k, publish_batch (answers k) = Return tt.

Definition broker_up : nat → attempt :=
  λ _, {| via_app := Return tt; via_topic := Return tt;
          via_publish := Return tt |}.

(** A broker that refuses the second batch. *)
Definition too_large : exn := ApiError "KafkaException" "message too large".

Definition second_refused : nat → attempt :=
  λ k, if (k =? 1)%nat
       then {| via_app := Raise too_large; via_topic := Return tt;
               via_publish := Return tt |}
       else broker_up k.

Definition sample_frame (n : nat) : list row :=
  (λ i, candle (1704067200000000 + Z.of_nat i * minute) 42000) <$> seq 0 n.

End Publisher.

(** ** Which collaborator of the producer loop raised *)

Module ProducerExit.
Import Producer.

Definition raises (env : cycle_env) (e : exn) : Prop :=
  polled env = Raise e ∨ written env = Raise e ∨ fetched env = Raise e
  ∨ persist env = Raise e ∨ csv env = Raise e ∨ publish env = Raise e.

End ProducerExit.

(** ** What a bulk insert leaves in a collection (db.py) *)

Module Merge.
Import Data Firestore CryptoDB.

(** <<required_cols = ["open_time", "open", "high", "low", "close",
    "volume"]>> *)
Definition required_cols : list string :=
  ["open_time"; "open"; "high"; "low"; "close"; "volume"].

(** Rows written one after the other with [set(..., merge=True)]. *)
Definition merged (c : collection) (rows : list row) : collection :=
  foldl (λ c r, <[open_time r := doc_data r ∪ default ∅ (c !! open_time r)]> c)
        c rows.

(** The last row of a frame with a given timestamp. *)
Definition last_row (id : Z) (rows : list row) : option row :=
  last (filter (λ r, open_time r = id) rows).

(** A store with one candle that already carries a prediction. *)
Definition scored_store : gmap string collection :=
  <["btcusdt" :=
      <[t2024 := <["lightgbm_v1" := VVec sample_pred]>
                   (doc_data (candle t2024 42000))]> ∅]> ∅.

End Merge.

(** ** Sample worlds for the store *)

Module StoreSamples.
Import Data Firestore CryptoDB.

(** The next commit is refused for lack of quota. *)
Definition throttled : world :=
  {| store := ∅; faults := [Some quota_error]; log := [] |}.

End StoreSamples.

(** ** The other operations of the version manager
       (model_version_manager.py) *)

Module VersionOps.
Import VersionManager.

(** [s.replace(old, new)]: the occurrences of [old] are taken from the
    left and do not overlap; an empty [old] matches before every
    character and at the end. *)
Fixpoint replace_from (old new : string) (skip : nat) (s : string) : string :=
  match s with
  | EmptyString => EmptyString
  | String c r =>
      match skip with
      | S k => replace_from old new k r
      | O => if String.prefix old s
             then new +:+ replace_from old new (String.length old - 1) r
             else String c (replace_from old new 0 r)
      end
  end.

Fixpoint between (new s : string) : string :=
  match s with
  | EmptyString => new
  | String c r => new +:+ String c (between new r)
  end.

Definition str_replace (old new s : string) : string :=
  if bool_decide (old = "") then between new s else replace_from old new 0 s.

(** [if p.exists(): shutil.copy2(p, dest_dir / p.name)] *)
Definition copy_if_exists (p : path) (dest_dir : dir) : VM unit :=
  m ← get;
  if bool_decide (is_Some (fs m !! p)) then copy2 p (dest_dir, p.2)
  else mret tt.

(** [initialize_baseline(model_type, model_path, metadata=None)]; [now]
    stands for the readings of [datetime.now()]. *)
Definition initialize_baseline (model_type : string) (source_path : path)
    (meta : option (gmap string string)) (now : Z) : VM unit :=
  sl ← get_slots model_type;
  if bool_decide (is_Some (v1 sl)) then mret tt
  else
    m ← get;
    let v1_dir := get_model_dir m model_type "1" in
    if bool_decide (fs m !! source_path = None) then vm_raise FileNotFoundError
    else
      let dest_path := (v1_dir, source_path.2) in
      copy2 source_path dest_path ;;
      (if bool_decide (model_type = "lightgbm") then
         copy_if_exists
           (source_path.1, str_replace ".txt" "_features.pkl" source_path.2)
           v1_dir
       else if bool_decide (model_type = "tst") then
         copy_if_exists
           (source_path.1,
            str_replace "tst_model.pth" "tst_scaler.pkl" source_path.2)
           v1_dir
       else mret tt) ;;
      sl ← get_slots model_type;
      set_slots model_type
        {| v1 := Some {| slot_path := dest_path; created_at := now;
                         promoted_at := None; rolled_back_at := None;
                         created_from_v1 := false;
                         metadata := default ∅ meta |};
           v2 := v2 sl; v3 := v3 sl |} ;;
      save_registry now.

(** [self.registry[model_type].get(f"v{version}")] *)
Definition slot_of (version : string) (sl : slots) : option slot_info :=
  if bool_decide (version = "1") then v1 sl
  else if bool_decide (version = "2") then v2 sl
  else if bool_decide (version = "3") then v3 sl
  else None.

(** [get_model_path(model_type, version)] *)
Definition get_model_path (model_type version : string) : VM (option path) :=
  if bool_decide (version ∈ ["1"; "2"; "3"]) then
    sl ← get_slots model_type;
    match slot_of version sl with
    | None => mret None
    | Some version_info =>
        m ← get;
        if bool_decide (is_Some (fs m !! slot_path version_info))
        then mret (Some (slot_path version_info))
        else mret None
    end
  else vm_raise ValueError.

(** [d] relative to [src], when it is [src] or lies below it. *)
Fixpoint strip_dir (src d : dir) : option dir :=
  match src, d with
  | [], _ => Some d
  | s :: src', x :: d' => if bool_decide (s = x) then strip_dir src' d' else None
  | _ :: _, [] => None
  end.

(** The files in and below [src], by their directory relative to [src]
    and their name. *)
Definition tree (src : dir) (f : files) : list (dir * string) :=
  omap (λ pc : path * string,
          match strip_dir src pc.1.1 with
          | Some rel => Some (rel, pc.1.2)
          | None => None
          end)
       (map_to_list f).

(** [shutil.copytree(src, dst, dirs_exist_ok=True)] copies every file with
    [copy2], goes on after a file that failed and raises [shutil.Error]
    at the end if one did.  When [dst] is [src] or lies below it, every
    copy fails or the walk descends into its own copy until a path is too
    long; the call raises [shutil.Error] then as well, and the partial
    copies of that case are left out. *)
Definition shutil_Error : exn := ApiError "shutil.Error" "".

Fixpoint copy_tree (found : list (dir * string)) (src dst : dir)
    (failed : bool) : VM unit :=
  match found with
  | [] => if failed then vm_raise shutil_Error else mret tt
  | (rel, n) :: rest => λ m,
      match copy2 (src ++ rel, n) (dst ++ rel, n) m with
      | (Return _, m') => copy_tree rest src dst failed m'
      | (Raise _, m') => copy_tree rest src dst true m'
      end
  end.

Definition copytree (src dst : dir) : VM unit :=
  m ← get;
  if bool_decide (is_Some (strip_dir src dst)) then vm_raise shutil_Error
  else copy_tree (tree src (fs m)) src dst false.

(** [for file in source_dir.iterdir(): if file.is_file(): ...] *)
Definition iterdir (source_dir : dir) (f : files) : list (path * string) :=
  filter (λ pc : path * string, pc.1.1 = source_dir) (map_to_list f).

(** The block of [rollback_to_version] that saves the current slot 3. *)
Definition backup_v3 (model_type stamp : string) (sl : slots) : VM unit :=
  match v3 sl with
  | Some old_v3 =>
      m ← get;
      let backup_path :=
        base_models_dir m ++ [model_type; "backups"; "v3_backup_" +:+ stamp] in
      if bool_decide (is_Some (fs m !! slot_path old_v3))
      then copytree (slot_path old_v3).1 backup_path
      else mret tt
  | None => mret tt
  end.

(** [rollback_to_version(model_type, target_version)]; [now] stands for
    the readings of [datetime.now()] and [stamp] for the one formatted
    into the name of the backup directory. *)
Definition rollback_to_version (model_type target_version : string)
    (now : Z) (stamp : string) : VM unit :=
  if bool_decide (target_version ∈ ["1"; "2"]) then
    target ← get_model_path model_type target_version;
    match target with
    | None => vm_raise ValueError
    | Some target_path =>
        sl ← get_slots model_type;
        backup_v3 model_type stamp sl ;;
        m ← get;
        let v3_dir := get_model_dir m model_type "3" in
        copy_all (iterdir target_path.1 (fs m)) v3_dir ;;
        sl ← get_slots model_type;
        match slot_of target_version sl with
        | None => vm_raise (ApiError "TypeError" "")
        | Some target_info =>
            set_slots model_type
              {| v1 := v1 sl; v2 := v2 sl;
                 v3 := Some {| slot_path := (v3_dir, target_path.2);
                               created_at := created_at target_info;
                               promoted_at := None;
                               rolled_back_at := Some now;
                               created_from_v1 := false;
                               metadata := metadata target_info |} |} ;;
            append_history {| h_model_type := model_type;
                              h_action := "rollback";
                              h_timestamp := now;
                              h_version := target_version;
                              h_promoted := false |} ;;
            save_registry now
        end
    end
  else vm_raise ValueError.

Definition backup_dir (m : manager) (model_type stamp : string) : dir :=
  base_models_dir m ++ [model_type; "backups"; "v3_backup_" +:+ stamp].

(** Every registered artifact lies in the directory of its own slot. *)
Definition own_dirs (m : manager) (model_type : string) : Prop :=
  ∀ sl version info,
    models (reg m) !! model_type = Some sl →
    slot_of version sl = Some info →
    (slot_path info).1 = get_model_dir m model_type version.

(** The invariant of a manager whose models live under [b], and the
    commands that keep it whether they return or raise. *)
Definition good (b : dir) (model_type : string) (m : manager) : Prop :=
  base_models_dir m = b ∧ own_dirs m model_type.

Definition preserves {A} (b : dir) (model_type : string) (c : VM A) : Prop :=
  ∀ m, good b model_type m → good b model_type (c m).2.

(** A manager that has not registered anything yet, next to a trained
    lightgbm model with its feature list. *)
Definition empty_slots : slots := {| v1 := None; v2 := None; v3 := None |}.

Definition new_manager : manager :=
  {| base_models_dir := ["models"];
     reg := {| models := <["lightgbm" := empty_slots]>
                         (<["tst" := empty_slots]> ∅);
               last_updated := None; version_history := [] |};
     fs := <[(["out"], "lgb_model.txt") := "A"]>
           (<[(["out"], "lgb_model_features.pkl") := "features of A"]> ∅);
     saved := None |}.

(** The sample manager after two registrations and with one stale file
    in slot 3. *)
Definition rotated_manager : manager :=
  (register_new_model "lightgbm" (["out"], "model_c.txt") None 2
     (register_new_model "lightgbm" (["out"], "model_b.txt") None 1
        sample_manager).2).2.

Definition rotated_slots : slots :=
  Eval vm_compute in
    default empty_slots (models (reg rotated_manager) !! "lightgbm").

End VersionOps.

(** ** The parts of the consumer callback, by name *)

Module ConsumerWindow.
Import ControlPlane Data Consumer.

(** The rows of a message that are left after sorting and dropping what
    is not later than the cursor. *)
Definition fresh_rows (st : cstate) (batch_data : list row) : list row :=
  let df := merge_sort row_le batch_data in
  match last_processed_time st with
  | Some t => filter (λ r, t < open_time r) df
  | None => df
  end.

(** The rolling window after [df] has been appended and the window cut
    back to [seq_len] rows. *)
Definition slide (st : cstate) (df : list row) : list row :=
  let window := rolling_window st ++ df in
  if bool_decide (seq_len < length window)%nat
  then last_n seq_len window else window.

(** A consumer that has processed the thirty sample candles. *)
Definition caught_up : cstate :=
  (maybe_process all_well (Candles thirty) fresh).1.2.

End ConsumerWindow.

(** ** Asking the prediction service (consumer.py, [get_predictions]) *)

Module Predictor.

Abbreviation vector := (list Q).

Inductive pevent :=
| Posted (i attempt : nat)              (* requests.post for the batch at [i] *)
| Slept (seconds : Z).

(** [for attempt in range(max_retries)] for the batch at [i]: [post a] is
    what the body of the [try] does at attempt [a], the predictions of
    the response or the exception of the request, of [raise_for_status]
    or of the decoding. *)
Fixpoint attempt_loop (post : nat → outcome (list vector)) (i : nat)
    (max_retries : Z) (attempts : list nat)
  : outcome (list vector) * list pevent :=
  match attempts with
  | [] => (Return [], [])
  | attempt :: rest =>
      match post attempt with
      | Return predictions => (Return predictions, [Posted i attempt])
      | Raise e =>
          if is_Exception e && bool_decide (Z.of_nat attempt < max_retries - 1)
          then
            let '(r, evs) := attempt_loop post i max_retries rest in
            (r, Posted i attempt :: Slept (2 ^ Z.of_nat attempt) :: evs)
          else (Raise e, [Posted i attempt])
      end
  end.

Definition batch_size : nat := 5000.

(** [for i in range(0, len(features), batch_size)] *)
Fixpoint batch_loop (post : nat → list vector → nat → outcome (list vector))
    (max_retries : Z) (features : list vector) (starts : list nat)
  : outcome (list vector) * list pevent :=
  match starts with
  | [] => (Return [], [])
  | i :: rest =>
      let batch_features := take batch_size (drop i features) in
      match attempt_loop (post i batch_features) i max_retries
              (seq 0 (Z.to_nat max_retries)) with
      | (Raise e, evs) => (Raise e, evs)
      | (Return predictions, evs) =>
          match batch_loop post max_retries features rest with
          | (Raise e, evs') => (Raise e, evs ++ evs')
          | (Return more, evs') => (Return (predictions ++ more), evs ++ evs')
          end
      end
  end.

(** [get_predictions(features, model_name, version, max_retries=3)];
    [int] stands for Python's [int()] on the digits of the version. *)
Definition get_predictions (int : string → outcome Z)
    (post : nat → list vector → nat → outcome (list vector))
    (features : list vector) (version : string) (max_retries : Z)
  : outcome (list vector) * list pevent :=
  let version_num :=
    if String.prefix "v" version
    then int (String.substring 1 (String.length version - 1) version)
    else int version in
  match version_num with
  | Raise e => (Raise e, [])
  | Return _ =>
      batch_loop post max_retries features
        (Publisher.py_range (length features) batch_size)
  end.

(** The seconds spent sleeping, and the requests made for one batch. *)
Definition slept (evs : list pevent) : Z :=
  foldr (λ ev acc, match ev with Slept s => s + acc | _ => acc end) 0 evs.

Definition posts (i : nat) (evs : list pevent) : list nat :=
  omap (λ ev, match ev with
              | Posted j a => if bool_decide (j = i) then Some a else None
              | _ => None
              end) evs.

Definition total (f : nat → Z) (l : list nat) : Z :=
  foldr (λ i acc, f i + acc) 0 l.

(** An attempt that fails in a way the [except] clause catches. *)
Definition fails (r : outcome (list vector)) : Prop :=
  ∃ e, r = Raise e ∧ is_Exception e = true.

Definition answer (r : outcome (list vector)) : list vector :=
  match r with Return p => p | Raise _ => [] end.

(** Attempt [a] is the one that settles the batch at [i]: it is allowed,
    it gets an answer, and every attempt before it fails. *)
Definition settles (post : nat → list vector → nat → outcome (list vector))
    (max_retries : Z) (features : list vector) (i a : nat) : Prop :=
  let batch := take batch_size (drop i features) in
  Z.of_nat a < max_retries
  ∧ (∃ p, post i batch a = Return p)
  ∧ ∀ j, (j < a)%nat → fails (post i batch j).

Definition parses (int : string → outcome Z) (version : string) : Prop :=
  ∃ n, (if String.prefix "v" version
        then int (String.substring 1 (String.length version - 1) version)
        else int version) = Return n.

(** A service that is down twice and then answers, and one that stays
    down. *)
Definition unavailable : exn := ApiError "HTTPError" "503".

Definition third_time (i : nat) (batch : list vector) (a : nat)
  : outcome (list vector) :=
  if (a <? 2)%nat then Raise unavailable
  else Return ((λ _, [1 # 5; 3 # 10; 1 # 2]%Q) <$> batch).

Definition down (i : nat) (batch : list vector) (a : nat)
  : outcome (list vector) := Raise unavailable.

Definition digits (s : string) : outcome Z :=
  if bool_decide (s = "1") then Return 1
  else if bool_decide (s = "2") then Return 2
  else if bool_decide (s = "3") then Return 3
  else Raise ValueError.

End Predictor.

(** ** What holds along a run of the shutdown script *)

Module KillAllRuns.
Import ControlPlane KillAll.

(** No signal has arrived during the first [n] calls. *)
Definition unsignalled (o : nat → answer) (n : nat) : Prop :=
  ∀ k, (k < n)%nat → signalled (o k) = false.

(** While [_should_continue] is set no signal has arrived, and the state
    files have not been cleaned up yet. *)
Definition undisturbed (o : nat → answer) (st : kstate) : Prop :=
  oracle st = o
  ∧ (should_continue st = true → unsignalled o (tick st))
  ∧ DeletedAllStates ∉ log st.

(** From a state in [P], the state [c] ends in, returning or raising, is
    in [Q]. *)
Definition leads {A} (P Q : kstate → Prop) (c : KM A) : Prop :=
  ∀ st r st', P st → c st = Some (r, st') → Q st'.

Definition keeps {A} (I : kstate → Prop) (c : KM A) : Prop := leads I I c.

(** If the state files were cleaned up, it was the last call, and no
    signal had arrived before it. *)
Definition cleaned_in_peace (o : nat → answer) (st : kstate) : Prop :=
  DeletedAllStates ∈ log st → unsignalled o (tick st - 1).

(** Collaborators that raise nothing but [Exception]s, never take more
    than a minute for a call, and no signal. *)
Definition polite (o : nat → answer) : Prop :=
  ∀ k, (∀ e, checked (o k) = Raise e → is_Exception e = true)
       ∧ (∀ e, written (o k) = Raise e → is_Exception e = true)
       ∧ Z.of_N (took (o k)) ≤ 60000
       ∧ signalled (o k) = false.

Definition continuing (o : nat → answer) (st : kstate) : Prop :=
  oracle st = o ∧ should_continue st = true.

(** [c] returns from every state that satisfies [I], in a state that
    satisfies [I]. *)
Definition returns {A} (I : kstate → Prop) (c : KM A) : Prop :=
  ∀ st, I st → ∃ a st', c st = Some (Return a, st') ∧ I st'.

(** SIGTERM arrives during the third call. *)
Definition interrupted : nat → answer :=
  λ k, {| checked := Return (JStr "running"); written := Return tt;
          took := 0; signalled := (k =? 2)%nat |}.

End KillAllRuns.

(** ** Backfilling on startup (consumer.py, [historical_reconciliation]) *)

Module Reconciliation.
Import Data Consumer Predictor.

(** What the collaborators answer. *)
Record renv := {
  existing_csv : option (outcome unit);
    (* the predictions CSV, if it exists: pd.read_csv and to_datetime *)
  missing_times : outcome (list Z);
    (* crypto_db.get_missing_prediction_times(...) *)
  price_csv : option (outcome (list row));
    (* the price CSV, if it exists: pd.read_csv and to_datetime *)
  features_of : list row → outcome vector;
    (* preprocess_data(window_df, seq_len)[0].tolist() *)
  predictions_for : nat → list vector → outcome (list vector);
    (* get_predictions(windows, model, version) for the batch at i *)
  upsert : list Z → list vector → list row → outcome unit;
    (* crypto_db.upsert_predictions(...) *)
  append_csv : list Z → list vector → outcome unit
    (* pred_df.to_csv(...) *)
}.

Inductive revent :=
| Upsert (times : list Z) (predictions : list vector) (original_df : list row)
| CsvAppend (times : list Z) (predictions : list vector)
| Logged.

Definition batch_size : nat := 1000.

Definition IndexError : exn := ApiError "IndexError" "".

(** [for j in range(seq_len - 1, len(batch_df))]; the window is
    [batch_df.iloc[j - seq_len + 1:j + 1]], whose start is not negative
    since [j] is at least [seq_len - 1]: it is written [j + 1 - seq_len]
    here, on natural numbers. *)
Fixpoint windows_loop (env : renv) (batch_df : list row) (js : list nat)
  : outcome (list vector * list Z) :=
  match js with
  | [] => Return ([], [])
  | j :: rest =>
      let start := (j + 1 - seq_len)%nat in
      let window_df := take (j + 1 - start) (drop start batch_df) in
      match features_of env window_df with
      | Raise e => Raise e
      | Return features =>
          match batch_df !! j with
          | None => Raise IndexError
          | Some r =>
              match windows_loop env batch_df rest with
              | Raise e => Raise e
              | Return (windows, window_times) =>
                  Return (features :: windows, open_time r :: window_times)
              end
          end
      end
  end.

(** [for i in range(0, len(missing_df), batch_size)]: the result is
    [all_predictions] and [all_times]. *)
Fixpoint batches_loop (env : renv) (missing_df : list row) (starts : list nat)
  : outcome (list vector * list Z) * list revent :=
  match starts with
  | [] => (Return ([], []), [])
  | i :: rest =>
      let batch_df := take batch_size (drop i missing_df) in
      match windows_loop env batch_df
              (seq (seq_len - 1) (length batch_df - (seq_len - 1))) with
      | Raise e => (Raise e, [])
      | Return (windows, window_times) =>
          let go predictions times evs :=
            match batches_loop env missing_df rest with
            | (Raise e, evs') => (Raise e, evs ++ evs')
            | (Return (all_predictions, all_times), evs') =>
                (Return (predictions ++ all_predictions, times ++ all_times),
                 evs ++ evs')
            end in
          if bool_decide (windows = []) then go [] [] []
          else
            match predictions_for env i windows with
            | Return predictions => go predictions window_times []
            | Raise e =>
                if is_Exception e then go [] [] [Logged] else (Raise e, [])
            end
      end
  end.

(** [try: c except Exception: logger.error(...)] for a step that is an
    outcome already. *)
Definition attempt (r : outcome unit) (ev : revent)
  : outcome unit * list revent :=
  match r with
  | Return _ => (Return tt, [ev])
  | Raise e => if is_Exception e then (Return tt, [Logged]) else (Raise e, [])
  end.

(** <<missing_df[["open_time", "open", "high", "low", "close", "volume"]]>> *)
Definition six_columns (r : row) : row :=
  {| open_time := open_time r; open_ := open_ r; high := high r;
     low := low r; close := close r; volume := volume r; extra := ∅ |}.

(** The rows of the price file at the missing times, oldest first. *)
Definition missing_rows (times : list Z) (price_df : list row) : list row :=
  merge_sort row_le (filter (λ r, open_time r ∈ times) price_df).

(** [historical_reconciliation(crypto, model, version)] *)
Definition historical_reconciliation (env : renv)
  : outcome unit * list revent :=
  match match existing_csv env with
        | Some (Raise e) => if is_Exception e then None else Some e
        | _ => None
        end with
  | Some e => (Raise e, [])
  | None =>
      match missing_times env with
      | Raise e => (Raise e, [])
      | Return [] => (Return tt, [])
      | Return times =>
          match price_csv env with
          | None => (Return tt, [Logged])
          | Some (Raise e) =>
              if is_Exception e then (Return tt, [Logged]) else (Raise e, [])
          | Some (Return price_df) =>
              let missing_df := missing_rows times price_df in
              if bool_decide (missing_df = []) then (Return tt, [])
              else
                match batches_loop env missing_df
                        (Publisher.py_range (length missing_df) batch_size) with
                | (Raise e, evs) => (Raise e, evs)
                | (Return (all_predictions, all_times), evs) =>
                    if bool_decide (all_predictions = [])
                    then (Return tt, evs ++ [Logged])
                    else
                      let original_df := six_columns <$> missing_df in
                      match attempt (upsert env all_times all_predictions
                                       original_df)
                              (Upsert all_times all_predictions original_df)
                      with
                      | (Raise e, evs1) => (Raise e, evs ++ evs1)
                      | (Return _, evs1) =>
                          match attempt (append_csv env all_times
                                           all_predictions)
                                  (CsvAppend all_times all_predictions) with
                          | (r, evs2) => (r, evs ++ evs1 ++ evs2)
                          end
                      end
                end
          end
      end
  end.

(** The timestamps that can get a prediction: those of the rows that
    have [seq_len - 1] rows before them in their batch. *)
Definition reachable (missing_df : list row) (t : Z) : Prop :=
  ∃ j r, missing_df !! j = Some r ∧ open_time r = t
         ∧ (seq_len - 1 ≤ j mod batch_size)%nat.

(** A service that answers every window, over [n] missing candles. *)
Definition backfill (n : nat) : renv :=
  {| existing_csv := None;
     missing_times := Return (open_time <$> Publisher.sample_frame n);
     price_csv := Some (Return (Publisher.sample_frame n));
     features_of := λ _, Return [1%Q];
     predictions_for := λ _ ws, Return ((λ _, [1 # 5; 3 # 10; 1 # 2]%Q) <$> ws);
     upsert := λ _ _ _, Return tt;
     append_csv := λ _ _, Return tt |}.

End Reconciliation.

(** ** What the bulk update leaves in a collection *)

Module BulkUpdate.
Import Data Firestore CryptoDB.

(** The prediction of one timestamp, written into its document if there
    is one. *)
Definition upd (col : string) (c : collection) (item : Z * list Q)
  : collection :=
  match c !! item.1 with
  | Some old => <[item.1 := pred_field col item.2 ∪ old]> c
  | None => c
  end.

Definition updated (col : string) (c : collection) (items : list (Z * list Q))
  : collection :=
  foldl (upd col) c items.

(** The items that [bulk_update_predictions] works through. *)
Definition update_items (c : collection) (pred_df : list (Z * list Q))
  : list (Z * list Q) :=
  match earliest_time c with
  | None => []
  | Some first_time_in_db =>
      py_dict (filter (λ p, first_time_in_db ≤ p.1) pred_df)
  end.

(** The 2024 candle of the sample store with predictions of another
    model version, and predictions for a time that has a candle and for
    one that has none. *)
Definition scored : gmap string collection :=
  <["btcusdt" :=
      <[t2024 := <["tst_v1" := VVec [1%Q]]> (doc_data (candle t2024 42000))]>
      (<[0 := doc_data (candle 0 1)]> ∅)]> ∅.

Definition two_predictions : list (Z * list Q) :=
  [(t2024, sample_pred); (t2024 + minute, sample_pred)].

End BulkUpdate.

(** ** Job files: written by consumer_start.py, picked up by
       job_handler.py *)

Module JobFiles.
Import ControlPlane StateFiles VersionOps.

(** *** The string functions the two scripts use *)

Definition nl : ascii := "010"%char.
Definition slash : ascii := "/"%char.
Definition underscore : ascii := "_"%char.

(** The characters that [str.strip()] takes away, among the first 256. *)
Definition is_space (c : ascii) : bool :=
  let n := nat_of_ascii c in
  ((9 <=? n) && (n <=? 13) || (28 <=? n) && (n <=? 32)
   || (n =? 133) || (n =? 160))%nat.

Fixpoint lstrip (s : string) : string :=
  match s with
  | EmptyString => EmptyString
  | String c r => if is_space c then lstrip r else s
  end.

Definition rstrip (s : string) : string := String.rev (lstrip (String.rev s)).

Definition strip (s : string) : string := rstrip (lstrip s).

(** [s.split(sep)] for a separator of one character. *)
Fixpoint split (sep : ascii) (s : string) : list string :=
  match s with
  | EmptyString => [EmptyString]
  | String c r =>
      if bool_decide (c = sep) then EmptyString :: split sep r
      else match split sep r with
           | h :: t => String c h :: t
           | [] => [String c EmptyString]
           end
  end.

(** [sep.join(l)] *)
Fixpoint join (sep : string) (l : list string) : string :=
  match l with
  | [] => EmptyString
  | [x] => x
  | x :: rest => x +:+ sep +:+ join sep rest
  end.

Fixpoint has_char (c : ascii) (s : string) : bool :=
  match s with
  | EmptyString => false
  | String a r => bool_decide (a = c) || has_char c r
  end.

(** [os.path.basename(p)]: what follows the last slash. *)
Fixpoint basename (p : string) : string :=
  match p with
  | EmptyString => EmptyString
  | String c r =>
      if has_char slash r then basename r
      else if bool_decide (c = slash) then r else p
  end.

(** [os.path.join(a, b)] *)
Definition path_join (a b : string) : string :=
  if String.prefix "/" b then b
  else if bool_decide (a = "") || ends_with "/" a then a +:+ b
  else a +:+ "/" +:+ b.

(** *** consumer_start.py *)

Inductive process_type := Producer | Consumer.

Definition job_filename (crypto model version : string) (pt : process_type)
  : string :=
  match pt with
  | Producer => "ALL_producer_main.sh"
  | Consumer => crypto +:+ "_" +:+ model +:+ "_" +:+ version +:+ ".sh"
  end.

Definition job_command (crypto model version : string) (pt : process_type)
  : string :=
  match pt with
  | Producer =>
      "#!/bin/bash" +:+ String nl
      ("export PYTHONPATH=..:$PYTHONPATH" +:+ String nl
      ("python -m utils.producer_consumer.producer --symbol " +:+ crypto
       +:+ String nl ""))
  | Consumer =>
      "#!/bin/bash" +:+ String nl
      ("export PYTHONPATH=..:$PYTHONPATH" +:+ String nl
      ("python -m utils.producer_consumer.consumer --crypto " +:+ crypto
       +:+ " --model " +:+ model +:+ " --version " +:+ version
       +:+ String nl ""))
  end.

(** [create_job_file(crypto, model, version, process_type)]: the jobs
    directory is a map from path to content. *)
Definition create_job_file (jobs_dir : string)
    (crypto model version : string) (pt : process_type)
    (jobs : gmap string string) : gmap string string :=
  <[path_join jobs_dir (job_filename crypto model version pt)
    := job_command crypto model version pt]> jobs.

(** *** job_handler.py *)

Inductive hevent :=
| Launching (pt : process_type) (crypto model version : option string)
| Spawned (command : string)
| RemovedJob (path : string)
| Warned
| Errored.

Record hstate := {
  jobs : gmap string string;            (* the job files, by path *)
  states : gmap string file;            (* the state directory *)
  processes : gmap string string;       (* self.processes: key -> command *)
  hlog : list hevent
}.

Definition note (ev : hevent) (hs : hstate) : hstate :=
  {| jobs := jobs hs; states := states hs; processes := processes hs;
     hlog := hlog hs ++ [ev] |}.

(** [f"{x}"] for an argument that may be [None]. *)
Definition fmt (x : option string) : string := default "None" x.

(** The truth value of an argument that may be [None]. *)
Definition truthy (x : option string) : bool :=
  match x with
  | Some s => negb (bool_decide (s = ""))
  | None => false
  end.

(** The command of a job file: the content without the white space
    around it and without the line of the shebang. *)
Definition command_of (content : string) : string :=
  let command := strip content in
  if String.prefix "#!/bin/bash" command
  then strip (join (String nl "") (tail (split nl command)))
  else command.

(** [subprocess.Popen(command, shell=True, ...)] and the entry in
    [self.processes]; [spawn] says whether the call raises. *)
Definition popen (spawn : string → outcome unit) (key command : string)
    (hs : hstate) : outcome unit * hstate :=
  match spawn command with
  | Return _ =>
      (Return tt,
       {| jobs := jobs hs; states := states hs;
          processes := <[key := command]> (processes hs);
          hlog := hlog hs ++ [Spawned command] |})
  | Raise e => (Raise e, hs)
  end.

(** [launch_process(job_file, process_type, crypto, model, version)] *)
Definition launch_process (spawn : string → outcome unit) (stuck : gset string)
    (job_file : string) (crypto model version : option string)
    (hs : hstate) : outcome unit * hstate :=
  let body : outcome unit * hstate :=
    match jobs hs !! job_file with
    | None => (Raise FileNotFoundError, hs)
    | Some content =>
        let command := command_of content in
        if contains "producer" command then popen spawn "producer" command hs
        else if contains "consumer" command then
          let hs :=
            if truthy crypto && truthy model && truthy version
            then {| jobs := jobs hs;
                    states := delete_state stuck (fmt crypto) (fmt model)
                                (fmt version) (states hs);
                    processes := processes hs; hlog := hlog hs |}
            else hs in
          let process_key :=
            if truthy crypto
            then fmt crypto +:+ "_" +:+ fmt model +:+ "_" +:+ fmt version
            else "consumer" in
          popen spawn process_key command hs
        else (Return tt, note Warned hs)
    end in
  match body with
  | (Raise e, hs') =>
      if is_Exception e then (Return tt, note Errored hs') else (Raise e, hs')
  | r => r
  end.

(** The file name of a job, taken apart: [None] when it has fewer than
    three parts, [Some None] for the producer. *)
Definition parse_job (src_path : string)
  : option (option (string * string * string)) :=
  let filename := basename src_path in
  let parts := split underscore (str_replace ".sh" "" filename) in
  match parts with
  | p0 :: p1 :: p2 :: _ =>
      if bool_decide (p0 = "ALL") && bool_decide (p1 = "producer")
      then Some None
      else Some (Some (p0, p1, p2))
  | _ => None
  end.

(** [on_created(event)] *)
Definition on_created (spawn : string → outcome unit) (stuck : gset string)
    (src_path : string) (is_directory : bool) (hs : hstate)
  : outcome unit * hstate :=
  if is_directory then (Return tt, hs)
  else if negb (ends_with ".sh" src_path) then (Return tt, hs)
  else
    match parse_job src_path with
    | None => (Return tt, note Warned hs)
    | Some job =>
        let launched :=
          match job with
          | None =>
              launch_process spawn stuck src_path None None None
                (note (Launching Producer None None None) hs)
          | Some (crypto, model, version) =>
              launch_process spawn stuck src_path
                (Some crypto) (Some model) (Some version)
                (note (Launching Consumer (Some crypto) (Some model)
                         (Some version)) hs)
          end in
        match launched with
        | (Raise e, hs') => (Raise e, hs')
        | (Return _, hs') =>
            match jobs hs' !! src_path with
            | Some _ =>
                (Return tt,
                 note (RemovedJob src_path)
                   {| jobs := delete src_path (jobs hs'); states := states hs';
                      processes := processes hs'; hlog := hlog hs' |})
            | None => (Return tt, note Errored hs')
            end
        end
    end.

(** A string whose first character is not white space. *)
Definition solid (s : string) : bool :=
  match s with
  | EmptyString => false
  | String c _ => negb (is_space c)
  end.

(** A name that can go into a job file name and come out again. *)
Definition plain (s : string) : Prop :=
  has_char underscore s = false ∧ has_char "."%char s = false
  ∧ has_char slash s = false.

Definition idle : hstate :=
  {| jobs := ∅; states := ∅; processes := ∅; hlog := [] |}.

Definition spawn_ok : string → outcome unit := λ _, Return tt.

End JobFiles.

(** * Properties *)

(** ** Control plane *)

Module ControlPlaneFacts.
Import ControlPlane.

Lemma state_data_error_msg c m v s e :
  state_data c m v s e !! "error_msg" = Some (JStr e).
Proof. unfold state_data. by simplify_map_eq. Qed.

Lemma state_data_state c m v s e :
  state_data c m v s e !! "state" = Some (JStr s).
Proof. unfold state_data. by simplify_map_eq. Qed.

(** C2, as the code has it: [state_write] replaces the entity's whole
    record by the five fields of the call, an error message that is not
    passed becoming the empty string, and leaves every other file of the
    state directory alone. *)
Theorem state_write_overwrites (fs : gmap string file) c m v s e :
  state_write c m v s e fs !! filename c m v
    = Some (Parsed (JObject (state_data c m v s (default "" e))))
  ∧ state_data c m v s (default "" e) !! "error_msg"
      = Some (JStr (default "" e))
  ∧ ∀ f, f ≠ filename c m v → state_write c m v s e fs !! f = fs !! f.
Proof.
  unfold state_write. split; [by rewrite lookup_insert_eq|].
  split; [apply state_data_error_msg|].
  intros f Hf. by rewrite lookup_insert_ne.
Qed.

(** C2, counterexample: after an error has been recorded, a plain
    [state_write(..., "running")] wipes the stored message. *)
Lemma state_write_not_merge_preserving : ¬ merge_preserving.
Proof.
  intros H.
  destruct (H (state_write "BTCUSDT" "lightgbm" "v1" "error" (Some "boom") ∅)
              "BTCUSDT" "lightgbm" "v1" "running"
              (state_data "BTCUSDT" "lightgbm" "v1" "error" "boom")
              (JStr "boom")) as (new & Hnew & Hmsg).
  - unfold state_write. by rewrite lookup_insert_eq.
  - apply state_data_error_msg.
  - unfold state_write in Hnew. rewrite lookup_insert_eq in Hnew.
    injection Hnew as <-. rewrite state_data_error_msg in Hmsg.
    discriminate.
Qed.

(** *** state_checker always comes back *)

Lemma wait_for_file_fuel w timeout fuel k elapsed :
  timeout * 1000 < elapsed + 1000 * Z.of_nat fuel →
  is_Some (wait_for_file (S fuel) w timeout k elapsed).
Proof.
  revert k elapsed. induction fuel as [|fuel IH]; intros k elapsed Hlt.
  - simpl. destruct (obs w k); [by eexists|].
    destruct (Z.ltb_spec (timeout * 1000) elapsed); [by eexists | lia].
  - cbn [wait_for_file]. destruct (obs w k); [by eexists|].
    destruct (timeout * 1000 <? elapsed); [by eexists|].
    apply IH. lia.
Qed.

Lemma wait_for_file_found w timeout fuel k elapsed f :
  wait_for_file fuel w timeout k elapsed = Some (Some f) →
  ∃ j, obs w j = Some f.
Proof.
  revert k elapsed. induction fuel as [|fuel IH]; intros k elapsed; [done|].
  simpl. destruct (obs w k) eqn:Hk.
  - intros [= ->]. eauto.
  - destruct (timeout * 1000 <? elapsed); [done | apply IH].
Qed.

Lemma wait_for_file_absent w timeout fuel k elapsed r :
  (∀ j, obs w j = None) →
  wait_for_file fuel w timeout k elapsed = Some r → r = None.
Proof.
  intros Habs. revert k elapsed.
  induction fuel as [|fuel IH]; intros k elapsed; [done|].
  simpl. rewrite Habs.
  destruct (timeout * 1000 <? elapsed); [congruence | apply IH].
Qed.

Lemma state_checker_terminates w timeout :
  is_Some (wait_for_file (Z.to_nat timeout + 2) w timeout 0 0).
Proof.
  replace (Z.to_nat timeout + 2)%nat with (S (Z.to_nat timeout + 1)) by lia.
  apply wait_for_file_fuel. lia.
Qed.








End ControlPlaneFacts.

(** ** Producer *)

Module ProducerFacts.
Import ControlPlane Data Producer.









(** A failed persist is logged, re-raised, and then caught by the
    [except Exception] of the fetch block: ten seconds of sleep, and the
    next turn of the loop. *)
Ltac mem_inv H :=
  repeat match type of H with
    | _ ∈ _ :: _ => apply elem_of_cons in H as [H|H]; [try discriminate|]
    | _ ∈ _ ++ _ => apply elem_of_app in H as [H|H]
    | _ ∈ [] => by apply elem_of_nil in H
    end.

Lemma persist_failed_in_fetch env last_time e :
  PersistFailed ∈ (fetch_persist_publish env last_time).2 →
  persist env = Raise e →
  ∃ evs, fetch_persist_publish env last_time = (Raise e, evs).
Proof.
  unfold fetch_persist_publish. intros Hin Hpe.
  destruct (fetched env) as [df|e1]; [|simpl in Hin; mem_inv Hin].
  case_bool_decide; [simpl in Hin; mem_inv Hin|].
  case_bool_decide; [simpl in Hin; mem_inv Hin|].
  rewrite Hpe. by eexists.
Qed.

Lemma persist_failure_continues env last_time e :
  PersistFailed ∈ (cycle env last_time).2 →
  persist env = Raise e → is_Exception e = true →
  ∃ evs, cycle env last_time = (Continue, last_time, evs ++ [Sleep 10000]).
Proof.
  unfold cycle. intros Hin Hpe He.
  assert (Hout : ∀ e0 evs,
            PersistFailed ∈ (outer_handlers env e0 last_time evs).2 →
            PersistFailed ∈ evs).
  { intros e0 evs. destruct e0; simpl;
      try destruct (written_on_interrupt env); simpl;
      intros Hmem; by mem_inv Hmem. }
  destruct (polled env) as [state|e0]; [|apply Hout in Hin; mem_inv Hin].
  case_bool_decide.
  { destruct (written env); [simpl in Hin | apply Hout in Hin]; mem_inv Hin. }
  case_bool_decide; [simpl in Hin; mem_inv Hin|].
  destruct (_ && _); [simpl in Hin; mem_inv Hin|].
  assert (Hpre : ∀ pre r evs,
            (∀ ev, ev ∈ pre → ev = StateWrite "running") →
            PersistFailed
              ∈ (match r with
                 | Return lt => (Continue, lt, pre ++ evs)
                 | Raise e1 =>
                     if is_Exception e1
                     then (Continue, last_time, pre ++ evs ++ [Sleep 10000])
                     else outer_handlers env e1 last_time (pre ++ evs)
                 end).2 →
            PersistFailed ∈ evs).
  { intros pre r evs Hp Hmem. destruct r as [lt|e1]; simpl in Hmem.
    - mem_inv Hmem; [by apply Hp in Hmem | done].
    - destruct (is_Exception e1); [simpl in Hmem | apply Hout in Hmem];
        mem_inv Hmem; try done; by apply Hp in Hmem. }
  destruct (match (if bool_decide (state = JStr "start")
                   then match written env with
                        | Return _ => Return [StateWrite "running"]
                        | Raise e1 => Raise e1
                        end
                   else Return [])
            with Return pre => Some pre | Raise _ => None end) as [pre|]
    eqn:Hstarted.
  - assert (Hp : ∀ ev, ev ∈ pre → ev = StateWrite "running").
    { revert Hstarted. case_bool_decide; [destruct (written env)|];
        intros [= <-] ev Hev; by mem_inv Hev. }
    revert Hstarted Hin.
    destruct (if bool_decide (state = JStr "start") then _ else _)
      as [pre'|e1]; [|done].
    intros [= ->] Hin.
    destruct (fetch_persist_publish env last_time) as [r evs0] eqn:Hf.
    assert (Hfetch : PersistFailed ∈ (fetch_persist_publish env last_time).2).
    { rewrite Hf. exact (Hpre pre r evs0 Hp Hin). }
    destruct (persist_failed_in_fetch _ _ _ Hfetch Hpe) as [evs Hfp].
    rewrite Hfp in Hf. injection Hf as <- <-. rewrite He.
    exists (pre ++ evs). by rewrite <- app_assoc.
  - revert Hstarted Hin.
    destruct (if bool_decide (state = JStr "start") then _ else _)
      as [pre'|e1]; [done|].
    intros _ Hin. apply Hout in Hin. mem_inv Hin.
Qed.

(** C1, at the failing input: the store refuses every write, and the
    producer is still polling, however many turns one looks at. *)
Theorem producer_survives_persist_failure :
  cycle (store_down "running") None
    = (Continue, None, [Download None; PersistFailed; Sleep 10000])
  ∧ ∀ n, (main_loop (replicate n (store_down "running")) None).1
         = Polling None.
Proof.
  split; [reflexivity|].
  induction n as [|n IH]; [reflexivity|].
  cbn [replicate main_loop].
  change (cycle (store_down "running") None)
    with (Continue, (None : option Z),
          [Download None; PersistFailed; Sleep 10000]).
  cbv iota beta.
  destruct (main_loop (replicate n (store_down "running")) None) as [st evs].
  exact IH.
Qed.

Lemma persist_failure_not_fatal : ¬ persist_failure_is_fatal.
Proof.
  intros H.
  destruct (H (store_down "running") None []) as (code & Hne & Hex).
  - vm_compute. set_solver.
  - vm_compute in Hex. discriminate.
Qed.

End ProducerFacts.

(** ** Document store: retention, chunking, upsert *)

Module CryptoDBFacts.
Import Data Firestore CryptoDB.

Lemma lookup_deletes (c : collection) ids k :
  deletes c ids !! k = if bool_decide (k ∈ ids) then None else c !! k.
Proof.
  revert c. induction ids as [|id ids IH]; intros c.
  - case_bool_decide as H; [by apply elem_of_nil in H | done].
  - change (deletes c (id :: ids)) with (deletes (delete id c) ids).
    rewrite IH. destruct (decide (k = id)) as [->|Hne].
    + rewrite lookup_delete_eq.
      rewrite (bool_decide_eq_true_2 (id ∈ id :: ids)) by left.
      by case_bool_decide.
    + rewrite lookup_delete_ne by done.
      rewrite (bool_decide_ext (k ∈ id :: ids) (k ∈ ids)); [done|].
      rewrite elem_of_cons. split; [intros [?|?]; done | by right].
Qed.

Lemma apply_batch_deletes (c : collection) ids :
  apply_batch c (WDelete <$> ids) = Some (deletes c ids).
Proof. revert c. induction ids as [|id ids IH]; intros c; simpl; auto. Qed.

Lemma deletes_app (c : collection) ids1 ids2 :
  deletes c (ids1 ++ ids2) = deletes (deletes c ids1) ids2.
Proof. apply foldl_app. Qed.

(** A commit that returns has applied its batch. *)
Lemma commit_returns name ws w w' :
  commit name ws w = (Return tt, w') →
  ∃ c', apply_batch (coll_of w name) ws = Some c'
        ∧ store w' = <[name := c']> (store w)
        ∧ faults w' = tail (faults w)
        ∧ log w' = log w ++ [Committed name ws].
Proof.
  unfold commit. destruct (head (faults w)) as [[e|]|];
    try (intros [=]; fail);
    (destruct (apply_batch (coll_of w name) ws) as [c'|];
     [|intros [=]; fail]); intros [= <-]; by exists c'.
Qed.

(** With no fault pending, a batch that applies is committed. *)
Lemma commit_quiet name ws w c' :
  faults w = [] → apply_batch (coll_of w name) ws = Some c' →
  commit name ws w
  = (Return tt, {| store := <[name := c']> (store w); faults := [];
                   log := log w ++ [Committed name ws] |}).
Proof. intros Hf Hc. unfold commit. by rewrite Hf, Hc. Qed.

Lemma coll_of_insert (st : gmap string collection) f l name c :
  coll_of {| store := <[name := c]> st; faults := f; log := l |} name = c.
Proof. unfold coll_of. simpl. by rewrite lookup_insert_eq. Qed.

(** What a completed deleting loop leaves: the documents of the open
    batch and of the remaining ids are gone, the rest is as before. *)
Lemma delete_loop_returns name ids bids w w' :
  delete_loop name ids (WDelete <$> bids) w = (Return tt, w') →
  coll_of w' name = deletes (coll_of w name) (bids ++ ids)
  ∧ (bids ++ ids = [] → store w' = store w)
  ∧ (∀ other, other ≠ name → store w' !! other = store w !! other).
Proof.
  revert bids w. induction ids as [|id ids IH]; intros bids w; simpl.
  - rewrite app_nil_r. case_bool_decide as Hlen.
    + intros (c' & Hc' & Hst & _ & _)%commit_returns.
      rewrite apply_batch_deletes in Hc'. injection Hc' as <-.
      unfold coll_of at 1. rewrite Hst, lookup_insert_eq. simpl.
      split; [done|]. split.
      * intros ->. simpl in Hlen. lia.
      * intros other Hne. by rewrite lookup_insert_ne.
    + intros [= <-]. rewrite length_fmap in Hlen.
      destruct bids; [|simpl in Hlen; lia]. done.
  - replace ((WDelete <$> bids) ++ [WDelete id])
      with (WDelete <$> (bids ++ [id])) by (by rewrite fmap_app).
    case_bool_decide.
    + unfold mbind, M_bind at 1.
      destruct (commit name (WDelete <$> bids ++ [id]) w) as [[[]|e] w1] eqn:Hc;
        [|intros [=]].
      apply commit_returns in Hc as (c' & Hc' & Hst & _ & _).
      rewrite apply_batch_deletes in Hc'. injection Hc' as <-.
      intros Hrest. apply (IH []) in Hrest as (Hcoll & _ & Hoth).
      simpl in Hcoll. split; [|split].
      * rewrite Hcoll. unfold coll_of at 1. rewrite Hst, lookup_insert_eq.
        simpl. rewrite <- deletes_app. by rewrite <- app_assoc.
      * intros Hnil. by destruct bids.
      * intros other Hne. rewrite Hoth, Hst by done.
        by rewrite lookup_insert_ne.
    + intros Hrest. apply IH in Hrest as (Hcoll & _ & Hoth).
      rewrite <- app_assoc in Hcoll. split; [done|]. split; [|done].
      intros Hnil. by destruct bids.
Qed.

Lemma write_chunks_app l1 l2 :
  write_chunks (l1 ++ l2) = write_chunks l1 ++ write_chunks l2.
Proof. apply omap_app. Qed.

Lemma write_chunks_deletes name ids :
  write_chunks [Committed name (WDelete <$> ids)] = [].
Proof. by destruct ids. Qed.

(** With no fault pending the deleting loop completes, and it commits no
    [set] batch. *)
Lemma delete_loop_quiet name ids bids w :
  faults w = [] →
  ∃ w', delete_loop name ids (WDelete <$> bids) w = (Return tt, w')
        ∧ faults w' = []
        ∧ write_chunks (log w') = write_chunks (log w).
Proof.
  revert bids w. induction ids as [|id ids IH]; intros bids w Hf; simpl.
  - case_bool_decide.
    + rewrite (commit_quiet _ _ _ _ Hf (apply_batch_deletes _ _)).
      eexists. split; [done|]. split; [done|]. simpl.
      by rewrite write_chunks_app, write_chunks_deletes, app_nil_r.
    + by eexists.
  - replace ((WDelete <$> bids) ++ [WDelete id])
      with (WDelete <$> (bids ++ [id])) by (by rewrite fmap_app).
    case_bool_decide; [|by apply IH].
    unfold mbind, M_bind at 1.
    rewrite (commit_quiet _ _ _ _ Hf (apply_batch_deletes _ _)).
    destruct (IH [] {| store := <[name := deletes (coll_of w name) (bids ++ [id])]> (store w);
                       faults := [];
                       log := log w ++ [Committed name (WDelete <$> bids ++ [id])] |}
                eq_refl) as (w' & Hrun & Hf' & Hlog).
    exists w'. split; [exact Hrun|]. split; [done|].
    rewrite Hlog. simpl.
    by rewrite write_chunks_app, write_chunks_deletes, app_nil_r.
Qed.

(** *** The latest timestamp and the documents that are too old *)

Lemma max_list_spec t ts :
  foldr Z.max t ts ∈ t :: ts ∧ ∀ x, x ∈ t :: ts → x ≤ foldr Z.max t ts.
Proof.
  induction ts as [|u ts [IHin IHle]]; simpl.
  - split; [left|]. intros x Hx. apply list_elem_of_singleton in Hx. lia.
  - split.
    + destruct (Z.max_spec u (foldr Z.max t ts)) as [[_ ->]|[_ ->]].
      * apply elem_of_cons in IHin as [->|Hin]; [left|].
        right. by right.
      * right. left.
    + intros x Hx. apply elem_of_cons in Hx as [->|Hx].
      * specialize (IHle t (ltac:(left))). lia.
      * apply elem_of_cons in Hx as [->|Hx]; [lia|].
        specialize (IHle x (ltac:(by right))). lia.
Qed.

Lemma elem_of_times (c : collection) t :
  t ∈ omap (λ kd : Z * doc, doc_time kd.2) (map_to_list c)
  ↔ ∃ id d, c !! id = Some d ∧ doc_time d = Some t.
Proof.
  rewrite list_elem_of_omap. split.
  - intros ([id d] & Hin & Ht). apply elem_of_map_to_list in Hin. eauto.
  - intros (id & d & Hc & Ht). exists (id, d).
    split; [by apply elem_of_map_to_list | done].
Qed.

Lemma latest_time_Some (c : collection) m :
  latest_time c = Some m ↔
  (∃ id d, c !! id = Some d ∧ doc_time d = Some m)
  ∧ (∀ id d t, c !! id = Some d → doc_time d = Some t → t ≤ m).
Proof.
  unfold latest_time. split.
  - destruct (omap _ (map_to_list c)) as [|t ts] eqn:Hts; [done|].
    intros [= <-]. destruct (max_list_spec t ts) as [Hin Hle].
    rewrite <- Hts in Hin, Hle. split.
    + by apply elem_of_times.
    + intros id d u Hc Hu. apply Hle, elem_of_times. eauto.
  - intros [Hex Hle]. apply elem_of_times in Hex.
    destruct (omap _ (map_to_list c)) as [|t ts] eqn:Hts.
    { by apply elem_of_nil in Hex. }
    f_equal. destruct (max_list_spec t ts) as [Hin Hmax].
    rewrite <- Hts in Hin, Hmax.
    apply elem_of_times in Hin as (id & d & Hc & Hd).
    specialize (Hle _ _ _ Hc Hd). rewrite Hts in Hmax.
    specialize (Hmax _ Hex). lia.
Qed.

Lemma latest_time_None (c : collection) id d :
  latest_time c = None → c !! id = Some d → doc_time d = None.
Proof.
  unfold latest_time. intros Hn Hc.
  destruct (doc_time d) as [t|] eqn:Ht; [|done].
  assert (Hin : t ∈ omap (λ kd : Z * doc, doc_time kd.2) (map_to_list c))
    by (apply elem_of_times; eauto).
  destruct (omap _ (map_to_list c)); [by apply elem_of_nil in Hin | done].
Qed.

Lemma elem_of_older_than cutoff (c : collection) id :
  id ∈ older_than cutoff c
  ↔ ∃ d t, c !! id = Some d ∧ doc_time d = Some t ∧ t < cutoff.
Proof.
  unfold older_than. rewrite list_elem_of_omap. split.
  - intros ([id' d] & Hin & Hsel). apply elem_of_map_to_list in Hin.
    simpl in Hsel. destruct (doc_time d) as [t|] eqn:Ht; [|done].
    destruct (Z.ltb_spec t cutoff); [|done].
    injection Hsel as ->. eauto.
  - intros (d & t & Hc & Ht & Hlt). exists (id, d).
    split; [by apply elem_of_map_to_list|]. simpl. rewrite Ht.
    by destruct (Z.ltb_spec t cutoff); [|lia].
Qed.

(** A document is in the trimmed collection exactly when it was there
    before and its time, if it has one, is within the retention window. *)
Lemma lookup_trimmed (c : collection) id d :
  trimmed c !! id = Some d ↔
  c !! id = Some d
  ∧ ∀ m t, latest_time c = Some m → doc_time d = Some t → m - RETENTION ≤ t.
Proof.
  unfold trimmed. destruct (latest_time c) as [m|] eqn:Hm.
  - rewrite lookup_deletes. case_bool_decide as Hold.
    + apply elem_of_older_than in Hold as (d' & t & Hc & Ht & Hlt).
      split; [done|]. intros [Hc' Hwin]. rewrite Hc in Hc'.
      injection Hc' as ->. specialize (Hwin m t eq_refl Ht). lia.
    + split; [|by intros [? _]]. intros Hc. split; [done|].
      intros m' t [= <-] Ht.
      destruct (Z.le_gt_cases (m - RETENTION) t); [done|].
      exfalso. apply Hold, elem_of_older_than.
      exists d, t. repeat split; [done..|lia].
  - split; [|by intros [? _]]. intros Hc. split; [done|]. by intros ? ? [=].
Qed.

Lemma RETENTION_pos : 0 < RETENTION.
Proof. reflexivity. Qed.

(** Trimming keeps the latest document, so the latest timestamp stays. *)
Lemma latest_time_trimmed (c : collection) :
  latest_time (trimmed c) = latest_time c.
Proof.
  destruct (latest_time c) as [m|] eqn:Hm.
  - apply latest_time_Some. pose proof Hm as Hm'.
    apply latest_time_Some in Hm' as [(id & d & Hc & Hd) Hle].
    split.
    + exists id, d. split; [|done]. apply lookup_trimmed. split; [done|].
      intros m' t Hm'. rewrite Hm in Hm'. injection Hm' as <-.
      rewrite Hd. intros [= <-]. pose proof RETENTION_pos. lia.
    + intros id' d' t [Hc' _]%lookup_trimmed Ht. eauto.
  - unfold trimmed. by rewrite Hm.
Qed.

Lemma trimmed_idemp (c : collection) : trimmed (trimmed c) = trimmed c.
Proof.
  apply map_eq. intros id. apply option_eq. intros d.
  rewrite !lookup_trimmed, latest_time_trimmed. tauto.
Qed.

Lemma older_than_trimmed (c : collection) m :
  latest_time c = Some m → older_than (m - RETENTION) (trimmed c) = [].
Proof.
  intros Hm. destruct (older_than _ _) as [|id ids] eqn:Hold; [done|].
  assert (Hin : id ∈ older_than (m - RETENTION) (trimmed c))
    by (rewrite Hold; left).
  apply elem_of_older_than in Hin as (d & t & Hc & Ht & Hlt).
  apply lookup_trimmed in Hc as [_ Hwin].
  specialize (Hwin m t Hm Ht). lia.
Qed.

(** *** _keep_last_365_days *)

Lemma keep_last_returns table w w' :
  keep_last_365_days table w = (Return tt, w') →
  coll_of w' (lower table) = trimmed (coll_of w (lower table))
  ∧ (∀ other, other ≠ lower table → store w' !! other = store w !! other).
Proof.
  unfold keep_last_365_days, trimmed, mbind, M_bind, get_coll.
  destruct (latest_time (coll_of w (lower table))) as [m|].
  - intros H. apply (delete_loop_returns _ _ []) in H as (Hc & _ & Hoth).
    done.
  - by intros [= <-].
Qed.

Lemma keep_last_quiet table w :
  faults w = [] →
  ∃ w', keep_last_365_days table w = (Return tt, w')
        ∧ faults w' = []
        ∧ write_chunks (log w') = write_chunks (log w).
Proof.
  intros Hf. unfold keep_last_365_days, mbind, M_bind, get_coll.
  destruct (latest_time (coll_of w (lower table))) as [m|].
  - by apply (delete_loop_quiet _ _ []).
  - by eexists.
Qed.

(** C7: when [_keep_last_365_days] has run, no document of the collection
    has a time field more than 180 days older than that of any document
    of the collection, so none is older than the latest timestamp minus
    180 days.  The documents with the latest timestamp are kept as they
    were, every document that was more than 180 days older than another
    one is gone, and with no commit refused the run does complete. *)
Theorem retention_bound table w :
  (∀ w', keep_last_365_days table w = (Return tt, w') →
     (∀ id d t id' d' t',
         coll_of w' (lower table) !! id = Some d → doc_time d = Some t →
         coll_of w' (lower table) !! id' = Some d' → doc_time d' = Some t' →
         t' - 180 * day ≤ t)
     ∧ (∀ id d t,
         coll_of w (lower table) !! id = Some d → doc_time d = Some t →
         (∀ id' d' t', coll_of w (lower table) !! id' = Some d' →
                       doc_time d' = Some t' → t' ≤ t) →
         coll_of w' (lower table) !! id = Some d)
     ∧ (∀ id d t id' d' t',
         coll_of w (lower table) !! id = Some d → doc_time d = Some t →
         coll_of w (lower table) !! id' = Some d' → doc_time d' = Some t' →
         t < t' - 180 * day →
         coll_of w' (lower table) !! id = None))
  ∧ (faults w = [] →
     ∃ w', keep_last_365_days table w = (Return tt, w')).
Proof.
  split.
  - intros w' [Hc _]%keep_last_returns. rewrite Hc. clear Hc w'.
    set (c := coll_of w (lower table)).
    assert (Hlatest : ∀ id d t, c !! id = Some d → doc_time d = Some t →
              ∃ m, latest_time c = Some m ∧ t ≤ m).
    { intros id d t Hd Ht.
      destruct (latest_time c) as [m|] eqn:Hm.
      - exists m. split; [done|].
        apply latest_time_Some in Hm as [_ Hmax]. by apply (Hmax id d).
      - rewrite (latest_time_None c id d Hm Hd) in Ht. discriminate. }
    split; [|split].
    + intros id d t id' d' t' [Hd Hwin]%lookup_trimmed Ht
        [Hd' _]%lookup_trimmed Ht'.
      destruct (Hlatest _ _ _ Hd' Ht') as (m & Hm & Hle).
      specialize (Hwin m t Hm Ht). unfold RETENTION in Hwin. lia.
    + intros id d t Hd Ht Hmax. apply lookup_trimmed. split; [done|].
      intros m t0 Hm Ht0. rewrite Ht in Ht0. injection Ht0 as <-.
      apply latest_time_Some in Hm as [(id' & d' & Hd' & Ht') _].
      specialize (Hmax _ _ _ Hd' Ht'). pose proof RETENTION_pos. lia.
    + intros id d t id' d' t' Hd Ht Hd' Ht' Hold.
      destruct (trimmed c !! id) as [d0|] eqn:Hkept; [exfalso | done].
      apply lookup_trimmed in Hkept as [Hd0 Hwin].
      rewrite Hd in Hd0. injection Hd0 as <-.
      destruct (Hlatest _ _ _ Hd' Ht') as (m & Hm & Hle).
      specialize (Hwin m t Hm Ht). unfold RETENTION in Hwin. lia.
  - intros Hf. destruct (keep_last_quiet table w Hf) as (w' & H & _).
    by exists w'.
Qed.

(** At the collection with a candle from 1970 and one from 2024: the run
    completes, the candle from 1970 is gone and the one from 2024 is
    still there. *)
Lemma retention_bound_witness :
  faults (quiet sample_store) = []
  ∧ ∃ w', keep_last_365_days "BTCUSDT" (quiet sample_store) = (Return tt, w')
     ∧ coll_of w' "btcusdt" !! 0 = None
     ∧ coll_of w' "btcusdt" !! t2024
       = Some (doc_data (candle t2024 42000)).
Proof.
  split; [reflexivity|].
  destruct (retention_bound "BTCUSDT" (quiet sample_store)) as [H1 H2].
  destruct (H2 eq_refl) as [w' Hw']. exists w'.
  destruct (H1 w' Hw') as (_ & Hkept & Hgone).
  split; [exact Hw'|]. split.
  - apply (Hgone 0 (doc_data (candle 0 1)) 0
             t2024 (doc_data (candle t2024 42000)) t2024);
      reflexivity.
  - apply (Hkept t2024 (doc_data (candle t2024 42000)) t2024);
      [reflexivity | reflexivity |].
    intros id' d' t' Hd' Ht'.
    change (coll_of (quiet sample_store) (lower "BTCUSDT"))
      with (<[0 := doc_data (candle 0 1)]>
              (<[t2024 := doc_data (candle t2024 42000)]> ∅) : collection)
      in Hd'.
    destruct (decide (id' = 0)) as [->|Hne0].
    { rewrite lookup_insert_eq in Hd'. injection Hd' as <-.
      vm_compute in Ht'. injection Ht' as <-. done. }
    rewrite lookup_insert_ne in Hd' by done.
    destruct (decide (id' = t2024)) as [->|Hne].
    { rewrite lookup_insert_eq in Hd'. injection Hd' as <-.
      vm_compute in Ht'. injection Ht' as <-. done. }
    rewrite lookup_insert_ne in Hd' by done. done.
Defined.

(** *** bulk_insert_df: chunking *)

Lemma apply_batch_sets (c : collection) rows :
  is_Some (apply_batch c (sets rows)).
Proof. revert c. induction rows as [|r rows IH]; intros c; simpl; eauto. Qed.

Lemma write_chunks_sets name rows :
  rows ≠ [] → write_chunks [Committed name (sets rows)] = [length rows].
Proof.
  destruct rows as [|r rows]; [done|]. intros _.
  unfold sets. rewrite fmap_cons.
  cbn [write_chunks omap list_omap length]. by rewrite length_fmap.
Qed.

Lemma sets_snoc rows r :
  sets rows ++ [WSet (open_time r) (doc_data r)] = sets (rows ++ [r]).
Proof. unfold sets. by rewrite fmap_app. Qed.

Lemma insert_loop_quiet name rows idx brows total w :
  faults w = [] → (length brows < BATCH_LIMIT)%nat →
  ∃ brows' total' w',
    insert_loop name rows idx (sets brows) total w
      = (Return (sets brows', total'), w')
    ∧ faults w' = []
    ∧ length brows' = ((length brows + length rows) mod BATCH_LIMIT)%nat
    ∧ write_chunks (log w')
      = write_chunks (log w)
        ++ replicate ((length brows + length rows) / BATCH_LIMIT) BATCH_LIMIT.
Proof.
  revert idx brows total w.
  induction rows as [|r rows IH]; intros idx brows total w Hf Hlen.
  - exists brows, total, w. cbn [insert_loop length].
    rewrite Nat.add_0_r, Nat.mod_small, Nat.div_small by done.
    cbn [replicate]. by rewrite app_nil_r.
  - cbn [insert_loop]. rewrite sets_snoc.
    unfold mbind, M_bind.
    assert (Hsleep : ∀ (b : bool) w1, faults w1 = [] →
      ∃ w2, (if b then sleep 100 else mret tt) w1 = (Return tt, w2)
            ∧ faults w2 = []
            ∧ write_chunks (log w2) = write_chunks (log w1)).
    { intros b w1 Hf1. destruct b; eexists;
        (split; [reflexivity|]); split; try done.
      simpl. rewrite write_chunks_app. simpl. by rewrite app_nil_r. }
    assert (Hsnoc : length (sets (brows ++ [r])) = S (length brows)).
    { unfold sets. rewrite length_fmap, length_app. simpl. lia. }
    case_bool_decide as Hfull.
    + unfold commit_full_batch, try_except.
      destruct (apply_batch_sets (coll_of w name) (brows ++ [r])) as [c' Hc'].
      rewrite (commit_quiet _ _ _ _ Hf Hc').
      destruct (Hsleep (bool_decide (idx mod 1000 = 0)%nat)
                  {| store := <[name:=c']> (store w); faults := [];
                          log := log w ++ [Committed name (sets (brows ++ [r]))] |}
                  eq_refl) as (w2 & Hrun2 & Hf2 & Hlog2).
      unfold mret, M_ret in *. rewrite Hrun2.
      destruct (IH (S idx) [] (total + length (sets (brows ++ [r])))%nat w2 Hf2)
        as (brows' & total' & w' & Hrun & Hf' & Hlen' & Hlog').
      { unfold BATCH_LIMIT. simpl. lia. }
      exists brows', total', w'. split; [exact Hrun|]. split; [done|].
      replace (length brows + length (r :: rows))%nat
        with (1 * BATCH_LIMIT + length rows)%nat
        by (unfold BATCH_LIMIT in *; cbn [length]; lia).
      rewrite Nat.div_add_l by done.
      rewrite (Nat.add_comm (1 * BATCH_LIMIT)), Nat.Div0.mod_add.
      split; [exact Hlen'|].
      rewrite Hlog', Hlog2. cbn [log]. rewrite write_chunks_app.
      rewrite write_chunks_sets by (by destruct brows).
      rewrite <- app_assoc. f_equal.
      cbn [length Nat.add replicate app]. f_equal.
      rewrite length_app. unfold BATCH_LIMIT in *. cbn [length]. lia.
    + destruct (Hsleep (bool_decide (idx mod 1000 = 0)%nat) w Hf)
        as (w2 & Hrun2 & Hf2 & Hlog2).
      unfold mret, M_ret in *. rewrite Hrun2.
      destruct (IH (S idx) (brows ++ [r]) total w2 Hf2)
        as (brows' & total' & w' & Hrun & Hf' & Hlen' & Hlog').
      { rewrite length_app. unfold BATCH_LIMIT in *. cbn [length]. lia. }
      exists brows', total', w'. split; [exact Hrun|]. split; [done|].
      rewrite length_app in Hlen', Hlog'. cbn [length] in Hlen', Hlog'.
      replace (length brows + length (r :: rows))%nat
        with (length brows + 1 + length rows)%nat by (cbn [length]; lia).
      split; [exact Hlen'|]. by rewrite Hlog', Hlog2.
Qed.

(** With no commit refused, [bulk_insert_df] returns after committing
    the rows in batches of 500 and one last batch with the remainder. *)
Lemma bulk_insert_chunks st table df :
  ∃ w', bulk_insert_df table df (quiet st) = (Return tt, w')
        ∧ write_chunks (log w') = chunk_sizes (length df).
Proof.
  unfold bulk_insert_df. case_bool_decide as Hdf.
  { subst df. by eexists. }
  unfold mbind, M_bind.
  destruct (insert_loop_quiet (lower table) df 1 [] 0 (quiet st) eq_refl)
    as (brows' & total' & w1 & Hrun & Hf1 & Hlen1 & Hlog1).
  { unfold BATCH_LIMIT. cbn [length]. lia. }
  change (sets []) with (@nil write) in Hrun. rewrite Hrun.
  cbn [length Nat.add] in Hlen1, Hlog1.
  assert (Hfinal : ∃ w2,
    (if bool_decide (0 < length (sets brows'))%nat
     then commit (lower table) (sets brows') else mret tt) w1 = (Return tt, w2)
    ∧ faults w2 = []
    ∧ write_chunks (log w2) = chunk_sizes (length df)).
  { change (write_chunks (log (quiet st))) with (@nil nat) in Hlog1.
    rewrite app_nil_l in Hlog1.
    assert (Hl : length (sets brows') = length brows') by apply length_fmap.
    unfold chunk_sizes. rewrite Hl, Hlen1.
    case_bool_decide as Hrem.
    - destruct (apply_batch_sets (coll_of w1 (lower table)) brows') as [c' Hc'].
      rewrite (commit_quiet _ _ _ _ Hf1 Hc'). eexists. split; [done|].
      split; [done|]. cbn [log].
      rewrite write_chunks_app, Hlog1, write_chunks_sets, Hlen1; [done|].
      intros ->. cbn [length] in Hlen1. lia.
    - exists w1. split; [done|]. split; [done|].
      by rewrite Hlog1, app_nil_r. }
  destruct Hfinal as (w2 & -> & Hf2 & Hlog2).
  destruct (keep_last_quiet (lower table) w2 Hf2) as (w3 & Hrun3 & _ & Hlog3).
  rewrite Hrun3. exists w3. split; [done|]. by rewrite Hlog3.
Qed.

(** The chunking half of C4: 1,234 rows are committed as three batches
    of 500, 500 and 234 writes. *)
Lemma bulk_insert_1234 st table df :
  length df = 1234%nat →
  ∃ w', bulk_insert_df table df (quiet st) = (Return tt, w')
        ∧ write_chunks (log w') = [500; 500; 234]%nat.
Proof.
  intros Hlen. destruct (bulk_insert_chunks st table df) as (w' & Hrun & Hlog).
  exists w'. split; [done|]. by rewrite Hlog, Hlen.
Qed.

Lemma bulk_insert_1234_witness :
  length (candles 1234) = 1234%nat
  ∧ ∃ w', bulk_insert_df "btcusdt" (candles 1234) (quiet ∅) = (Return tt, w')
          ∧ write_chunks (log w') = [500; 500; 234]%nat.
Proof.
  assert (H : length (candles 1234) = 1234%nat) by reflexivity.
  split; [exact H|]. exact (bulk_insert_1234 ∅ "btcusdt" (candles 1234) H).
Defined.

(** A full batch refused with a quota error is committed once more after
    a minute, and whatever that second commit does is the result. *)
Lemma full_batch_quota_retried name batch w e rest :
  faults w = Some e :: rest →
  is_Exception e = true → is_quota e = true →
  commit_full_batch name batch w
  = commit name batch
      {| store := store w; faults := rest;
         log := log w ++ [CommitFailed name batch e; Slept 60000] |}.
Proof.
  intros Hf He Hq. unfold commit_full_batch, try_except.
  unfold commit at 1. rewrite Hf. simpl. rewrite He, Hq.
  unfold mbind, M_bind, sleep. simpl. by rewrite <- app_assoc.
Qed.

(** C4, at the failing input: the third batch (234 rows, committed after
    the loop) is refused with a quota error, and [bulk_insert_df] raises
    at once, with no sleep and no second commit; a full batch refused with
    the same error is slept on and committed again. *)
Theorem final_chunk_quota_not_retried :
  let run fs := bulk_insert_df "BTCUSDT" (candles 1234)
                  {| store := ∅; faults := fs; log := [] |} in
  (run [None; None; Some quota_error]).1 = Raise quota_error
  ∧ brief_of <$> log (run [None; None; Some quota_error]).2
    = [BCommit 500; BCommit 500; BSleep 100; BFail 234]
  ∧ (run [Some quota_error]).1 = Return tt
  ∧ brief_of <$> log (run [Some quota_error]).2
    = [BFail 500; BSleep 60000; BCommit 500; BCommit 500; BSleep 100;
       BCommit 234].
Proof. vm_compute. repeat split; reflexivity. Qed.


(** *** upsert_predictions *)

Lemma latest_time_ext (c1 c2 : collection) :
  (∀ t, has_time c1 t ↔ has_time c2 t) → latest_time c1 = latest_time c2.
Proof.
  intros Hext.
  destruct (latest_time c1) as [m|] eqn:H1.
  - symmetry. apply latest_time_Some in H1 as [Hex Hle].
    apply latest_time_Some. split; [by apply Hext|].
    intros id d t Hc Ht. destruct (proj2 (Hext t)) as (id' & d' & Hc' & Ht').
    { by exists id, d. }
    eauto.
  - destruct (latest_time c2) as [m|] eqn:H2; [|done].
    apply latest_time_Some in H2 as [Hex _].
    apply Hext in Hex as (id & d & Hc & Ht).
    by rewrite (latest_time_None _ _ _ H1 Hc) in Ht.
Qed.

Lemma doc_time_pred_field col preds (old : doc) :
  col ≠ "open_time" → doc_time (pred_field col preds ∪ old) = doc_time old.
Proof.
  intros Hne. unfold doc_time, pred_field.
  rewrite lookup_union_r; [done|]. by rewrite lookup_insert_ne.
Qed.

Lemma pred_field_twice col preds (old : doc) :
  pred_field col preds ∪ (pred_field col preds ∪ old)
  = pred_field col preds ∪ old.
Proof. by rewrite (assoc_L (∪)), (idemp_L (∪)). Qed.

Lemma pred_field_lookup col preds (old : doc) :
  (pred_field col preds ∪ old) !! col = Some (VVec preds).
Proof.
  unfold pred_field. apply lookup_union_Some_l. by rewrite lookup_insert_eq.
Qed.

(** Writing a prediction into a stored document does not move it in or
    out of the retention window. *)
Lemma trimmed_update (c : collection) t col preds old :
  col ≠ "open_time" → c !! t = Some old → trimmed c = c →
  trimmed (<[t := pred_field col preds ∪ old]> c)
  = <[t := pred_field col preds ∪ old]> c.
Proof.
  intros Hne Hold Htrim.
  set (new := pred_field col preds ∪ old).
  assert (Hlatest : latest_time (<[t := new]> c) = latest_time c).
  { apply latest_time_ext. intros u. split.
    - intros (id & d & Hc & Hd). destruct (decide (id = t)) as [->|Hid].
      + rewrite lookup_insert_eq in Hc. injection Hc as <-.
        unfold new in Hd. rewrite doc_time_pred_field in Hd by done.
        by exists t, old.
      + rewrite lookup_insert_ne in Hc by done. by exists id, d.
    - intros (id & d & Hc & Hd). destruct (decide (id = t)) as [->|Hid].
      + exists t, new. rewrite lookup_insert_eq. split; [done|].
        unfold new. rewrite doc_time_pred_field by done. congruence.
      + exists id, d. by rewrite lookup_insert_ne. }
  apply map_eq. intros id. apply option_eq. intros d.
  rewrite lookup_trimmed, Hlatest. split; [by intros [? _]|].
  intros Hc. split; [done|]. intros m u Hm Hu.
  destruct (decide (id = t)) as [->|Hid].
  - rewrite lookup_insert_eq in Hc. injection Hc as <-.
    unfold new in Hu. rewrite doc_time_pred_field in Hu by done.
    assert (Hold' : trimmed c !! t = Some old) by (by rewrite Htrim).
    apply lookup_trimmed in Hold' as [_ Hwin]. eauto.
  - rewrite lookup_insert_ne in Hc by done.
    assert (Hc' : trimmed c !! id = Some d) by (by rewrite Htrim).
    apply lookup_trimmed in Hc' as [_ Hwin]. eauto.
Qed.

Lemma coll_of_insert_ne (st : gmap string collection) f l name c other :
  other ≠ name →
  coll_of {| store := <[name := c]> st; faults := f; log := l |} other
  = default ∅ (st !! other).
Proof. intros Hne. unfold coll_of. simpl. by rewrite lookup_insert_ne. Qed.

(** One call with a single prediction, no commit refused: the collection
    is trimmed, and then the prediction goes into the document of [t] if
    there is one, and the call raises [NotFound] if there is none. *)
Lemma upsert_single table model version t p df w :
  faults w = [] →
  let T := lower table in
  let c1 := trimmed (coll_of w T) in
  let new old := pred_field (col_name model version) p ∪ old in
  ∃ w', upsert_predictions table model version [t] [p] df THRESHOLD w
        = (match c1 !! t with
           | Some _ => Return tt
           | None => Raise NotFound
           end, w')
      ∧ faults w' = []
      ∧ coll_of w' T = match c1 !! t with
                        | Some old => <[t := new old]> c1
                        | None => c1
                        end
      ∧ ∀ other, other ≠ T → coll_of w' other = coll_of w other.
Proof.
  intros Hf T c1 new. unfold upsert_predictions.
  unfold mbind at 1. unfold M_bind at 1.
  destruct (keep_last_quiet table w Hf) as (w1 & Hrun1 & Hf1 & _).
  rewrite Hrun1. apply keep_last_returns in Hrun1 as [Hc1 Hoth1].
  fold T in Hc1, Hoth1. fold c1 in Hc1.
  cbn [length]. rewrite bool_decide_eq_false_2 by done.
  rewrite bool_decide_eq_false_2 by (intros H; by apply H).
  rewrite bool_decide_eq_false_2 by (unfold THRESHOLD; lia).
  fold T. fold (col_name model version).
  unfold mbind at 1. unfold M_bind at 1.
  change (update_loop T (col_name model version) (zip [t] [p]) [])
    with (commit T [WUpdate t (pred_field (col_name model version) p)]).
  unfold commit. rewrite Hf1. cbn [head tail apply_batch apply_write].
  rewrite Hc1. destruct (c1 !! t) as [old|] eqn:Hold.
  - unfold mbind, M_bind, get_coll. rewrite coll_of_insert.
    unfold missing_times. cbn [filter list_filter].
    rewrite decide_False by (rewrite lookup_insert_eq; done).
    rewrite bool_decide_eq_true_2 by done.
    eexists. split; [reflexivity|]. split; [done|].
    split; [by rewrite coll_of_insert|].
    intros other Hne. rewrite coll_of_insert_ne by done.
    unfold coll_of. by rewrite Hoth1.
  - eexists. split; [reflexivity|]. split; [done|].
    split; [exact Hc1|].
    intros other Hne. unfold coll_of. simpl. by rewrite Hoth1.
Qed.

Lemma trimmed_subset (c : collection) id :
  is_Some (trimmed c !! id) → is_Some (c !! id).
Proof. intros [d [Hc _]%lookup_trimmed]. by exists d. Qed.

(** X1: two identical calls for one timestamp,
    with the default threshold and no commit refused, leave every
    collection as a single call does, and end the same way; no document is
    created; when the call returns, the document of [t] holds the
    prediction in its column; and the call does return whenever the
    candle of [t] is stored and within the retention window. *)
Theorem upsert_predictions_idempotent st table model version t p df :
  col_name model version ≠ "open_time" →
  let T := lower table in
  let once :=
    upsert_predictions table model version [t] [p] df THRESHOLD (quiet st) in
  let twice :=
    upsert_predictions table model version [t] [p] df THRESHOLD once.2 in
  (∀ name, coll_of twice.2 name = coll_of once.2 name)
  ∧ twice.1 = once.1
  ∧ (∀ id, is_Some (coll_of twice.2 T !! id) →
           is_Some (coll_of (quiet st) T !! id))
  ∧ (once.1 = Return tt →
     ∃ d, coll_of twice.2 T !! t = Some d
          ∧ d !! col_name model version = Some (VVec p))
  ∧ (is_Some (trimmed (coll_of (quiet st) T) !! t) → once.1 = Return tt).
Proof.
  intros Hcol T.
  destruct (upsert_single table model version t p df (quiet st) eq_refl)
    as (w1 & Hrun1 & Hf1 & Hc1 & Hoth1).
  destruct (upsert_single table model version t p df w1 Hf1)
    as (w2 & Hrun2 & Hf2 & Hc2 & Hoth2).
  fold T in Hrun1, Hc1, Hoth1, Hrun2, Hc2, Hoth2.
  set (c1 := trimmed (coll_of (quiet st) T)) in *.
  assert (Hsame : coll_of w2 T = coll_of w1 T
                  ∧ (match trimmed (coll_of w1 T) !! t with
                     | Some _ => Return tt
                     | None => Raise NotFound
                     end : outcome unit)
                    = match c1 !! t with
                      | Some _ => Return tt
                      | None => Raise NotFound
                      end).
  { rewrite Hc2, Hc1. destruct (c1 !! t) as [old|] eqn:Hold.
    - rewrite (trimmed_update c1 t _ p old Hcol Hold (trimmed_idemp _)).
      rewrite lookup_insert_eq. split; [|done].
      by rewrite pred_field_twice, insert_insert_eq.
    - unfold c1. rewrite trimmed_idemp. fold c1. by rewrite Hold. }
  destruct Hsame as [Hcoll Hout].
  cbv zeta. rewrite Hrun1. cbn [fst snd]. rewrite Hrun2. cbn [fst snd].
  split; [|split; [|split; [|split]]].
  - intros name. destruct (decide (name = T)) as [->|Hne]; [done|].
    by apply Hoth2.
  - exact Hout.
  - intros id. rewrite Hcoll, Hc1.
    destruct (c1 !! t) as [old|] eqn:Hold; [|apply trimmed_subset].
    destruct (decide (id = t)) as [->|Hne].
    + intros _. apply trimmed_subset. fold c1. by rewrite Hold.
    + rewrite lookup_insert_ne by done. apply trimmed_subset.
  - rewrite Hcoll, Hc1. destruct (c1 !! t) as [old|]; [|done].
    intros _. eexists. rewrite lookup_insert_eq. split; [done|].
    apply pred_field_lookup.
  - intros [old Hold]. by rewrite Hold.
Qed.

Lemma upsert_predictions_idempotent_witness :
  col_name "lightgbm" "v1" ≠ "open_time"
  ∧ let once :=
      upsert_predictions "BTCUSDT" "lightgbm" "v1" [t2024] [sample_pred]
        [candle t2024 42000] THRESHOLD (quiet sample_store) in
    let twice :=
      upsert_predictions "BTCUSDT" "lightgbm" "v1" [t2024] [sample_pred]
        [candle t2024 42000] THRESHOLD once.2 in
    once.1 = Return tt
    ∧ (∀ name, coll_of twice.2 name = coll_of once.2 name)
    ∧ ∃ d, coll_of twice.2 "btcusdt" !! t2024 = Some d
           ∧ d !! "lightgbm_v1" = Some (VVec sample_pred).
Proof.
  assert (Hcol : col_name "lightgbm" "v1" ≠ "open_time") by discriminate.
  split; [exact Hcol|].
  destruct (upsert_predictions_idempotent sample_store "BTCUSDT" "lightgbm"
              "v1" t2024 sample_pred [candle t2024 42000] Hcol)
    as (Hsame & _ & _ & Hval & Hret).
  assert (Hok : is_Some (trimmed (coll_of (quiet sample_store)
                                    (lower "BTCUSDT")) !! t2024)).
  { eexists. vm_compute. reflexivity. }
  specialize (Hret Hok). split; [exact Hret|]. split; [exact Hsame|].
  exact (Hval Hret).
Defined.

(** C5, at the failing input: no candle is stored for the timestamp.  The
    update batch is refused (the document must exist), so the call raises
    before it gets to the insert of missing rows, once and twice alike,
    and the prediction is not stored.  The insert it does not get to
    would not store it either: [bulk_insert_df] writes the six candle
    fields of a row and leaves the prediction column out. *)
Theorem upsert_missing_candle_not_stored :
  let t := t2024 + minute in
  let call := upsert_predictions "BTCUSDT" "lightgbm" "v1" [t] [sample_pred]
                [candle t 42000] THRESHOLD in
  let once := call (quiet sample_store) in
  let twice := call once.2 in
  let inserted :=
    bulk_insert_df "btcusdt"
      (insert_df "lightgbm_v1" [t] [(t, sample_pred)] [candle t 42000])
      (quiet sample_store) in
  once.1 = Raise NotFound ∧ twice.1 = Raise NotFound
  ∧ coll_of once.2 "btcusdt" !! t = None
  ∧ coll_of twice.2 "btcusdt" !! t = None
  ∧ inserted.1 = Return tt
  ∧ (coll_of inserted.2 "btcusdt" !! t) ≫= (.!! "open_time") = Some (VTime t)
  ∧ (coll_of inserted.2 "btcusdt" !! t) ≫= (.!! "lightgbm_v1") = None.
Proof. vm_compute. repeat split; reflexivity. Qed.

End CryptoDBFacts.

(** ** Version rotation *)

Module VersionManagerFacts.
Import VersionManager.

Lemma vm_bind_return {A B} (c : VM A) (f : A → VM B) m a m' :
  c m = (Return a, m') → (c ≫= f) m = f a m'.
Proof. intros H. unfold mbind, VM_bind. by rewrite H. Qed.

Lemma copy2_spec src dst m c :
  fs m !! src = Some c → src ≠ dst →
  copy2 src dst m = (Return tt, with_fs m (<[dst := c]> (fs m))).
Proof.
  intros Hsrc Hne. unfold copy2, mbind, VM_bind, get. rewrite Hsrc.
  by rewrite bool_decide_eq_false_2.
Qed.

(** Copying files of [src] into another directory [dest] touches only
    [dest], and what it puts under a name is the file of that name in
    [src]. *)
Lemma copy_all_spec (src dest : dir) found m :
  src ≠ dest →
  Forall (λ pc : path * string, pc.1.1 = src ∧ is_Some (fs m !! pc.1)) found →
  ∃ f', copy_all found dest m = (Return tt, with_fs m f')
        ∧ (∀ q : path, q.1 ≠ dest → f' !! q = fs m !! q)
        ∧ (∀ n, f' !! (dest, n) = fs m !! (dest, n)
                ∨ f' !! (dest, n) = fs m !! (src, n)).
Proof.
  intros Hne. revert m. induction found as [|[[d n0] c0] found IH]; intros m Hall.
  - exists (fs m). destruct m. split; [done|]. split; [done|]. by left.
  - apply Forall_cons in Hall as [[Hd [c Hc]] Hall]. simpl in Hd, Hc. subst d.
    cbn [copy_all].
    rewrite (vm_bind_return _ _ _ _ _ (copy2_spec (src, n0) (dest, n0) m c Hc
               ltac:(congruence))).
    destruct (IH (with_fs m (<[(dest, n0) := c]> (fs m)))) as (f' & Hrun & Hout & Hin).
    { eapply Forall_impl; [exact Hall|]. intros [[d n] c1] [Hd Hs]. simpl in *.
      split; [done|]. subst d. by rewrite lookup_insert_ne by congruence. }
    exists f'. split; [exact Hrun|]. simpl in Hout, Hin. split.
    + intros q Hq. rewrite Hout by done. rewrite lookup_insert_ne; [done|].
      intros <-. by apply Hq.
    + intros n. destruct (Hin n) as [H|H]; rewrite H.
      * destruct (decide (n = n0)) as [->|Hn].
        -- right. by rewrite lookup_insert_eq.
        -- left. by rewrite lookup_insert_ne by congruence.
      * right. by rewrite lookup_insert_ne by congruence.
Qed.

Lemma copy_associated_files_spec ty (src dest : dir) m :
  src ≠ dest →
  ∃ f', copy_associated_files ty src dest m = (Return tt, with_fs m f')
        ∧ (∀ q : path, q.1 ≠ dest → f' !! q = fs m !! q)
        ∧ (∀ n, f' !! (dest, n) = fs m !! (dest, n)
                ∨ f' !! (dest, n) = fs m !! (src, n)).
Proof.
  intros Hne. unfold copy_associated_files.
  rewrite (vm_bind_return get _ m m m eq_refl).
  apply copy_all_spec; [done|].
  apply Forall_forall. intros [q c] Hin. unfold glob in Hin.
  apply list_elem_of_filter in Hin as [[Hd _] Hin]. simpl in *.
  apply elem_of_map_to_list in Hin. split; [done|]. by exists c.
Qed.

(** The primary artifact and its side files, copied into a slot
    directory, and then whatever comes next. *)
Lemma install_spec ty (src : path) (dest : dir) m c :
  fs m !! src = Some c → src.1 ≠ dest →
  ∃ f', f' !! (dest, src.2) = Some c
        ∧ (∀ q : path, q.1 ≠ dest → f' !! q = fs m !! q)
        ∧ ∀ B (k : VM B),
            (copy2 src (dest, src.2) ;;
             copy_associated_files ty src.1 dest ;; k) m
            = k (with_fs m f').
Proof.
  intros Hsrc Hne. destruct src as [d n]. simpl in *.
  destruct (copy_associated_files_spec ty d dest
              (with_fs m (<[(dest, n) := c]> (fs m))) Hne)
    as (f' & Hrun & Hout & Hin).
  exists f'. simpl in *. split; [|split].
  - destruct (Hin n) as [H|H]; rewrite H.
    + by rewrite lookup_insert_eq.
    + by rewrite lookup_insert_ne by congruence.
  - intros q Hq. rewrite Hout by done. rewrite lookup_insert_ne; [done|].
    intros <-. by apply Hq.
  - intros B k.
    rewrite (vm_bind_return _ _ _ _ _ (copy2_spec (d, n) (dest, n) m c Hsrc
               ltac:(congruence))).
    by rewrite (vm_bind_return _ _ _ _ _ Hrun).
Qed.

Lemma get_slots_spec ty m sl :
  models (reg m) !! ty = Some sl → get_slots ty m = (Return sl, m).
Proof. intros H. unfold get_slots, mbind, VM_bind, get. by rewrite H. Qed.

Lemma set_slots_spec ty sl m :
  set_slots ty sl m = (Return tt, with_slots m ty sl).
Proof. reflexivity. Qed.

Lemma fill_v2_spec ty from entry m sl c :
  models (reg m) !! ty = Some sl →
  fs m !! slot_path from = Some c →
  (slot_path from).1 ≠ get_model_dir m ty "2" →
  let v2_path := (get_model_dir m ty "2", (slot_path from).2) in
  ∃ f', f' !! v2_path = Some c
        ∧ (∀ q : path, q.1 ≠ get_model_dir m ty "2" → f' !! q = fs m !! q)
        ∧ fill_v2 ty from entry m
          = (Return tt,
             with_slots (with_fs m f') ty
               {| v1 := v1 sl; v2 := Some (entry v2_path); v3 := v3 sl |}).
Proof.
  intros Hsl Hc Hne v2_path.
  destruct (install_spec ty (slot_path from) (get_model_dir m ty "2") m c Hc Hne)
    as (f' & Hnew & Hout & Hrun).
  exists f'. split; [exact Hnew|]. split; [exact Hout|].
  unfold fill_v2. rewrite (vm_bind_return get _ m m m eq_refl).
  rewrite Hc, Hrun.
  rewrite (vm_bind_return _ _ _ _ _ (get_slots_spec ty (with_fs m f') sl Hsl)).
  reflexivity.
Qed.

Lemma slot_dirs_differ m ty :
  get_model_dir m ty "2" ≠ get_model_dir m ty "3".
Proof. unfold get_model_dir. intros H. by apply app_inv_head in H. Qed.

(** One registration with something to rotate: the files of the source
    slot end up in slot 2, the new artifact in slot 3, slot 1 and every
    file outside the two slot directories stay as they are. *)
Lemma register_new_model_spec ty src meta now m sl from cf c :
  models (reg m) !! ty = Some sl →
  rotation_source sl = Some from →
  fs m !! slot_path from = Some cf →
  (slot_path from).1 ≠ get_model_dir m ty "2" →
  fs m !! src = Some c → unmanaged m ty src →
  ∃ m' i2 i3,
    register_new_model ty src meta now m = (Return "3", m')
    ∧ base_models_dir m' = base_models_dir m
    ∧ models (reg m') !! ty = Some {| v1 := v1 sl; v2 := Some i2; v3 := Some i3 |}
    ∧ slot_path i3 = (get_model_dir m ty "3", src.2)
    ∧ fs m' !! slot_path i2 = Some cf
    ∧ fs m' !! slot_path i3 = Some c
    ∧ (∀ q : path, q.1 ≠ get_model_dir m ty "2" →
                   q.1 ≠ get_model_dir m ty "3" → fs m' !! q = fs m !! q).
Proof.
  intros Hsl Hrot Hcf Hfrom Hc [Hs2 Hs3].
  unfold register_new_model.
  rewrite (vm_bind_return get _ m m m eq_refl).
  rewrite bool_decide_eq_false_2 by (by rewrite Hc).
  rewrite (vm_bind_return _ _ _ _ _ (get_slots_spec ty m sl Hsl)).
  set (v2_path := (get_model_dir m ty "2", (slot_path from).2)).
  assert (Hfill : ∃ f1 i2,
    f1 !! v2_path = Some cf
    ∧ (∀ q : path, q.1 ≠ get_model_dir m ty "2" → f1 !! q = fs m !! q)
    ∧ slot_path i2 = v2_path
    ∧ match v3 sl, v1 sl, v2 sl with
      | Some old_v3, _, _ =>
          fill_v2 ty old_v3
            (λ v2_path, {| slot_path := v2_path;
                           created_at := created_at old_v3;
                           promoted_at := Some now; rolled_back_at := None;
                           created_from_v1 := false;
                           metadata := metadata old_v3 |})
      | None, Some base, None =>
          fill_v2 ty base
            (λ v2_path, {| slot_path := v2_path;
                           created_at := created_at base;
                           promoted_at := None; rolled_back_at := None;
                           created_from_v1 := true;
                           metadata := metadata base |})
      | _, _, _ => mret tt
      end m
      = (Return tt, with_slots (with_fs m f1) ty
                      {| v1 := v1 sl; v2 := Some i2; v3 := v3 sl |})).
  { unfold rotation_source in Hrot. destruct sl as [s1 s2 s3].
    cbn [v1 v2 v3] in *.
    destruct s3 as [o|]; [|destruct s1 as [b|]; [destruct s2|]];
      try done; injection Hrot as ->;
      (edestruct (fill_v2_spec ty from) as (f1 & H1 & H2 & H3); [done..|]);
      eexists f1, _; (split; [exact H1|]); (split; [exact H2|]);
      (split; [|exact H3]); done. }
  destruct Hfill as (f1 & i2 & Hv2 & Hout1 & Hp2 & Hfill).
  unfold mbind at 1. unfold VM_bind at 1. rewrite Hfill.
  set (m1 := with_slots (with_fs m f1) ty
               {| v1 := v1 sl; v2 := Some i2; v3 := v3 sl |}).
  rewrite (vm_bind_return get _ m1 m1 m1 eq_refl).
  change (get_model_dir m1 ty "3") with (get_model_dir m ty "3").
  destruct (install_spec ty src (get_model_dir m ty "3") m1 c)
    as (f2 & Hv3 & Hout2 & Hrun2).
  { simpl. by rewrite Hout1. }
  { done. }
  rewrite Hrun2.
  assert (Hget : ∀ mm sl', get_slots ty (with_slots mm ty sl')
                           = (Return sl', with_slots mm ty sl')).
  { intros mm sl'. apply get_slots_spec. simpl. apply lookup_insert_eq. }
  change (with_fs m1 f2)
    with (with_slots (with_fs (with_fs m f1) f2) ty
            {| v1 := v1 sl; v2 := Some i2; v3 := v3 sl |}).
  rewrite (vm_bind_return _ _ _ _ _ (Hget _ _)).
  rewrite (vm_bind_return _ _ _ _ _ (set_slots_spec _ _ _)).
  rewrite (vm_bind_return _ _ _ _ _ (Hget _ _)).
  eexists _, i2, _. split; [reflexivity|]. simpl.
  split; [done|]. rewrite lookup_insert_eq. split; [reflexivity|].
  split; [done|]. simpl. split; [|split; [exact Hv3|]].
  - rewrite Hp2. rewrite Hout2; [done|]. apply slot_dirs_differ.
  - intros q Hq2 Hq3. rewrite Hout2 by done. simpl. by apply Hout1.
Qed.

Lemma slot_artifact_spec m ty sl (slot : slots → option slot_info) info c :
  models (reg m) !! ty = Some sl → slot sl = Some info →
  fs m !! slot_path info = Some c → slot_artifact m ty slot = Some c.
Proof. intros H1 H2 H3. unfold slot_artifact. rewrite H1. simpl. by rewrite H2. Qed.

(** C6: from slot 1 = A with slots 2 and 3 empty, registering B gives
    slot 2 = A and slot 3 = B, and registering C after that gives
    slot 2 = B and slot 3 = C; slot 1 is A throughout.  The artifacts are
    files outside the two rotating slot directories. *)
Theorem version_rotation m ty info1 A srcB B srcC C metaB metaC now1 now2 :
  models (reg m) !! ty = Some {| v1 := Some info1; v2 := None; v3 := None |} →
  fs m !! slot_path info1 = Some A → unmanaged m ty (slot_path info1) →
  fs m !! srcB = Some B → unmanaged m ty srcB →
  fs m !! srcC = Some C → unmanaged m ty srcC →
  ∃ m1 m2,
    register_new_model ty srcB metaB now1 m = (Return "3", m1)
    ∧ slot_artifact m1 ty v1 = Some A
    ∧ slot_artifact m1 ty v2 = Some A
    ∧ slot_artifact m1 ty v3 = Some B
    ∧ register_new_model ty srcC metaC now2 m1 = (Return "3", m2)
    ∧ slot_artifact m2 ty v1 = Some A
    ∧ slot_artifact m2 ty v2 = Some B
    ∧ slot_artifact m2 ty v3 = Some C.
Proof.
  intros Hsl HA [HA2 HA3] HB HBu HC [HC2 HC3].
  destruct (register_new_model_spec ty srcB metaB now1 m _ info1 A B
              Hsl eq_refl HA HA2 HB HBu)
    as (m1 & i2 & i3 & Hrun1 & Hbase1 & Hsl1 & Hp3 & Hf2 & Hf3 & Hframe1).
  cbn [v1] in Hsl1.
  assert (Hdir : ∀ v, get_model_dir m1 ty v = get_model_dir m ty v).
  { intros v. unfold get_model_dir. by rewrite Hbase1. }
  assert (HA1 : fs m1 !! slot_path info1 = Some A) by (by rewrite Hframe1).
  destruct (register_new_model_spec ty srcC metaC now2 m1 _ i3 B C
              Hsl1 eq_refl Hf3)
    as (m2 & j2 & j3 & Hrun2 & Hbase2 & Hsl2 & Hq3 & Hg2 & Hg3 & Hframe2).
  { rewrite Hp3, Hdir. simpl. intros H. by apply (slot_dirs_differ m ty). }
  { by rewrite Hframe1. }
  { split; by rewrite Hdir. }
  cbn [v1] in Hsl2.
  exists m1, m2. split; [exact Hrun1|].
  split; [by eapply slot_artifact_spec|].
  split; [by eapply slot_artifact_spec|].
  split; [by eapply slot_artifact_spec|].
  split; [exact Hrun2|].
  split; [|split]; try by eapply slot_artifact_spec.
  eapply slot_artifact_spec; [exact Hsl2|done|].
  rewrite Hframe2; rewrite ?Hdir; done.
Qed.

Lemma version_rotation_witness :
  let m := sample_manager in
  let info1 := baseline_info in
  let srcB : path := (["out"], "model_b.txt") in
  let srcC : path := (["out"], "model_c.txt") in
  models (reg m) !! "lightgbm"
    = Some {| v1 := Some info1; v2 := None; v3 := None |}
  ∧ fs m !! slot_path info1 = Some "A"
  ∧ unmanaged m "lightgbm" (slot_path info1)
  ∧ fs m !! srcB = Some "B" ∧ unmanaged m "lightgbm" srcB
  ∧ fs m !! srcC = Some "C" ∧ unmanaged m "lightgbm" srcC
  ∧ ∃ m1 m2,
      register_new_model "lightgbm" srcB None 1 m = (Return "3", m1)
      ∧ slot_artifact m1 "lightgbm" v2 = Some "A"
      ∧ slot_artifact m1 "lightgbm" v3 = Some "B"
      ∧ register_new_model "lightgbm" srcC None 2 m1 = (Return "3", m2)
      ∧ slot_artifact m2 "lightgbm" v1 = Some "A"
      ∧ slot_artifact m2 "lightgbm" v2 = Some "B"
      ∧ slot_artifact m2 "lightgbm" v3 = Some "C".
Proof.
  intros m info1 srcB srcC.
  assert (H1 : models (reg m) !! "lightgbm"
               = Some {| v1 := Some info1; v2 := None; v3 := None |})
    by reflexivity.
  assert (H2 : fs m !! slot_path info1 = Some "A") by reflexivity.
  assert (H3 : unmanaged m "lightgbm" (slot_path info1))
    by (split; discriminate).
  assert (H4 : fs m !! srcB = Some "B") by reflexivity.
  assert (H5 : unmanaged m "lightgbm" srcB) by (split; discriminate).
  assert (H6 : fs m !! srcC = Some "C") by reflexivity.
  assert (H7 : unmanaged m "lightgbm" srcC) by (split; discriminate).
  repeat (split; [assumption|]).
  destruct (version_rotation m "lightgbm" info1 "A" srcB "B" srcC "C"
              None None 1 2 H1 H2 H3 H4 H5 H6 H7)
    as (m1 & m2 & R1 & _ & S2 & S3 & R2 & T1 & T2 & T3).
  exists m1, m2. repeat (split; [assumption|]). assumption.
Defined.

End VersionManagerFacts.

(** ** Consumer *)

Module ConsumerFacts.
Import ControlPlane Data Consumer.

Lemma cursor_ok_logged env st r : cursor_ok env st r → cursor_ok env st (logged r).
Proof.
  destruct r as [[[[]|e] st'] evs]; simpl; [done|].
  destruct (is_Exception e); [|done].
  intros [H|(Hu & t & p & Ht & Hin)]; [by left|right].
  split; [done|]. exists t, p. split; [done|].
  simpl in *. apply elem_of_app. by left.
Qed.

Lemma cursor_ok_same env st st' (r : outcome unit) evs :
  last_processed_time st' = last_processed_time st →
  cursor_ok env st (r, st', evs).
Proof. intros H. by left. Qed.

Lemma predict_and_store_cursor env t st0 st :
  last_processed_time st = last_processed_time st0 →
  cursor_ok env st0 (predict_and_store env t st).
Proof.
  intros Hst. unfold predict_and_store.
  destruct (predicted env) as [[|p ps]|e]; try by left.
  destruct (upserted env) as [[]|e] eqn:Hu; [|by left].
  destruct (appended env) as [[]|e]; [|by left].
  right. split; [done|]. exists t, p. split; [done|]. simpl. left.
Qed.

(** C8: whatever a call of [maybe_process] meets, the cursor afterwards
    is the one from before unless the upsert went through, in which case
    it is the upserted timestamp; so when the upsert raises, the cursor
    keeps its value. *)
Theorem cursor_follows_upsert env value st :
  cursor_ok env st (maybe_process env value st)
  ∧ ∀ e, upserted env = Raise e →
         last_processed_time (maybe_process env value st).1.2
         = last_processed_time st.
Proof.
  assert (H : cursor_ok env st (maybe_process env value st)).
  { unfold maybe_process. apply cursor_ok_logged.
    destruct (polled env) as [state|e]; [|by left].
    case_bool_decide; [by left|]. case_bool_decide; [by left|].
    destruct value as [[|r0 rows]|n]; try by left.
    case_bool_decide; [by left|].
    case_bool_decide; [by left|].
    destruct (preprocessed env) as [[|f fs]|e]; try by left.
    destruct (last _) as [r|]; [|by left].
    apply cursor_ok_logged. by apply predict_and_store_cursor. }
  split; [exact H|].
  intros e He. destruct H as [H|[Hu _]]; [done|]. congruence.
Qed.

Lemma cursor_follows_upsert_witness :
  upserted store_unreachable = Raise (ApiError "ServiceUnavailable" "503")
  ∧ last_processed_time
      (maybe_process store_unreachable (Candles thirty) fresh).1.2
    = last_processed_time fresh.
Proof.
  split; [reflexivity|].
  exact (proj2 (cursor_follows_upsert store_unreachable (Candles thirty) fresh)
           _ eq_refl).
Defined.

(** When everything works the cursor moves to the last candle. *)
Example cursor_advances :
  last_processed_time (maybe_process all_well (Candles thirty) fresh).1.2
  = Some 1704068940000000.
Proof. vm_compute. reflexivity. Qed.

End ConsumerFacts.

(** ** Shutdown script *)

Module KillAllFacts.
Import ControlPlane KillAll.

Lemma total_ret {A} (a : A) : total (mret a).
Proof. intros st. by eexists. Qed.

Lemma total_bind {A B} (c : KM A) (f : A → KM B) :
  total c → (∀ a, total (f a)) → total (c ≫= f).
Proof.
  intros Hc Hf st. unfold mbind, KM_bind.
  destruct (Hc st) as [[[a|e] st'] ->]; [apply Hf | by eexists].
Qed.

Lemma total_get_bind {B} (f : kstate → KM B) :
  (∀ st, is_Some (f st st)) → total (get ≫= f).
Proof. intros Hf st. apply Hf. Qed.

Lemma total_call {A} ms (pick : answer → outcome A) ev : total (call ms pick ev).
Proof. intros st. by eexists. Qed.

Lemma total_logger_error : total logger_error.
Proof. intros st. by eexists. Qed.

Lemma total_try_except {A} (c h : KM A) :
  total c → total h → total (try_except c h).
Proof.
  intros Hc Hh st. unfold try_except.
  destruct (Hc st) as [[[a|e] st'] ->]; [by eexists|].
  destruct (is_Exception e); [apply Hh | by eexists].
Qed.

Lemma total_send_delete c m v : total (send_delete c m v).
Proof.
  apply total_try_except; [|apply total_logger_error].
  apply total_bind; [apply total_call|]. intros state.
  destruct (negb (gone state)); [apply total_call | apply total_ret].
Qed.

Lemma total_send_deletes es start_time : total (send_deletes es start_time).
Proof.
  induction es as [|[[c m] v] es IH]; [apply total_ret|].
  cbn [send_deletes]. apply total_get_bind. intros st.
  destruct (negb (should_continue st)); [by eexists|].
  destruct (_ <? _); [by eexists|].
  apply total_bind; [apply total_send_delete | done].
Qed.

(** One turn of the waiting loop comes back, and when it asks for
    another turn five seconds have gone by. *)
Lemma wait_turn c m v st :
  ∃ r st',
    try_except
      (state ← state_checker c m v;
       if bool_decide (state = JStr "deleted") then mret (Some true)
       else if bool_decide (state = JStr "unknown") then mret (Some true)
       else sleep 5 ;; mret None)
      (logger_error ;; sleep 5 ;; mret None) st = Some (r, st')
    ∧ (r = Return None → clock st + 5000 ≤ clock st').
Proof.
  unfold try_except, mbind, KM_bind, state_checker, call.
  destruct (checked (oracle st (tick st))) as [state|e].
  - repeat case_bool_decide; try (eexists _, _; split; [reflexivity|done]).
    eexists _, _. split; [reflexivity|]. intros _. simpl. lia.
  - destruct (is_Exception e).
    + eexists _, _. split; [reflexivity|]. intros _. simpl. lia.
    + eexists _, _. split; [reflexivity|done].
Qed.

Lemma wait_loop_total fuel c m v timeout start_time st :
  timeout * 1000 ≤ clock st - start_time + 5000 * Z.of_nat fuel →
  is_Some (wait_loop (S fuel) c m v timeout start_time st).
Proof.
  revert st. induction fuel as [|fuel IH]; intros st Hfuel.
  - cbn [wait_loop]. unfold mbind at 1. unfold KM_bind at 1. simpl.
    destruct (Z.ltb_spec (clock st - start_time) (timeout * 1000)); [lia|].
    by eexists.
  - remember (S fuel) as n. cbn [wait_loop]. subst n.
    unfold mbind at 1. unfold KM_bind at 1. simpl.
    destruct (_ && _); [|by eexists].
    destruct (wait_turn c m v st) as (r & st' & Hturn & Hclock).
    unfold mbind at 1. unfold KM_bind at 1. rewrite Hturn.
    destruct r as [[b|]|e]; try by eexists.
    apply IH. specialize (Hclock eq_refl). lia.
Qed.

Lemma total_wait_for_shutdown c m v timeout :
  total (wait_for_shutdown c m v timeout).
Proof.
  unfold wait_for_shutdown. apply total_get_bind. intros st.
  destruct (negb (should_continue st)); [by eexists|].
  apply wait_loop_total. lia.
Qed.

Lemma total_wait_all es start_time : total (wait_all es start_time).
Proof.
  induction es as [|[[c m] v] es IH]; [apply total_ret|].
  cbn [wait_all]. apply total_get_bind. intros st.
  destruct (_ || _); [by eexists|].
  apply total_bind; [apply total_wait_for_shutdown | done].
Qed.

Lemma total_when_continuing c : total c → total (when_continuing c).
Proof.
  intros Hc. apply total_get_bind. intros st.
  destruct (should_continue st); [apply Hc | by eexists].
Qed.

Lemma total_get {B} (f : kstate → KM B) :
  (∀ st, total (f st)) → total (get ≫= f).
Proof. intros Hf st. apply Hf. Qed.

Lemma total_shutdown : total shutdown.
Proof.
  unfold shutdown. apply total_get. intros st0.
  apply total_bind; [apply total_send_deletes|]. intros _.
  apply total_bind; [apply total_when_continuing, total_send_delete|].
  intros _.
  apply total_bind; [apply total_when_continuing, total_wait_all|].
  intros _. apply total_get. intros st.
  apply total_bind.
  - destruct (_ && _); [|apply total_ret].
    apply total_bind; [apply total_wait_for_shutdown|].
    intros _. apply total_ret.
  - intros _. apply total_when_continuing.
    apply total_try_except; [apply total_call | apply total_logger_error].
Qed.

(** Whatever the state files, the writes and the signals do, and however
    long the calls take, [main], once entered, comes to its end and leaves
    with exit status 0. *)
Lemma kill_all_exits_zero o : kill_all o = Some 0.
Proof.
  unfold kill_all, main, try_finally.
  destruct (total_try_except shutdown logger_error total_shutdown
              total_logger_error (start o)) as [[r st'] ->].
  reflexivity.
Qed.

(** C9, at the failing input: when the log directory cannot be created,
    [setup_logger] raises at the module level and the script ends with
    status 1 before [main] and its [finally: sys.exit(0)] are reached,
    whatever the state files would have done.  The status is 0 whenever
    the logger could be set up, and 1 whenever setting it up raises an
    [Exception]. *)
Theorem kill_all_fails_at_import :
  (∀ o, script no_log_dir o = Some 1)
  ∧ ¬ always_exits_zero
  ∧ (∀ l o, setup_logger l = Return tt → script l o = Some 0)
  ∧ (∀ l o e, setup_logger l = Raise e → is_Exception e = true →
              script l o = Some 1).
Proof.
  split; [done|]. split; [|split].
  - intros H. specialize (H no_log_dir stubborn). discriminate.
  - intros l o Hl. unfold script. rewrite Hl. apply kill_all_exits_zero.
  - intros l o e Hl He. unfold script. rewrite Hl. by destruct e.
Qed.

(** Consumers that never report [deleted]: the script waits its 60
    seconds for each of the seven entities and leaves with status 0. *)
Example kill_all_stubborn :
  kill_all stubborn = Some 0
  ∧ clock <$> (snd <$> main (start stubborn)) = Some 420000.
Proof. vm_compute. split; reflexivity. Qed.

End KillAllFacts.

(** ** State files: reading back, deleting, naming *)

Module StateFilesFacts.
Import ControlPlane StateFiles.

Lemma append_cons a (s r : string) : String a s +:+ r = String a (s +:+ r).
Proof. reflexivity. Qed.

Lemma append_assoc (s1 s2 s3 : string) :
  (s1 +:+ s2) +:+ s3 = s1 +:+ (s2 +:+ s3).
Proof.
  induction s1 as [|a s1 IH]; [done|]. rewrite !append_cons. by f_equal.
Qed.

Lemma append_nil_r (s : string) : s +:+ "" = s.
Proof. induction s as [|a s IH]; [done|]. rewrite append_cons. by f_equal. Qed.

Lemma rev_app_spec s1 s2 : String.rev_app s1 s2 = String.rev s1 +:+ s2.
Proof.
  revert s2. induction s1 as [|a s1 IH]; intros s2; [done|].
  unfold String.rev. cbn [String.rev_app].
  rewrite (IH (String a s2)), (IH (String a "")).
  by rewrite append_assoc.
Qed.

Lemma rev_append s1 s2 :
  String.rev (s1 +:+ s2) = String.rev s2 +:+ String.rev s1.
Proof.
  induction s1 as [|a s1 IH].
  - by rewrite append_nil_r.
  - rewrite append_cons. unfold String.rev at 1 3. cbn [String.rev_app].
    rewrite !rev_app_spec, IH. by rewrite append_assoc.
Qed.

Lemma prefix_append p r : String.prefix p (p +:+ r) = true.
Proof.
  induction p as [|a p IH]; [by destruct r|].
  rewrite append_cons. cbn [String.prefix]. by destruct (ascii_dec a a).
Qed.

Lemma ends_with_append s suffix : ends_with suffix (s +:+ suffix) = true.
Proof. unfold ends_with. rewrite rev_append. apply prefix_append. Qed.

(** Every state file name ends in <<.json>>. *)
Lemma filename_json c m v : ends_with ".json" (filename c m v) = true.
Proof.
  unfold filename. destruct (_ && _); [done|].
  rewrite <- !append_assoc. apply ends_with_append.
Qed.

(** X2: a state that was written is the state that is read, at the first
    poll and for every timeout. *)
Theorem state_write_read_back (fs : gmap string file) c m v s e w timeout :
  obs w 0%nat = state_write c m v s e fs !! filename c m v →
  state_checker w timeout = Some (Return (JStr s)).
Proof.
  intros Hobs. unfold state_write in Hobs. rewrite lookup_insert_eq in Hobs.
  unfold state_checker, state_checker_fuel.
  replace (Z.to_nat timeout + 2)%nat with (S (Z.to_nat timeout + 1)) by lia.
  simpl. rewrite Hobs. simpl.
  by rewrite ControlPlaneFacts.state_data_state.
Qed.

Lemma state_write_read_back_witness :
  obs (frozen (state_write "BTCUSDT" "tst" "v2" "pause" None ∅)
              (filename "BTCUSDT" "tst" "v2")) 0%nat
  = state_write "BTCUSDT" "tst" "v2" "pause" None ∅
      !! filename "BTCUSDT" "tst" "v2"
  ∧ state_checker (frozen (state_write "BTCUSDT" "tst" "v2" "pause" None ∅)
                          (filename "BTCUSDT" "tst" "v2")) 0
    = Some (Return (JStr "pause")).
Proof.
  assert (H : obs (frozen (state_write "BTCUSDT" "tst" "v2" "pause" None ∅)
                          (filename "BTCUSDT" "tst" "v2")) 0%nat
              = state_write "BTCUSDT" "tst" "v2" "pause" None ∅
                  !! filename "BTCUSDT" "tst" "v2") by reflexivity.
  split; [exact H|].
  exact (state_write_read_back ∅ "BTCUSDT" "tst" "v2" "pause" None _ 0 H).
Defined.

(** What the deleting loop leaves of a directory. *)
Lemma lookup_remove_all stuck (names : list string) (fs : gmap string file) name :
  foldl (λ acc n, if ends_with ".json" n then remove stuck n acc else acc)
        fs names !! name
  = if bool_decide (name ∈ names) && ends_with ".json" name
       && negb (bool_decide (name ∈ stuck))
    then None else fs !! name.
Proof.
  revert fs. induction names as [|n names IH]; intros fs.
  - cbn [foldl]. case_bool_decide as H; [by apply elem_of_nil in H | done].
  - cbn [foldl]. rewrite IH.
    destruct (decide (name = n)) as [->|Hne].
    + rewrite (bool_decide_eq_true_2 (n ∈ n :: names)) by left.
      destruct (ends_with ".json" n) eqn:Hj; unfold remove;
        repeat case_bool_decide; simpl; rewrite ?lookup_delete_eq; done.
    + rewrite (bool_decide_ext (name ∈ n :: names) (name ∈ names)).
      2:{ rewrite elem_of_cons. split; [intros [?|?]; done | by right]. }
      assert (Hsame : (if ends_with ".json" n then remove stuck n fs else fs)
                      !! name = fs !! name).
      { destruct (ends_with ".json" n); [|reflexivity]. unfold remove.
        destruct (bool_decide (n ∈ stuck)); [reflexivity|].
        by rewrite lookup_delete_ne. }
      by rewrite Hsame.
Qed.

Lemma state_file_removed stuck (fs : gmap string file) c m v :
  filename c m v ∉ stuck → delete_all_states stuck fs !! filename c m v = None.
Proof.
  intros Hs. unfold delete_all_states. rewrite lookup_remove_all, filename_json.
  rewrite (bool_decide_eq_false_2 _ Hs). simpl. rewrite andb_true_r.
  case_bool_decide as Hin; [done|].
  destruct (fs !! filename c m v) as [f|] eqn:Hf; [|done].
  exfalso. apply Hin. apply list_elem_of_fmap.
  exists (filename c m v, f). split; [done|]. by apply elem_of_map_to_list.
Qed.



(** X4: after the clean-up every entity reads as [unknown], however long the
    reader waits. *)
Theorem unknown_after_delete_all (fs : gmap string file) c m v timeout :
  state_checker (frozen (delete_all_states ∅ fs) (filename c m v)) timeout
  = Some (Return (JStr "unknown")).
Proof.
  set (w := frozen (delete_all_states ∅ fs) (filename c m v)).
  assert (Habs : ∀ k, obs w k = None).
  { intros k. simpl.
    apply state_file_removed, not_elem_of_empty. }
  unfold state_checker, state_checker_fuel.
  destruct (ControlPlaneFacts.state_checker_terminates w timeout) as [r Hr].
  rewrite Hr.
  by rewrite (ControlPlaneFacts.wait_for_file_absent _ _ _ _ _ _ Habs Hr).
Qed.

(** X5: [delete_state] takes away the entity's own file and no other, and
    [get_state_data] then finds nothing. *)
Theorem delete_state_spec (fs : gmap string file) c m v :
  delete_state ∅ c m v fs !! filename c m v = None
  ∧ get_state_data c m v (delete_state ∅ c m v fs) = Return None
  ∧ ∀ name, name ≠ filename c m v → delete_state ∅ c m v fs !! name = fs !! name.
Proof.
  assert (H : delete_state ∅ c m v fs = delete (filename c m v) fs).
  { unfold delete_state, remove.
    rewrite bool_decide_eq_false_2 by apply not_elem_of_empty.
    destruct (fs !! filename c m v) eqn:Hf; [done|].
    symmetry. by apply delete_id. }
  rewrite H. split; [apply lookup_delete_eq|]. split.
  - unfold get_state_data. by rewrite lookup_delete_eq.
  - intros name Hne. by rewrite lookup_delete_ne.
Qed.

End StateFilesFacts.

(** ** Producer: batches, cursor, exit *)

Module PublisherFacts.
Import Data Producer Publisher.

Lemma concat_chunks {A} (l : list A) n c :
  concat ((λ i, take n (drop i l)) <$> ((λ k, k * n)%nat <$> seq 0 c))
  = take (c * n) l.
Proof.
  induction c as [|c IH]; [done|].
  rewrite seq_S, !fmap_app, concat_app, IH. simpl.
  rewrite app_nil_r, take_take_drop. f_equal. lia.
Qed.

Lemma range_covers stop step :
  (0 < step)%nat → (stop ≤ (stop + step - 1) / step * step)%nat.
Proof.
  intros Hs.
  pose proof (Nat.div_mod (stop + step - 1) step ltac:(lia)) as Hd.
  pose proof (Nat.mod_upper_bound (stop + step - 1) step ltac:(lia)) as Hm.
  nia.
Qed.

Lemma send_batches_all df n starts k answers :
  all_sent answers →
  send_batches df n starts k answers
  = (Return tt, (λ i, (i, take n (drop i df))) <$> starts).
Proof.
  intros Hall. revert k. induction starts as [|i starts IH]; intros k; [done|].
  cbn [send_batches]. rewrite Hall, IH. done.
Qed.

(** X6: when the broker takes every batch, the batches that go out are the
    frame cut into pieces of [batch_size] rows: put together again they
    are the frame, row for row, and no piece is longer than
    [batch_size]. *)
Theorem send_df_to_quix_complete df batch_size answers :
  0 < batch_size → all_sent answers →
  ∃ sent, send_df_to_quix df batch_size answers = (Return tt, sent)
          ∧ concat sent.*2 = df
          ∧ Forall (λ b, (length b.2 ≤ Z.to_nat batch_size)%nat) sent
          ∧ length sent
            = ((length df + Z.to_nat batch_size - 1) / Z.to_nat batch_size)%nat.
Proof.
  intros Hpos Hall. unfold send_df_to_quix.
  case_bool_decide as Hdf.
  { subst df. exists []. repeat split; [constructor|].
    simpl. symmetry. apply Nat.div_small. lia. }
  rewrite bool_decide_eq_false_2 by lia.
  rewrite bool_decide_eq_false_2 by lia.
  rewrite send_batches_all by done.
  eexists. split; [reflexivity|]. split; [|split].
  - rewrite <- list_fmap_compose. unfold py_range.
    change (snd ∘ _) with (λ i, take (Z.to_nat batch_size) (drop i df)).
    rewrite concat_chunks. apply take_ge, range_covers. lia.
  - apply Forall_fmap, Forall_forall. intros i _. simpl.
    rewrite length_take. lia.
  - unfold py_range. by rewrite !length_fmap, length_seq.
Qed.

Lemma send_df_to_quix_complete_witness :
  0 < BATCH_SIZE ∧ all_sent broker_up
  ∧ ∃ sent, send_df_to_quix (sample_frame 2500) BATCH_SIZE broker_up
            = (Return tt, sent)
            ∧ concat sent.*2 = sample_frame 2500 ∧ length sent = 3%nat.
Proof.
  assert (H1 : 0 < BATCH_SIZE) by reflexivity.
  assert (H2 : all_sent broker_up) by (intros k; reflexivity).
  split; [exact H1|]. split; [exact H2|].
  destruct (send_df_to_quix_complete (sample_frame 2500) BATCH_SIZE broker_up
              H1 H2) as (sent & Hrun & Hcat & _ & Hlen).
  exists sent. split; [exact Hrun|]. split; [exact Hcat|].
  rewrite Hlen. reflexivity.
Defined.

(** When a batch is refused, the batches before it have gone out, in
    order and complete, nothing after it has, and the exception is the
    caller's. *)
Lemma send_batches_prefix df n starts k answers e sent :
  send_batches df n starts k answers = (Raise e, sent) →
  ∃ j, (j < length starts)%nat
       ∧ sent = (λ i, (i, take n (drop i df))) <$> take j starts
       ∧ publish_batch (answers (k + j)%nat) = Raise e.
Proof.
  revert k sent. induction starts as [|i starts IH]; intros k sent; [done|].
  cbn [send_batches].
  destruct (publish_batch (answers k)) as [[]|e'] eqn:Hp.
  - destruct (send_batches df n starts (S k) answers) as [r sent'] eqn:Hrest.
    intros [= -> <-]. destruct (IH _ _ Hrest) as (j & Hj & -> & Hraise).
    exists (S j). split; [simpl; lia|]. split; [done|].
    by replace (k + S j)%nat with (S k + j)%nat by lia.
  - intros [= -> <-]. exists 0%nat. split; [simpl; lia|]. split; [done|].
    by rewrite Nat.add_0_r.
Qed.

(** X7: when the call raises, it raises what the broker raised for
    batch [j]; the [j] batches before it went out, they hold the first
    [j * batch_size] rows of the frame, and no later batch is sent. *)
Theorem send_df_to_quix_aborts df batch_size answers e sent :
  0 < batch_size →
  send_df_to_quix df batch_size answers = (Raise e, sent) →
  ∃ j, publish_batch (answers j) = Raise e
       ∧ length sent = j
       ∧ concat sent.*2 = take (j * Z.to_nat batch_size) df.
Proof.
  intros Hpos. unfold send_df_to_quix.
  case_bool_decide; [done|].
  rewrite bool_decide_eq_false_2 by lia.
  rewrite bool_decide_eq_false_2 by lia.
  intros (j & Hj & -> & Hraise)%send_batches_prefix.
  exists j. split; [done|]. unfold py_range in *.
  rewrite length_fmap, length_seq in Hj.
  rewrite <- fmap_take, take_seq, Nat.min_l by lia.
  split; [by rewrite !length_fmap, length_seq|].
  rewrite <- list_fmap_compose.
  change (snd ∘ _) with (λ i, take (Z.to_nat batch_size) (drop i df)).
  apply concat_chunks.
Qed.

Lemma send_df_to_quix_aborts_witness :
  0 < BATCH_SIZE
  ∧ ∃ sent, send_df_to_quix (sample_frame 2500) BATCH_SIZE second_refused
            = (Raise too_large, sent)
            ∧ ∃ j, publish_batch (second_refused j) = Raise too_large
                   ∧ length sent = j
                   ∧ concat sent.*2
                     = take (j * Z.to_nat BATCH_SIZE) (sample_frame 2500).
Proof.
  assert (H1 : 0 < BATCH_SIZE) by reflexivity.
  split; [exact H1|].
  exists (send_df_to_quix (sample_frame 2500) BATCH_SIZE second_refused).2.
  assert (Hrun : send_df_to_quix (sample_frame 2500) BATCH_SIZE second_refused
                 = (Raise too_large,
                    (send_df_to_quix (sample_frame 2500) BATCH_SIZE
                       second_refused).2))
    by (vm_compute; reflexivity).
  split; [exact Hrun|].
  exact (send_df_to_quix_aborts _ _ _ _ _ H1 Hrun).
Defined.

End PublisherFacts.

(** ** Producer loop: the cursor and the way out *)

Module ProducerLoopFacts.
Import ControlPlane Data Producer ProducerExit.

Lemma max_open_time_in df m :
  max_open_time df = Some m → ∃ r, r ∈ df ∧ open_time r = m.
Proof.
  destruct df as [|r df]; [done|]. intros [= <-].
  induction df as [|r' df IH]; simpl.
  - exists r. split; [left | done].
  - destruct (Z.max_spec (open_time r') (foldr (λ r'0 m, Z.max (open_time r'0) m)
                                            (open_time r) df)) as [[_ ->]|[_ ->]].
    + destruct IH as (x & Hx & Hm). exists x. split; [|done].
      apply elem_of_cons in Hx as [->|Hx]; [left | right; by right].
    + exists r'. split; [right; left | done].
Qed.

Lemma fetch_cursor env lt r evs :
  fetch_persist_publish env (Some lt) = (Return r, evs) →
  ∃ t, r = Some t ∧ lt ≤ t ∧ (r ≠ Some lt → lt < t).
Proof.
  unfold fetch_persist_publish.
  destruct (fetched env) as [df|e]; [|done].
  case_bool_decide; [intros [= <- _]; exists lt; repeat split; (lia || done)|].
  case_bool_decide as Hnew;
    [intros [= <- _]; exists lt; repeat split; (lia || done)|].
  destruct (persist env) as [[]|e]; [|done].
  assert (Hmax : ∃ t, max_open_time (filter (λ r, lt < open_time r) df) = Some t
                      ∧ lt < t).
  { destruct (max_open_time _) as [t|] eqn:Hm.
    - exists t. split; [done|].
      apply max_open_time_in in Hm as (x & Hx & <-).
      by apply list_elem_of_filter in Hx as [Hx _].
    - by destruct (filter _ df). }
  destruct Hmax as (t & Hmax & Hlt).
  destruct (csv env) as [[]|e]; [|destruct (is_Exception e)]; simpl;
    try done; (destruct (publish env) as [[]|e']; [|done]);
    intros [= <- _]; exists t; repeat split; (done || lia).
Qed.

(** X8: the cursor of the producer never goes back: after a turn of the loop
    that started with [last_time = lt], [last_time] is [lt] or a later
    timestamp, one of a candle that was fetched in this turn. *)
Theorem producer_cursor_monotone env lt :
  ∃ t, (cycle env (Some lt)).1.2 = Some t ∧ lt ≤ t.
Proof.
  assert (Hout : ∀ e evs, (outer_handlers env e (Some lt) evs).1.2 = Some lt).
  { intros e evs. destruct e; simpl; try done.
    by destruct (written_on_interrupt env). }
  assert (Hsame : ∀ c : control * option Z * list event,
            c.1.2 = Some lt → ∃ t, c.1.2 = Some t ∧ lt ≤ t).
  { intros c ->. exists lt. split; [done | lia]. }
  unfold cycle. destruct (polled env) as [state|e]; [|by apply Hsame].
  case_bool_decide; [destruct (written env); by apply Hsame|].
  case_bool_decide; [by apply Hsame|].
  destruct (_ && _); [by apply Hsame|].
  destruct (if bool_decide (state = JStr "start") then _ else _) as [pre|e];
    [|by apply Hsame].
  destruct (fetch_persist_publish env (Some lt)) as [[r|e] evs] eqn:Hf.
  - apply fetch_cursor in Hf as (t & -> & Hle & _). by exists t.
  - destruct (is_Exception e); by apply Hsame.
Qed.

Lemma fetch_raise env lt e evs :
  fetch_persist_publish env lt = (Raise e, evs) → raises env e.
Proof.
  unfold fetch_persist_publish, raises.
  destruct (fetched env) as [df|e0]; [|intros [= ->]; tauto].
  case_bool_decide; [done|]. case_bool_decide; [done|].
  destruct (persist env) as [[]|e0]; [|intros [= ->]; tauto].
  destruct (csv env) as [[]|e0].
  - simpl. destruct (publish env) as [[]|e1]; [done|]. intros [= ->]. tauto.
  - destruct (is_Exception e0); simpl.
    + destruct (publish env) as [[]|e1]; [done|]. intros [= ->]. tauto.
    + intros [= ->]. tauto.
Qed.

(** The handlers let nothing out but what is not an [Exception], or what
    the write after a [KeyboardInterrupt] raises. *)
Lemma outer_handlers_propagate env e0 lt evs e :
  (outer_handlers env e0 lt evs).1.1 = Propagate e →
  is_Exception e0 = false.
Proof.
  destruct e0; simpl; try done.
Qed.

Lemma cycle_propagate env lt e :
  (cycle env lt).1.1 = Propagate e →
  ∃ e0, raises env e0 ∧ is_Exception e0 = false.
Proof.
  unfold cycle. destruct (polled env) as [state|e0] eqn:Hp.
  - case_bool_decide.
    { destruct (written env) as [[]|e0] eqn:Hw; [done|].
      intros He%outer_handlers_propagate. exists e0.
      split; [right; by left | done]. }
    case_bool_decide; [done|]. destruct (_ && _); [done|].
    destruct (if bool_decide (state = JStr "start") then _ else _)
      as [pre|e0] eqn:Hstarted.
    + destruct (fetch_persist_publish env lt) as [[r|e0] evs] eqn:Hf; [done|].
      apply fetch_raise in Hf. destruct (is_Exception e0) eqn:He0; [done|].
      intros _. by exists e0.
    + intros He%outer_handlers_propagate. exists e0. split; [|done].
      revert Hstarted. case_bool_decide; [|done].
      destruct (written env) as [[]|e1] eqn:Hw; [done|].
      intros [= <-]. right; by left.
  - intros He%outer_handlers_propagate. exists e0.
    split; [by left | done].
Qed.

(** X9: the producer leaves its loop with a status other than 0 only when a
    collaborator raises something that is not an [Exception]; as long as
    the state file, the download, the store, the CSV file and the broker
    raise nothing but [Exception]s, it stays in the loop or leaves with
    status 0. *)
Theorem producer_exit_status envs lt code :
  (main_loop envs lt).1 = Exited code → code ≠ 0 →
  ∃ env e, env ∈ envs ∧ raises env e ∧ is_Exception e = false.
Proof.
  revert lt. induction envs as [|env envs IH]; intros lt; [done|].
  cbn [main_loop].
  destruct (cycle env lt) as [[ctrl lt'] evs] eqn:Hc.
  destruct ctrl as [| |e].
  - simpl. intros [= <-]. done.
  - destruct (main_loop envs lt') as [st evs'] eqn:Hrest. simpl.
    intros -> Hcode. specialize (IH lt'). rewrite Hrest in IH.
    destruct (IH eq_refl Hcode) as (env' & e & Hin & Hr & He).
    exists env', e. split; [by right | done].
  - simpl. intros _ _.
    destruct (cycle_propagate env lt e) as (e0 & Hr & He0);
      [by rewrite Hc|].
    exists env, e0. split; [left | done].
Qed.

Lemma producer_exit_status_witness :
  let env := {| polled := Raise (SystemExit 3); written := Return tt;
                written_on_interrupt := Return tt; fetched := Return [];
                persist := Return tt; csv := Return tt; publish := Return tt;
                to_next_minute := 0 |} in
  (main_loop [env] None).1 = Exited 3 ∧ 3 ≠ 0
  ∧ ∃ env' e, env' ∈ [env] ∧ raises env' e ∧ is_Exception e = false.
Proof.
  intros env.
  assert (H1 : (main_loop [env] None).1 = Exited 3) by reflexivity.
  assert (H2 : 3 ≠ 0) by discriminate.
  split; [exact H1|]. split; [exact H2|].
  exact (producer_exit_status [env] None 3 H1 H2).
Defined.

End ProducerLoopFacts.

(** ** Bulk insert: what is stored, and what is kept *)

Module MergeFacts.
Import Data Firestore CryptoDB Merge CryptoDBFacts.

Lemma doc_data_other r k : k ∉ required_cols → doc_data r !! k = None.
Proof.
  intros Hk. unfold doc_data.
  repeat (rewrite lookup_insert_ne;
          [|intros <-; apply Hk; unfold required_cols;
            repeat (first [left | right])]).
  done.
Qed.

Lemma doc_data_in r k : k ∈ required_cols → is_Some (doc_data r !! k).
Proof.
  unfold required_cols, doc_data. intros Hk.
  repeat (apply elem_of_cons in Hk as [->|Hk];
          [by simplify_map_eq; eauto|]).
  by apply elem_of_nil in Hk.
Qed.

Lemma doc_data_over r2 r1 (old : doc) :
  doc_data r2 ∪ (doc_data r1 ∪ old) = doc_data r2 ∪ old.
Proof.
  apply map_eq. intros k. destruct (decide (k ∈ required_cols)) as [Hk|Hk].
  - destruct (doc_data_in r2 k Hk) as [v Hv].
    by rewrite !(lookup_union_Some_l _ _ _ _ Hv).
  - rewrite !lookup_union_r by (by apply doc_data_other). done.
Qed.

Lemma merged_snoc (c : collection) rows r :
  merged c (rows ++ [r])
  = <[open_time r := doc_data r ∪ default ∅ (merged c rows !! open_time r)]>
      (merged c rows).
Proof. unfold merged. by rewrite foldl_app. Qed.

(** A document after the rows have been written: the candle columns of
    the last row with its timestamp over what was there, or what was
    there if no row has its timestamp. *)
Lemma lookup_merged (c : collection) rows id :
  merged c rows !! id
  = match last_row id rows with
    | Some r => Some (doc_data r ∪ default ∅ (c !! id))
    | None => c !! id
    end.
Proof.
  unfold last_row. induction rows as [|r rows IH] using rev_ind; [done|].
  rewrite merged_snoc, filter_app.
  destruct (decide (open_time r = id)) as [<-|Hne].
  - rewrite lookup_insert_eq.
    assert (filter (λ r0, open_time r0 = open_time r) [r] = [r]) as ->
      by (by rewrite filter_cons_True).
    rewrite last_snoc. f_equal. rewrite IH.
    destruct (last _) as [r'|]; [|done]. simpl. apply doc_data_over.
  - rewrite lookup_insert_ne by done.
    assert (filter (λ r0, open_time r0 = id) [r] = []) as ->
      by (by rewrite filter_cons_False).
    by rewrite app_nil_r.
Qed.

Lemma apply_batch_app (c : collection) ws1 ws2 :
  apply_batch c (ws1 ++ ws2) = apply_batch c ws1 ≫= λ c', apply_batch c' ws2.
Proof.
  revert c. induction ws1 as [|w ws1 IH]; intros c; [done|].
  simpl. destruct (apply_write c w); [apply IH | done].
Qed.

Lemma apply_batch_merged (c : collection) rows :
  apply_batch c (sets rows) = Some (merged c rows).
Proof. revert c. induction rows as [|r rows IH]; intros c; [done|]. apply IH. Qed.

Lemma merged_app (c : collection) rows1 rows2 :
  merged c (rows1 ++ rows2) = merged (merged c rows1) rows2.
Proof. apply foldl_app. Qed.

(** The row loop with no commit refused: what is committed, and what is
    still in the open batch, together are all the rows. *)
Lemma insert_loop_store name rows idx brows total w :
  faults w = [] → (length brows < BATCH_LIMIT)%nat →
  ∃ brows' total' w',
    insert_loop name rows idx (sets brows) total w
      = (Return (sets brows', total'), w')
    ∧ faults w' = []
    ∧ merged (coll_of w' name) brows' = merged (coll_of w name) (brows ++ rows)
    ∧ ∀ other, other ≠ name → coll_of w' other = coll_of w other.
Proof.
  revert idx brows total w.
  induction rows as [|r rows IH]; intros idx brows total w Hf Hlen.
  - exists brows, total, w. rewrite app_nil_r. done.
  - cbn [insert_loop]. rewrite sets_snoc.
    unfold mbind, M_bind.
    assert (Hsleep : ∀ (b : bool) w1, faults w1 = [] →
      ∃ w2, (if b then sleep 100 else mret tt) w1 = (Return tt, w2)
            ∧ faults w2 = [] ∧ store w2 = store w1).
    { intros b w1 Hf1. destruct b; by eexists. }
    assert (Hsnoc : length (sets (brows ++ [r])) = S (length brows)).
    { unfold sets. rewrite length_fmap, length_app. simpl. lia. }
    case_bool_decide as Hfull.
    + unfold commit_full_batch, try_except.
      rewrite (commit_quiet _ _ _ _ Hf (apply_batch_merged _ _)).
      destruct (Hsleep (bool_decide (idx mod 1000 = 0)%nat)
                  {| store := <[name := merged (coll_of w name) (brows ++ [r])]>
                                (store w);
                     faults := [];
                     log := log w ++ [Committed name (sets (brows ++ [r]))] |}
                  eq_refl) as (w2 & Hrun2 & Hf2 & Hst2).
      unfold mret, M_ret in *. rewrite Hrun2.
      destruct (IH (S idx) [] (total + length (sets (brows ++ [r])))%nat w2 Hf2)
        as (brows' & total' & w' & Hrun & Hf' & Hm & Hoth).
      { unfold BATCH_LIMIT. simpl. lia. }
      exists brows', total', w'. split; [exact Hrun|]. split; [done|].
      assert (Hc2 : ∀ n, coll_of w2 n
                         = if bool_decide (n = name)
                           then merged (coll_of w name) (brows ++ [r])
                           else coll_of w n).
      { intros n. unfold coll_of. rewrite Hst2. simpl.
        destruct (decide (n = name)) as [->|Hn].
        - by rewrite bool_decide_eq_true_2, lookup_insert_eq.
        - by rewrite bool_decide_eq_false_2, lookup_insert_ne. }
      split.
      * rewrite Hm, Hc2, bool_decide_eq_true_2 by done. simpl.
        rewrite <- merged_app. by rewrite <- app_assoc.
      * intros other Hne. rewrite Hoth, Hc2 by done.
        by rewrite bool_decide_eq_false_2.
    + destruct (Hsleep (bool_decide (idx mod 1000 = 0)%nat) w Hf)
        as (w2 & Hrun2 & Hf2 & Hst2).
      unfold mret, M_ret in *. rewrite Hrun2.
      destruct (IH (S idx) (brows ++ [r]) total w2 Hf2)
        as (brows' & total' & w' & Hrun & Hf' & Hm & Hoth).
      { rewrite length_app. unfold BATCH_LIMIT in *. cbn [length]. lia. }
      exists brows', total', w'. split; [exact Hrun|]. split; [done|].
      unfold coll_of in *. rewrite Hst2 in *.
      split; [|done]. by rewrite Hm, <- app_assoc.
Qed.

Lemma lower_ascii_idemp c : lower_ascii (lower_ascii c) = lower_ascii c.
Proof. destruct c as [[] [] [] [] [] [] [] []]; reflexivity. Qed.

Lemma lower_idemp s : lower (lower s) = lower s.
Proof.
  induction s as [|c s IH]; [done|]. simpl. by rewrite lower_ascii_idemp, IH.
Qed.

Lemma bulk_insert_store table df w :
  faults w = [] → df ≠ [] →
  ∃ w', bulk_insert_df table df w = (Return tt, w')
        ∧ faults w' = []
        ∧ coll_of w' (lower table)
          = trimmed (merged (coll_of w (lower table)) df)
        ∧ ∀ other, other ≠ lower table → coll_of w' other = coll_of w other.
Proof.
  intros Hf Hdf. unfold bulk_insert_df.
  rewrite bool_decide_eq_false_2 by done.
  unfold mbind, M_bind.
  destruct (insert_loop_store (lower table) df 1 [] 0 w Hf)
    as (brows' & total' & w1 & Hrun & Hf1 & Hm1 & Hoth1).
  { unfold BATCH_LIMIT. cbn [length]. lia. }
  change (sets []) with (@nil write) in Hrun. rewrite Hrun.
  rewrite app_nil_l in Hm1.
  assert (Hfinal : ∃ w2,
    (if bool_decide (0 < length (sets brows'))%nat
     then commit (lower table) (sets brows') else mret tt) w1 = (Return tt, w2)
    ∧ faults w2 = []
    ∧ coll_of w2 (lower table) = merged (coll_of w (lower table)) df
    ∧ ∀ other, other ≠ lower table → coll_of w2 other = coll_of w other).
  { case_bool_decide as Hrem.
    - rewrite (commit_quiet _ _ _ _ Hf1 (apply_batch_merged _ _)).
      eexists. split; [done|]. split; [done|]. split.
      + by rewrite coll_of_insert.
      + intros other Hne. rewrite coll_of_insert_ne by done. by apply Hoth1.
    - exists w1. split; [done|]. split; [done|]. split; [|done].
      destruct brows'; [done|]. simpl in Hrem. lia. }
  destruct Hfinal as (w2 & -> & Hf2 & Hc2 & Hoth2).
  destruct (keep_last_quiet (lower table) w2 Hf2) as (w3 & Hrun3 & Hf3 & _).
  rewrite Hrun3. apply keep_last_returns in Hrun3 as [Hc3 Hoth3].
  rewrite lower_idemp in Hc3, Hoth3.
  exists w3. split; [done|]. split; [done|]. split.
  - by rewrite Hc3, Hc2.
  - intros other Hne. unfold coll_of at 1. rewrite Hoth3 by done.
    by apply Hoth2.
Qed.

(** X10: [bulk_insert_df] writes the six candle columns and merges: a stored
    document keeps every other field it had (a prediction column
    survives the re-insertion of its candle, and none is added); its
    candle columns are those of the last row of the frame with its
    timestamp; and a document no row of the frame names is as before. *)
Theorem bulk_insert_df_merges table df w :
  faults w = [] →
  ∃ w', bulk_insert_df table df w = (Return tt, w')
    ∧ ∀ id d, coll_of w' (lower table) !! id = Some d →
        (∀ k, k ∉ required_cols →
              d !! k = default ∅ (coll_of w (lower table) !! id) !! k)
        ∧ (∀ r k, last_row id df = Some r → k ∈ required_cols →
                  d !! k = doc_data r !! k)
        ∧ (last_row id df = None → coll_of w (lower table) !! id = Some d).
Proof.
  intros Hf. destruct (decide (df = [])) as [->|Hdf].
  - exists w. split; [done|]. intros id d Hd. rewrite Hd. done.
  - destruct (bulk_insert_store table df w Hf Hdf) as (w' & Hrun & _ & Hc & _).
    exists w'. split; [exact Hrun|]. intros id d. rewrite Hc.
    intros [Hm _]%lookup_trimmed. rewrite lookup_merged in Hm.
    destruct (last_row id df) as [r|]; [|by rewrite Hm].
    injection Hm as <-. split; [|split; [|done]].
    + intros k Hk. by rewrite lookup_union_r by (by apply doc_data_other).
    + intros r' k [= <-] Hk. destruct (doc_data_in r k Hk) as [v Hv].
      rewrite Hv. by apply lookup_union_Some_l.
Qed.

Lemma bulk_insert_df_merges_witness :
  faults (quiet scored_store) = []
  ∧ ∃ w', bulk_insert_df "BTCUSDT" [candle t2024 43000] (quiet scored_store)
          = (Return tt, w')
    ∧ ∀ d, coll_of w' "btcusdt" !! t2024 = Some d →
           d !! "lightgbm_v1" = Some (VVec sample_pred)
           ∧ d !! "close" = Some (VNum 43000).
Proof.
  split; [reflexivity|].
  destruct (bulk_insert_df_merges "BTCUSDT" [candle t2024 43000]
              (quiet scored_store) eq_refl) as (w' & Hrun & Hdoc).
  exists w'. split; [exact Hrun|]. intros d Hd.
  destruct (Hdoc t2024 d Hd) as (Hkeep & Hnew & _). split.
  - rewrite Hkeep; [reflexivity|].
    unfold required_cols. intros H.
    repeat (apply elem_of_cons in H as [H|H]; [discriminate|]).
    by apply elem_of_nil in H.
  - rewrite (Hnew (candle t2024 43000) "close" eq_refl); [reflexivity|].
    unfold required_cols. do 4 right. left.
Defined.

End MergeFacts.

(** ** Retention: exactly what goes; validation of an upsert *)

Module RetentionFacts.
Import Data Firestore CryptoDB StoreSamples CryptoDBFacts.

(** X11: retention deletes the documents older than the cutoff and only
    those: a document is there after the run exactly when it was there
    before, unchanged, and has no time field or one within 180 days of
    the latest; other collections are not touched; and a second run
    changes nothing. *)
Theorem retention_exact table w w' :
  keep_last_365_days table w = (Return tt, w') →
  (∀ id d, coll_of w' (lower table) !! id = Some d ↔
           coll_of w (lower table) !! id = Some d
           ∧ ∀ latest t, latest_time (coll_of w (lower table)) = Some latest →
                         doc_time d = Some t → latest - 180 * day ≤ t)
  ∧ (∀ other, other ≠ lower table → coll_of w' other = coll_of w other)
  ∧ (∀ w'', keep_last_365_days table w' = (Return tt, w'') →
            coll_of w'' (lower table) = coll_of w' (lower table)).
Proof.
  intros [Hc Hoth]%keep_last_returns. split; [|split].
  - intros id d. rewrite Hc. apply lookup_trimmed.
  - intros other Hne. unfold coll_of. by rewrite Hoth.
  - intros w'' [Hc' _]%keep_last_returns. by rewrite Hc', Hc, trimmed_idemp.
Qed.

Lemma retention_exact_witness :
  ∃ w', keep_last_365_days "BTCUSDT" (quiet sample_store) = (Return tt, w')
        ∧ coll_of w' "btcusdt" !! 0 = None
        ∧ is_Some (coll_of w' "btcusdt" !! t2024).
Proof.
  destruct (keep_last_quiet "BTCUSDT" (quiet sample_store) eq_refl)
    as (w' & Hrun & _).
  exists w'. split; [exact Hrun|].
  destruct (retention_exact "BTCUSDT" (quiet sample_store) w' Hrun)
    as (Hexact & _ & _).
  split.
  - destruct (coll_of w' "btcusdt" !! 0) as [d|] eqn:Hd; [|done].
    apply (Hexact 0 d) in Hd as [Hold Hwin].
    injection Hold as <-.
    specialize (Hwin t2024 0 ltac:(vm_compute; reflexivity)
                  ltac:(vm_compute; reflexivity)).
    vm_compute in Hwin. by exfalso; apply Hwin.
  - exists (doc_data (candle t2024 42000)). apply (Hexact t2024). split.
    + vm_compute. reflexivity.
    + intros latest t Hl Ht. vm_compute in Hl, Ht.
      injection Hl as <-. injection Ht as <-. vm_compute. discriminate.
Defined.

(** X12: an upsert whose lists do not match is rejected with [ValueError],
    and one with no predictions returns at once; either way the retention
    trim has already been done, and nothing else. *)
Theorem upsert_predictions_validation table model version open_times
    predictions df w :
  faults w = [] →
  predictions = [] ∨ length open_times ≠ length predictions →
  ∃ w', upsert_predictions table model version open_times predictions df
          THRESHOLD w
        = (if bool_decide (predictions = []) then Return tt
           else Raise ValueError, w')
      ∧ coll_of w' (lower table) = trimmed (coll_of w (lower table))
      ∧ ∀ other, other ≠ lower table → coll_of w' other = coll_of w other.
Proof.
  intros Hf Hcase. unfold upsert_predictions.
  unfold mbind at 1. unfold M_bind at 1.
  destruct (keep_last_quiet table w Hf) as (w1 & Hrun1 & _ & _).
  rewrite Hrun1. apply keep_last_returns in Hrun1 as [Hc1 Hoth1].
  exists w1. split; [|split; [done|]].
  - destruct predictions as [|p ps].
    + by rewrite bool_decide_eq_true_2.
    + destruct Hcase as [|Hlen]; [done|].
      rewrite (bool_decide_eq_false_2 (length (p :: ps) = 0%nat)) by done.
      rewrite (bool_decide_eq_true_2 _ Hlen).
      by rewrite (bool_decide_eq_false_2 (p :: ps = [])).
  - intros other Hne. unfold coll_of. by rewrite Hoth1.
Qed.

Lemma upsert_predictions_validation_witness :
  faults (quiet sample_store) = []
  ∧ ([sample_pred] = [] ∨ length [t2024; t2024 + minute] ≠ length [sample_pred])
  ∧ ∃ w', upsert_predictions "BTCUSDT" "lightgbm" "v1" [t2024; t2024 + minute]
            [sample_pred] [] THRESHOLD (quiet sample_store)
          = (Raise ValueError, w')
        ∧ coll_of w' "btcusdt" !! 0 = None.
Proof.
  assert (H1 : faults (quiet sample_store) = []) by reflexivity.
  assert (H2 : [sample_pred] = []
               ∨ length [t2024; t2024 + minute] ≠ length [sample_pred])
    by (right; discriminate).
  split; [exact H1|]. split; [exact H2|].
  destruct (upsert_predictions_validation "BTCUSDT" "lightgbm" "v1"
              [t2024; t2024 + minute] [sample_pred] [] (quiet sample_store)
              H1 H2) as (w' & Hrun & Hc & _).
  exists w'. split; [exact Hrun|].
  change (lower "BTCUSDT") with "btcusdt" in Hc. rewrite Hc.
  vm_compute. reflexivity.
Defined.

End RetentionFacts.

(** ** Baseline, lookup and rollback of the version manager *)

Module VersionOpsFacts.
Import VersionManager VersionOps VersionManagerFacts.

Lemma get_bind {B} (f : manager → VM B) m : (get ≫= f) m = f m m.
Proof. reflexivity. Qed.

Lemma get_model_path_found ty version m sl info :
  version ∈ ["1"; "2"; "3"] →
  models (reg m) !! ty = Some sl → slot_of version sl = Some info →
  is_Some (fs m !! slot_path info) →
  get_model_path ty version m = (Return (Some (slot_path info)), m).
Proof.
  intros Hv Hsl Hinfo Hex. unfold get_model_path.
  rewrite (bool_decide_eq_true_2 _ Hv).
  rewrite (vm_bind_return _ _ _ _ _ (get_slots_spec ty m sl Hsl)).
  rewrite Hinfo, get_bind. by rewrite (bool_decide_eq_true_2 _ Hex).
Qed.

Lemma get_model_path_missing ty version m sl :
  version ∈ ["1"; "2"; "3"] →
  models (reg m) !! ty = Some sl →
  (∀ info, slot_of version sl = Some info → fs m !! slot_path info = None) →
  get_model_path ty version m = (Return None, m).
Proof.
  intros Hv Hsl Hno. unfold get_model_path.
  rewrite (bool_decide_eq_true_2 _ Hv).
  rewrite (vm_bind_return _ _ _ _ _ (get_slots_spec ty m sl Hsl)).
  destruct (slot_of version sl) as [info|]; [|done].
  rewrite get_bind. rewrite bool_decide_eq_false_2; [done|].
  rewrite (Hno info eq_refl). by intros [? ?].
Qed.

Lemma copy_if_exists_spec (p : path) (dest : dir) m :
  p.1 ≠ dest →
  ∃ f', copy_if_exists p dest m = (Return tt, with_fs m f')
        ∧ (∀ q : path, q ≠ (dest, p.2) → f' !! q = fs m !! q)
        ∧ (f' !! (dest, p.2) = fs m !! (dest, p.2)
           ∨ f' !! (dest, p.2) = fs m !! p).
Proof.
  intros Hne. unfold copy_if_exists. rewrite get_bind.
  case_bool_decide as Hex.
  - destruct Hex as [c Hc].
    rewrite (copy2_spec p (dest, p.2) m c Hc).
    2:{ intros Heq. apply Hne. by rewrite Heq. }
    eexists. split; [done|]. split.
    + intros q Hq. by rewrite lookup_insert_ne.
    + right. by rewrite lookup_insert_eq.
  - exists (fs m). destruct m. split; [done|]. split; [done|]. by left.
Qed.

(** X13: the first [initialize_baseline] of a model type puts the artifact
    into slot 1, leaves slots 2 and 3 and every file outside the slot's
    directory alone, and saves the registry; from then on the baseline is
    fixed: whatever a later call is given, it changes nothing. *)
Theorem baseline_write_once ty (src : path) meta now m sl c :
  models (reg m) !! ty = Some sl → v1 sl = None →
  fs m !! src = Some c → src.1 ≠ get_model_dir m ty "1" →
  ∃ m' i1,
    initialize_baseline ty src meta now m = (Return tt, m')
    ∧ models (reg m') !! ty
      = Some {| v1 := Some i1; v2 := v2 sl; v3 := v3 sl |}
    ∧ slot_path i1 = (get_model_dir m ty "1", src.2)
    ∧ slot_artifact m' ty v1 = Some c
    ∧ get_model_path ty "1" m' = (Return (Some (slot_path i1)), m')
    ∧ saved m' = Some (reg m')
    ∧ (∀ q : path, q.1 ≠ get_model_dir m ty "1" → fs m' !! q = fs m !! q)
    ∧ ∀ src' meta' now',
        initialize_baseline ty src' meta' now' m' = (Return tt, m').
Proof.
  intros Hsl Hv1 Hc Hne.
  set (d1 := get_model_dir m ty "1").
  set (m1 := with_fs m (<[(d1, src.2) := c]> (fs m))).
  assert (Hside : ∀ name, ∃ f2,
    copy_if_exists (src.1, name) d1 m1 = (Return tt, with_fs m1 f2)
    ∧ (∀ q : path, q.1 ≠ d1 → f2 !! q = fs m !! q)
    ∧ f2 !! (d1, src.2) = Some c).
  { intros name.
    destruct (copy_if_exists_spec (src.1, name) d1 m1 Hne)
      as (f2 & Hrun & Hout & Hin). simpl in Hout, Hin.
    exists f2. split; [exact Hrun|]. split.
    - intros q Hq. rewrite Hout by (intros ->; by apply Hq).
      apply lookup_insert_ne. intros <-. by apply Hq.
    - destruct (decide (name = src.2)) as [->|Hn].
      + destruct Hin as [H|H]; rewrite H.
        * apply lookup_insert_eq.
        * rewrite lookup_insert_ne by (intros [=]; by apply Hne).
          by destruct src.
      + rewrite Hout by congruence. apply lookup_insert_eq. }
  assert (Hstep : ∃ f2,
    (if bool_decide (ty = "lightgbm") then
       copy_if_exists
         (src.1, str_replace ".txt" "_features.pkl" src.2) d1
     else if bool_decide (ty = "tst") then
       copy_if_exists
         (src.1, str_replace "tst_model.pth" "tst_scaler.pkl" src.2) d1
     else mret tt) m1 = (Return tt, with_fs m1 f2)
    ∧ (∀ q : path, q.1 ≠ d1 → f2 !! q = fs m !! q)
    ∧ f2 !! (d1, src.2) = Some c).
  { repeat case_bool_decide; try apply Hside.
    exists (fs m1). split; [done|]. split.
    - intros q Hq. simpl. apply lookup_insert_ne. intros <-. by apply Hq.
    - apply lookup_insert_eq. }
  destruct Hstep as (f2 & Hrun2 & Hout2 & Hin2).
  set (i1 := {| slot_path := (d1, src.2); created_at := now;
                promoted_at := None; rolled_back_at := None;
                created_from_v1 := false; metadata := default ∅ meta |}).
  set (m2 := with_slots (with_fs m1 f2) ty
               {| v1 := Some i1; v2 := v2 sl; v3 := v3 sl |}).
  exists (save_registry now m2).2, i1.
  assert (Hrun : initialize_baseline ty src meta now m
                 = (Return tt, (save_registry now m2).2)).
  { unfold initialize_baseline.
    rewrite (vm_bind_return _ _ _ _ _ (get_slots_spec ty m sl Hsl)).
    rewrite Hv1, bool_decide_eq_false_2 by (by intros [? ?]).
    rewrite get_bind.
    rewrite bool_decide_eq_false_2 by (by rewrite Hc).
    assert (Hsd : src ≠ (d1, src.2)) by (intros Heq; apply Hne; by rewrite Heq).
    rewrite (vm_bind_return _ _ _ _ _ (copy2_spec src (d1, src.2) m c Hc Hsd)).
    fold d1 m1.
    rewrite (vm_bind_return _ _ _ _ _ Hrun2).
    rewrite (vm_bind_return _ _ _ _ _
               (get_slots_spec ty (with_fs m1 f2) sl Hsl)).
    rewrite (vm_bind_return _ _ _ _ _ (set_slots_spec _ _ _)).
    reflexivity. }
  assert (Hreg : models (reg (save_registry now m2).2) !! ty
                 = Some {| v1 := Some i1; v2 := v2 sl; v3 := v3 sl |})
    by (simpl; apply lookup_insert_eq).
  split; [exact Hrun|]. split; [exact Hreg|]. split; [done|].
  split; [by eapply slot_artifact_spec|].
  split.
  { eapply get_model_path_found; [left | exact Hreg | done |].
    by exists c. }
  split; [done|]. split; [exact Hout2|].
  intros src' meta' now'. unfold initialize_baseline.
  rewrite (vm_bind_return _ _ _ _ _ (get_slots_spec ty _ _ Hreg)).
  by rewrite bool_decide_eq_true_2.
Qed.

Lemma baseline_write_once_witness :
  let src : path := (["out"], "lgb_model.txt") in
  models (reg new_manager) !! "lightgbm" = Some empty_slots
  ∧ v1 empty_slots = None
  ∧ fs new_manager !! src = Some "A"
  ∧ src.1 ≠ get_model_dir new_manager "lightgbm" "1"
  ∧ ∃ m', initialize_baseline "lightgbm" src None 1 new_manager
          = (Return tt, m')
        ∧ slot_artifact m' "lightgbm" v1 = Some "A"
        ∧ fs m' !! (["models"; "lightgbm"; "v1"], "lgb_model_features.pkl")
          = Some "features of A"
        ∧ initialize_baseline "lightgbm" (["out"], "other.txt") None 2 m'
          = (Return tt, m').
Proof.
  intros src.
  assert (H1 : models (reg new_manager) !! "lightgbm" = Some empty_slots)
    by reflexivity.
  assert (H2 : v1 empty_slots = None) by reflexivity.
  assert (H3 : fs new_manager !! src = Some "A") by reflexivity.
  assert (H4 : src.1 ≠ get_model_dir new_manager "lightgbm" "1")
    by discriminate.
  repeat (split; [assumption|]).
  destruct (baseline_write_once "lightgbm" src None 1 new_manager
              empty_slots "A" H1 H2 H3 H4)
    as (m' & i1 & Hrun & _ & _ & Hart & _ & _ & _ & Honce).
  exists m'. split; [exact Hrun|]. split; [exact Hart|]. split; [|apply Honce].
  assert (Hm : m' = (initialize_baseline "lightgbm" src None 1 new_manager).2)
    by (by rewrite Hrun).
  rewrite Hm. vm_compute. reflexivity.
Defined.


Lemma strip_dir_Some (a b r : dir) : strip_dir a b = Some r ↔ b = a ++ r.
Proof.
  revert b. induction a as [|x a IH]; intros b; simpl.
  - split; [by intros [= ->] | by intros ->].
  - destruct b as [|y b]; [done|]. case_bool_decide as Hxy.
    + subst y. rewrite IH. split; [by intros -> | by intros [= ->]].
    + split; [done|]. intros [= -> _]. by destruct Hxy.
Qed.

Lemma strip_dir_base (base a b : dir) :
  strip_dir (base ++ a) (base ++ b) = strip_dir a b.
Proof.
  induction base as [|x base IH]; [done|]. simpl.
  by rewrite bool_decide_eq_true_2.
Qed.

Lemma strip_dir_below (a b r : dir) :
  strip_dir a b = None → strip_dir a (b ++ r) = None
                         ∨ ∃ r', a = b ++ r'.
Proof.
  revert b. induction a as [|x a IH]; intros b; simpl; [done|].
  destruct b as [|y b]; simpl.
  - intros _. right. by eexists.
  - case_bool_decide as Hxy; [|by left]. subst y. intros H.
    destruct (IH b H) as [?|[r' ->]]; [by left|]. right. by eexists.
Qed.

(** Copying files of [src] into another directory: each name found is
    overwritten in [dest], everything else stays. *)
Lemma copy_all_exact (src dest : dir) found m :
  src ≠ dest →
  Forall (λ pc : path * string, pc.1.1 = src ∧ is_Some (fs m !! pc.1)) found →
  ∃ f', copy_all found dest m = (Return tt, with_fs m f')
        ∧ (∀ q : path, q.1 ≠ dest → f' !! q = fs m !! q)
        ∧ (∀ n, f' !! (dest, n)
                = if bool_decide ((src, n) ∈ found.*1) then fs m !! (src, n)
                  else fs m !! (dest, n)).
Proof.
  intros Hne. revert m.
  induction found as [|[[d n0] c0] found IH]; intros m Hall.
  - exists (fs m). destruct m. split; [done|]. split; [done|].
    intros n. by rewrite bool_decide_eq_false_2 by apply not_elem_of_nil.
  - apply Forall_cons in Hall as [[Hd [c Hc]] Hall]. simpl in Hd, Hc. subst d.
    cbn [copy_all].
    rewrite (vm_bind_return _ _ _ _ _ (copy2_spec (src, n0) (dest, n0) m c Hc
               ltac:(congruence))).
    destruct (IH (with_fs m (<[(dest, n0) := c]> (fs m))))
      as (f' & Hrun & Hout & Hin).
    { eapply Forall_impl; [exact Hall|]. intros [[d n] c1] [Hd Hs]. simpl in *.
      split; [done|]. subst d. by rewrite lookup_insert_ne by congruence. }
    exists f'. split; [exact Hrun|]. simpl in Hout, Hin. split.
    + intros q Hq. rewrite Hout by done. rewrite lookup_insert_ne; [done|].
      intros <-. by apply Hq.
    + intros n. rewrite Hin. rewrite fmap_cons. cbn [fst].
      rewrite (lookup_insert_ne _ (dest, n0) (src, n)) by congruence.
      destruct (decide (n = n0)) as [->|Hn].
      * rewrite (bool_decide_eq_true_2 ((src, n0) ∈ (src, n0) :: found.*1))
          by left.
        rewrite lookup_insert_eq. by case_bool_decide.
      * rewrite lookup_insert_ne by congruence.
        apply (f_equal (λ b : bool, if b then _ else _)).
        apply bool_decide_ext. rewrite elem_of_cons.
        split; [by right | intros [[=]|?]; done].
Qed.

Lemma elem_of_iterdir (d : dir) (f : files) :
  Forall (λ pc : path * string, pc.1.1 = d ∧ is_Some (f !! pc.1)) (iterdir d f)
  ∧ ∀ n, (d, n) ∈ (iterdir d f).*1 ↔ is_Some (f !! (d, n)).
Proof.
  split.
  - apply Forall_forall. intros [q c] Hin. unfold iterdir in Hin.
    apply list_elem_of_filter in Hin as [Hd Hin].
    apply elem_of_map_to_list in Hin. split; [done|]. by exists c.
  - intros n. rewrite list_elem_of_fmap. split.
    + intros ([q c] & -> & Hin). apply list_elem_of_filter in Hin as [_ Hin].
      apply elem_of_map_to_list in Hin. by exists c.
    + intros [c Hc]. exists ((d, n), c). split; [done|].
      apply list_elem_of_filter. split; [done|]. by apply elem_of_map_to_list.
Qed.

Lemma elem_of_tree (src : dir) (f : files) rel n :
  (rel, n) ∈ tree src f ↔ is_Some (f !! (src ++ rel, n)).
Proof.
  unfold tree. rewrite list_elem_of_omap. split.
  - intros ([[d n'] c] & Hin & Hrel). simpl in Hrel.
    destruct (strip_dir src d) as [r|] eqn:Hs; [|done].
    injection Hrel as -> ->. apply strip_dir_Some in Hs as ->.
    apply elem_of_map_to_list in Hin. by exists c.
  - intros [c Hc]. exists ((src ++ rel, n), c). split.
    + by apply elem_of_map_to_list.
    + simpl. by rewrite (proj2 (strip_dir_Some src (src ++ rel) rel) eq_refl).
Qed.

(** Copying a tree to a place that is neither inside nor around it: the
    copy holds every file of the tree, and nothing outside the copy
    changes. *)
Lemma copy_tree_spec (src dst : dir) (f0 : files) found :
  strip_dir src dst = None → strip_dir dst src = None →
  Forall (λ e : dir * string, is_Some (f0 !! (src ++ e.1, e.2))) found →
  ∀ m, (∀ q : path, strip_dir dst q.1 = None → fs m !! q = f0 !! q) →
  ∃ f', copy_tree found src dst false m = (Return tt, with_fs m f')
        ∧ (∀ q : path, strip_dir dst q.1 = None → f' !! q = f0 !! q)
        ∧ (∀ rel n, (rel, n) ∈ found
                    ∨ fs m !! (dst ++ rel, n) = f0 !! (src ++ rel, n) →
                    f' !! (dst ++ rel, n) = f0 !! (src ++ rel, n)).
Proof.
  intros Hsd Hds.
  assert (Hsrc : ∀ rel, strip_dir dst (src ++ rel) = None).
  { intros rel. destruct (strip_dir_below dst src rel Hds) as [H|[r' H]];
      [done|].
    apply (proj2 (strip_dir_Some src dst r')) in H. congruence. }
  induction found as [|[rel0 n0] found IH]; intros Hall m Hframe.
  - exists (fs m). destruct m. split; [done|]. split; [done|].
    intros rel n [Hin|H]; [by apply elem_of_nil in Hin | done].
  - apply Forall_cons in Hall as [[c Hc] Hall]. simpl in Hc.
    cbn [copy_tree].
    assert (Hcm : fs m !! (src ++ rel0, n0) = Some c)
      by (by rewrite Hframe by apply Hsrc).
    rewrite (copy2_spec (src ++ rel0, n0) (dst ++ rel0, n0) m c Hcm).
    2:{ intros [= Heq]. specialize (Hsrc rel0). rewrite Heq in Hsrc.
        by rewrite (proj2 (strip_dir_Some dst (dst ++ rel0) rel0) eq_refl)
          in Hsrc. }
    destruct (IH Hall (with_fs m (<[(dst ++ rel0, n0) := c]> (fs m))))
      as (f' & Hrun & Hout & Hin).
    { intros q Hq. simpl. rewrite lookup_insert_ne; [by apply Hframe|].
      intros <-. simpl in Hq.
      by rewrite (proj2 (strip_dir_Some dst (dst ++ rel0) rel0) eq_refl) in Hq. }
    exists f'. split; [exact Hrun|]. split; [exact Hout|].
    intros rel n Hcase. apply Hin. simpl.
    destruct (decide ((rel, n) = (rel0, n0))) as [[= -> ->]|Hne].
    + right. by rewrite lookup_insert_eq.
    + destruct Hcase as [Hel|Hold].
      * apply elem_of_cons in Hel as [?|?]; [done | by left].
      * right. rewrite lookup_insert_ne; [done|].
        intros [= Heq ->]. apply app_inv_head in Heq. congruence.
Qed.

Lemma copytree_spec (src dst : dir) m :
  strip_dir src dst = None → strip_dir dst src = None →
  ∃ f', copytree src dst m = (Return tt, with_fs m f')
        ∧ (∀ q : path, strip_dir dst q.1 = None → f' !! q = fs m !! q)
        ∧ (∀ rel n, is_Some (fs m !! (src ++ rel, n)) →
                    f' !! (dst ++ rel, n) = fs m !! (src ++ rel, n)).
Proof.
  intros Hsd Hds. unfold copytree. rewrite get_bind.
  rewrite bool_decide_eq_false_2 by (rewrite Hsd; by intros [? ?]).
  destruct (copy_tree_spec src dst (fs m) (tree src (fs m)) Hsd Hds)
    with (m := m) as (f' & Hrun & Hout & Hin); [|done|].
  { apply Forall_forall. intros [rel n] H. by apply elem_of_tree in H. }
  exists f'. split; [exact Hrun|]. split; [exact Hout|].
  intros rel n Hex. apply Hin. left. by apply elem_of_tree.
Qed.

Lemma slot_dir_not_backup base ty version stamp :
  strip_dir (base ++ [ty; "backups"; "v3_backup_" +:+ stamp])
            (base ++ [ty; "v" +:+ version]) = None
  ∧ strip_dir (base ++ [ty; "v" +:+ version])
              (base ++ [ty; "backups"; "v3_backup_" +:+ stamp]) = None.
Proof.
  rewrite !strip_dir_base. cbn [strip_dir].
  rewrite (bool_decide_eq_false_2 ("v" +:+ version = "backups")) by done.
  split; by repeat case_bool_decide.
Qed.


Lemma slot_dirs_distinct m ty version version' :
  version ≠ version' →
  get_model_dir m ty version ≠ get_model_dir m ty version'.
Proof.
  intros Hne H. unfold get_model_dir in H. apply app_inv_head in H.
  injection H as H. by apply Hne.
Qed.

(** X14: a rollback to slot 1 or 2 whose artifact is on disk copies the files
    of that slot over slot 3 and registers the artifact there, with the
    time of the rollback; slots 1 and 2 stay as they are, the files slot
    3 had are first saved in a backup directory, a history entry is added
    and the registry is saved.  Files of the old slot 3 that the target
    does not overwrite stay in slot 3. *)
Theorem rollback_restores ty target now stamp m sl info c :
  models (reg m) !! ty = Some sl →
  target ∈ ["1"; "2"] →
  slot_of target sl = Some info →
  fs m !! slot_path info = Some c →
  own_dirs m ty →
  let v3_dir := get_model_dir m ty "3" in
  ∃ m' i3,
    rollback_to_version ty target now stamp m = (Return tt, m')
    ∧ models (reg m') !! ty
      = Some {| v1 := v1 sl; v2 := v2 sl; v3 := Some i3 |}
    ∧ slot_path i3 = (v3_dir, (slot_path info).2)
    ∧ created_at i3 = created_at info ∧ metadata i3 = metadata info
    ∧ rolled_back_at i3 = Some now
    ∧ slot_artifact m' ty v3 = Some c
    ∧ (∀ n, fs m' !! (v3_dir, n)
            = match fs m !! ((slot_path info).1, n) with
              | Some x => Some x
              | None => fs m !! (v3_dir, n)
              end)
    ∧ (∀ old rel n, v3 sl = Some old → is_Some (fs m !! slot_path old) →
                    is_Some (fs m !! (v3_dir ++ rel, n)) →
                    fs m' !! (backup_dir m ty stamp ++ rel, n)
                    = fs m !! (v3_dir ++ rel, n))
    ∧ (∀ q : path, q.1 ≠ v3_dir →
                   strip_dir (backup_dir m ty stamp) q.1 = None →
                   fs m' !! q = fs m !! q)
    ∧ version_history (reg m')
      = version_history (reg m)
        ++ [{| h_model_type := ty; h_action := "rollback";
               h_timestamp := now; h_version := target;
               h_promoted := false |}]
    ∧ saved m' = Some (reg m')
    ∧ own_dirs m' ty.
Proof.
  intros Hsl Ht Hinfo Hc Hown v3_dir.
  assert (Ht12 : target = "1" ∨ target = "2").
  { apply elem_of_cons in Ht as [?|Ht]; [by left|].
    apply list_elem_of_singleton in Ht. by right. }
  assert (Ht3 : target ∈ ["1"; "2"; "3"])
    by (destruct Ht12 as [-> | ->]; [left | right; left]).
  assert (Htd : (slot_path info).1 = get_model_dir m ty target)
    by (by eapply Hown).
  assert (Hne : (slot_path info).1 ≠ v3_dir).
  { rewrite Htd. apply slot_dirs_distinct. by destruct Ht12 as [->| ->]. }
  destruct (slot_dir_not_backup (base_models_dir m) ty "3" stamp)
    as [Hb3 H3b].
  destruct (slot_dir_not_backup (base_models_dir m) ty target stamp)
    as [Hbt _].
  fold (backup_dir m ty stamp) in Hb3, H3b, Hbt.
  fold (get_model_dir m ty "3") in Hb3, H3b. fold v3_dir in Hb3, H3b.
  fold (get_model_dir m ty target) in Hbt. rewrite <- Htd in Hbt.
  (* the backup *)
  assert (Hbackup : ∃ f1,
    backup_v3 ty stamp sl m = (Return tt, with_fs m f1)
    ∧ (∀ q : path, strip_dir (backup_dir m ty stamp) q.1 = None →
                   f1 !! q = fs m !! q)
    ∧ (∀ old rel n, v3 sl = Some old → is_Some (fs m !! slot_path old) →
                    is_Some (fs m !! (v3_dir ++ rel, n)) →
                    f1 !! (backup_dir m ty stamp ++ rel, n)
                    = fs m !! (v3_dir ++ rel, n))).
  { unfold backup_v3. destruct (v3 sl) as [old|] eqn:Hold.
    - rewrite get_bind. cbv zeta. case_bool_decide as Hex.
      + assert (Hod : (slot_path old).1 = v3_dir).
        { eapply (Hown sl "3"); [done|]. unfold slot_of.
          by repeat (rewrite bool_decide_eq_false_2 by done). }
        rewrite Hod.
        destruct (copytree_spec v3_dir (backup_dir m ty stamp) m H3b Hb3)
          as (f1 & Hrun & Hout & Hin).
        exists f1. split; [exact Hrun|]. split; [exact Hout|].
        intros old' rel n _ _. apply Hin.
      + exists (fs m). destruct m. split; [done|]. split; [done|].
        intros old' rel n [= <-] Hex'. done.
    - exists (fs m). destruct m. split; [done|]. split; [done|]. done. }
  destruct Hbackup as (f1 & Hrun1 & Hout1 & Hin1).
  set (m1 := with_fs m f1).
  (* the files of the target slot *)
  assert (Hc1 : fs m1 !! slot_path info = Some c)
    by (simpl; by rewrite Hout1).
  destruct (elem_of_iterdir (slot_path info).1 (fs m1)) as [Hall Hmem].
  destruct (copy_all_exact (slot_path info).1 v3_dir _ m1 Hne Hall)
    as (f2 & Hrun2 & Hout2 & Hin2).
  set (i3 := {| slot_path := (v3_dir, (slot_path info).2);
                created_at := created_at info; promoted_at := None;
                rolled_back_at := Some now; created_from_v1 := false;
                metadata := metadata info |}).
  set (h := {| h_model_type := ty; h_action := "rollback";
               h_timestamp := now; h_version := target;
               h_promoted := false |}).
  set (m2 := with_slots (with_fs m1 f2) ty
               {| v1 := v1 sl; v2 := v2 sl; v3 := Some i3 |}).
  exists (save_registry now (append_history h m2).2).2, i3.
  assert (Hv3 : ∀ n, f2 !! (v3_dir, n)
                     = match fs m !! ((slot_path info).1, n) with
                       | Some x => Some x
                       | None => fs m !! (v3_dir, n)
                       end).
  { intros n. rewrite Hin2.
    assert (Hs : fs m1 !! ((slot_path info).1, n)
                 = fs m !! ((slot_path info).1, n)) by (simpl; by rewrite Hout1).
    assert (Hd : fs m1 !! (v3_dir, n) = fs m !! (v3_dir, n))
      by (simpl; by rewrite Hout1).
    case_bool_decide as Hel.
    - apply Hmem in Hel as [x Hx]. rewrite Hx. rewrite <- Hs. by rewrite Hx.
    - rewrite Hd. destruct (fs m !! ((slot_path info).1, n)) as [x|] eqn:Hx;
        [|done].
      exfalso. apply Hel, Hmem. rewrite Hs. by exists x. }
  split.
  { unfold rollback_to_version.
    rewrite (bool_decide_eq_true_2 _ Ht).
    rewrite (vm_bind_return _ _ _ _ _
               (get_model_path_found ty target m sl info Ht3 Hsl Hinfo
                  ltac:(by exists c))).
    rewrite (vm_bind_return _ _ _ _ _ (get_slots_spec ty m sl Hsl)).
    rewrite (vm_bind_return _ _ _ _ _ Hrun1). fold m1.
    rewrite get_bind. cbv zeta.
    change (get_model_dir m1 ty "3") with v3_dir.
    rewrite (vm_bind_return _ _ _ _ _ Hrun2).
    rewrite (vm_bind_return _ _ _ _ _
               (get_slots_spec ty (with_fs m1 f2) sl Hsl)).
    rewrite Hinfo.
    rewrite (vm_bind_return _ _ _ _ _ (set_slots_spec _ _ _)).
    reflexivity. }
  assert (Hreg : models (reg (save_registry now (append_history h m2).2).2)
                 !! ty = Some {| v1 := v1 sl; v2 := v2 sl; v3 := Some i3 |})
    by (simpl; apply lookup_insert_eq).
  split; [exact Hreg|]. split; [done|]. split; [done|]. split; [done|].
  split; [done|].
  assert (Hart : f2 !! (v3_dir, (slot_path info).2) = Some c).
  { rewrite Hv3. replace ((slot_path info).1, (slot_path info).2)
      with (slot_path info) by (by destruct (slot_path info)).
    by rewrite Hc. }
  split; [by eapply slot_artifact_spec|].
  split; [exact Hv3|]. split.
  { intros old rel n Hold Hex Hfile. simpl. rewrite Hout2.
    - by eapply Hin1.
    - simpl. intros Heq.
      assert (Hs : strip_dir (backup_dir m ty stamp)
                     (backup_dir m ty stamp ++ rel) = Some rel)
        by (by apply strip_dir_Some).
      rewrite Heq in Hs. congruence. }
  split.
  { intros q Hq3 Hqb. simpl. rewrite Hout2 by done. by apply Hout1. }
  split; [done|]. split; [done|].
  intros sl' version info' Hsl' Hslot. rewrite Hreg in Hsl'.
  injection Hsl' as <-.
  change (get_model_dir _ ty version) with (get_model_dir m ty version).
  unfold slot_of in Hslot. cbn [v1 v2 v3] in Hslot.
  repeat case_bool_decide; subst; try done.
  - eapply (Hown sl "1"); [done|]. done.
  - eapply (Hown sl "2"); [done|]. done.
  - by injection Hslot as <-.
Qed.


Lemma rollback_restores_witness :
  let m := rotated_manager in
  models (reg m) !! "lightgbm" = Some rotated_slots
  ∧ "1" ∈ ["1"; "2"]
  ∧ slot_of "1" rotated_slots = Some baseline_info
  ∧ fs m !! slot_path baseline_info = Some "A"
  ∧ own_dirs m "lightgbm"
  ∧ slot_artifact m "lightgbm" v3 = Some "C"
  ∧ ∃ m', rollback_to_version "lightgbm" "1" 3 "20240101_000000" m
          = (Return tt, m')
        ∧ slot_artifact m' "lightgbm" v1 = Some "A"
        ∧ slot_artifact m' "lightgbm" v2 = Some "B"
        ∧ slot_artifact m' "lightgbm" v3 = Some "A"
        ∧ fs m' !! (["models"; "lightgbm"; "backups";
                     "v3_backup_20240101_000000"], "model_c.txt") = Some "C".
Proof.
  intros m.
  assert (H1 : models (reg m) !! "lightgbm" = Some rotated_slots)
    by (vm_compute; reflexivity).
  assert (H2 : "1" ∈ ["1"; "2"]) by left.
  assert (H3 : slot_of "1" rotated_slots = Some baseline_info)
    by (vm_compute; reflexivity).
  assert (H4 : fs m !! slot_path baseline_info = Some "A")
    by (vm_compute; reflexivity).
  assert (H5 : own_dirs m "lightgbm").
  { intros sl' version info Hsl Hslot. rewrite H1 in Hsl. injection Hsl as <-.
    unfold slot_of in Hslot.
    repeat case_bool_decide; try discriminate Hslot;
      vm_compute in Hslot; injection Hslot as <-; subst version;
      vm_compute; reflexivity. }
  assert (H6 : slot_artifact m "lightgbm" v3 = Some "C")
    by (vm_compute; reflexivity).
  repeat (split; [assumption|]).
  destruct (rollback_restores "lightgbm" "1" 3 "20240101_000000" m
              rotated_slots baseline_info "A" H1 H2 H3 H4 H5)
    as (m' & i3 & Hrun & Hreg & _ & _ & _ & _ & Hart & _ & Hbak & Hout & _).
  exists m'. split; [exact Hrun|].
  assert (Hm : m' = (rollback_to_version "lightgbm" "1" 3
                       "20240101_000000" m).2) by (by rewrite Hrun).
  split; [rewrite Hm; vm_compute; reflexivity|].
  split; [rewrite Hm; vm_compute; reflexivity|].
  split; [exact Hart|].
  rewrite Hm. vm_compute. reflexivity.
Defined.

(** X15: a rollback to anything but slot 1 or 2, or to a slot that is empty or
    whose artifact is no longer on disk, raises [ValueError] and changes
    neither the registry nor the files. *)
Theorem rollback_rejects ty target now stamp m :
  target ∉ ["1"; "2"]
  ∨ (∃ sl, models (reg m) !! ty = Some sl
           ∧ ∀ info, slot_of target sl = Some info →
                     fs m !! slot_path info = None) →
  rollback_to_version ty target now stamp m = (Raise ValueError, m).
Proof.
  intros Hcase. unfold rollback_to_version.
  case_bool_decide as Ht; [|done].
  destruct Hcase as [Hno|(sl & Hsl & Hgone)]; [done|].
  assert (Ht3 : target ∈ ["1"; "2"; "3"]).
  { apply elem_of_cons in Ht as [->|Ht]; [left|].
    apply list_elem_of_singleton in Ht as ->. right; left. }
  by rewrite (vm_bind_return _ _ _ _ _
                (get_model_path_missing ty target m sl Ht3 Hsl Hgone)).
Qed.

Lemma rollback_rejects_witness :
  ("3" ∉ ["1"; "2"]
   ∨ (∃ sl, models (reg sample_manager) !! "lightgbm" = Some sl
            ∧ ∀ info, slot_of "3" sl = Some info →
                      fs sample_manager !! slot_path info = None))
  ∧ rollback_to_version "lightgbm" "3" 1 "s" sample_manager
    = (Raise ValueError, sample_manager)
  ∧ rollback_to_version "lightgbm" "2" 1 "s" sample_manager
    = (Raise ValueError, sample_manager).
Proof.
  assert (H : "3" ∉ ["1"; "2"]
              ∨ (∃ sl, models (reg sample_manager) !! "lightgbm" = Some sl
                       ∧ ∀ info, slot_of "3" sl = Some info →
                                 fs sample_manager !! slot_path info = None)).
  { left. intros Hin. apply elem_of_cons in Hin as [?|Hin]; [done|].
    by apply list_elem_of_singleton in Hin. }
  split; [exact H|]. split.
  - exact (rollback_rejects "lightgbm" "3" 1 "s" sample_manager H).
  - apply rollback_rejects. right. eexists. split; [reflexivity|]. done.
Defined.

(** *** The registry never points outside the slot directories *)

Lemma get_slots_bind {B} ty (f : slots → VM B) m :
  (get_slots ty ≫= f) m
  = match models (reg m) !! ty with
    | Some sl => f sl m
    | None => (Raise KeyError, m)
    end.
Proof.
  unfold get_slots, mbind, VM_bind, get. by destruct (models (reg m) !! ty).
Qed.

Section Invariant.
Variables (b : dir) (ty' : string).

Local Abbreviation keeps := (preserves b ty').

Lemma good_with_fs m f : good b ty' m → good b ty' (with_fs m f).
Proof. done. Qed.

Lemma keeps_bind {A B} (c : VM A) (f : A → VM B) :
  keeps c → (∀ a, keeps (f a)) → keeps (c ≫= f).
Proof.
  intros Hc Hf m Hm. unfold mbind, VM_bind. specialize (Hc m Hm).
  destruct (c m) as [[a|e] m1]; [by apply Hf | done].
Qed.

Lemma keeps_get {B} (f : manager → VM B) :
  (∀ m0, base_models_dir m0 = b → keeps (f m0)) → keeps (get ≫= f).
Proof. intros Hf m Hm. rewrite get_bind. apply Hf; [apply Hm | done]. Qed.

Lemma keeps_ret {A} (a : A) : keeps (mret a).
Proof. by intros m. Qed.

Lemma keeps_raise {A} e : keeps (@vm_raise A e).
Proof. by intros m. Qed.

Lemma keeps_copy2 src dst : keeps (copy2 src dst).
Proof.
  intros m Hm. unfold copy2. rewrite get_bind.
  destruct (fs m !! src); [|done]. by case_bool_decide.
Qed.

Lemma keeps_copy_all found dest : keeps (copy_all found dest).
Proof.
  induction found as [|[p c] found IH]; [apply keeps_ret|].
  cbn [copy_all]. apply keeps_bind; [apply keeps_copy2 | done].
Qed.

Lemma keeps_copy_associated_files ty src dest :
  keeps (copy_associated_files ty src dest).
Proof. apply keeps_get. intros m0 _. apply keeps_copy_all. Qed.

Lemma keeps_copy_if_exists p dest : keeps (copy_if_exists p dest).
Proof.
  apply keeps_get. intros m0 _.
  case_bool_decide; [apply keeps_copy2 | apply keeps_ret].
Qed.

Lemma keeps_copy_tree found src dst failed :
  keeps (copy_tree found src dst failed).
Proof.
  revert failed. induction found as [|[rel n] found IH]; intros failed.
  - simpl. destruct failed; [apply keeps_raise | apply keeps_ret].
  - intros m Hm. cbn [copy_tree].
    pose proof (keeps_copy2 (src ++ rel, n) (dst ++ rel, n) m Hm) as H.
    destruct (copy2 _ _ m) as [[[]|e] m1]; by apply IH.
Qed.

Lemma keeps_copytree src dst : keeps (copytree src dst).
Proof.
  apply keeps_get. intros m0 _.
  case_bool_decide; [apply keeps_raise | apply keeps_copy_tree].
Qed.

Lemma keeps_get_slots {B} ty (f : slots → VM B) :
  (∀ sl, keeps (f sl)) → keeps (get_slots ty ≫= f).
Proof.
  intros Hf. apply keeps_bind; [|done]. intros m Hm.
  unfold get_slots. rewrite get_bind. by destruct (models (reg m) !! ty).
Qed.

Lemma keeps_append_history h : keeps (append_history h).
Proof. by intros m Hm. Qed.

Lemma keeps_save_registry now : keeps (save_registry now).
Proof. by intros m Hm. Qed.

(** Writing back the slots just read, with entries that are the old ones
    or lie in their slot's directory. *)
Lemma good_with_slots ty (sl new : slots) m :
  good b ty' m → models (reg m) !! ty = Some sl →
  (∀ version info,
     slot_of version new = Some info →
     slot_of version sl = Some info
     ∨ (slot_path info).1 = b ++ [ty; "v" +:+ version]) →
  good b ty' (with_slots m ty new).
Proof.
  intros [Hb Hown] Hsl Hnew. split; [done|].
  intros sl' version info Hsl' Hslot. simpl in Hsl'.
  change (get_model_dir _ ty' version) with (get_model_dir m ty' version).
  destruct (decide (ty = ty')) as [->|Hne].
  - rewrite lookup_insert_eq in Hsl'. injection Hsl' as <-.
    destruct (Hnew version info Hslot) as [Hold|Hdir].
    + by eapply Hown.
    + rewrite Hdir. unfold get_model_dir. by rewrite Hb.
  - rewrite lookup_insert_ne in Hsl' by done. by eapply Hown.
Qed.

Lemma keeps_update {B} ty (g : slots → slots) (k : unit → VM B) :
  (∀ sl version info,
     slot_of version (g sl) = Some info →
     slot_of version sl = Some info
     ∨ (slot_path info).1 = b ++ [ty; "v" +:+ version]) →
  (∀ x, keeps (k x)) →
  keeps (get_slots ty ≫= λ sl, set_slots ty (g sl) ≫= k).
Proof.
  intros Hg Hk m Hm. rewrite get_slots_bind.
  destruct (models (reg m) !! ty) as [sl|] eqn:Hsl; [|done].
  change ((set_slots ty (g sl) ≫= k) m)
    with (k tt (with_slots m ty (g sl))).
  apply Hk. eapply good_with_slots; [done..|]. apply Hg.
Qed.

Lemma keeps_update_last ty (g : slots → slots) :
  (∀ sl version info,
     slot_of version (g sl) = Some info →
     slot_of version sl = Some info
     ∨ (slot_path info).1 = b ++ [ty; "v" +:+ version]) →
  keeps (get_slots ty ≫= λ sl, set_slots ty (g sl)).
Proof.
  intros Hg m Hm. rewrite get_slots_bind.
  destruct (models (reg m) !! ty) as [sl|] eqn:Hsl; [|done].
  eapply good_with_slots; [done..|]. apply Hg.
Qed.

Lemma keeps_fill_v2 ty from entry :
  (∀ p, slot_path (entry p) = p) → keeps (fill_v2 ty from entry).
Proof.
  intros Hentry. apply keeps_get. intros m0 Hb.
  destruct (fs m0 !! slot_path from); [|apply keeps_ret].
  apply keeps_bind; [apply keeps_copy2|]. intros _.
  apply keeps_bind; [apply keeps_copy_associated_files|]. intros _.
  apply (keeps_update_last ty
           (λ sl, {| v1 := v1 sl;
                     v2 := Some (entry (get_model_dir m0 ty "2",
                                        (slot_path from).2));
                     v3 := v3 sl |})).
  intros sl version info. unfold slot_of; cbn [v1 v2 v3].
  repeat case_bool_decide; try done; try (by left); subst version.
  intros [= <-]. right. rewrite Hentry. unfold get_model_dir. by rewrite Hb.
Qed.

Lemma keeps_register_new_model ty src meta now :
  keeps (register_new_model ty src meta now).
Proof.
  apply keeps_get. intros m0 Hb0.
  case_bool_decide; [apply keeps_raise|].
  apply keeps_get_slots. intros sl.
  apply keeps_bind.
  { destruct (v3 sl); [by apply keeps_fill_v2|].
    destruct (v1 sl); [|apply keeps_ret].
    destruct (v2 sl); [apply keeps_ret | by apply keeps_fill_v2]. }
  intros _. apply keeps_get. intros m1 Hb1.
  apply keeps_bind; [apply keeps_copy2|]. intros _.
  apply keeps_bind; [apply keeps_copy_associated_files|]. intros _.
  apply (keeps_update ty
           (λ sl, {| v1 := v1 sl; v2 := v2 sl;
                     v3 := Some {| slot_path := (get_model_dir m1 ty "3", src.2);
                                   created_at := now; promoted_at := None;
                                   rolled_back_at := None;
                                   created_from_v1 := false;
                                   metadata := default ∅ meta |} |})).
  - intros sl' version info. unfold slot_of; cbn [v1 v2 v3].
    repeat case_bool_decide; try done; try (by left); subst version.
    intros [= <-]. right. unfold get_model_dir. by rewrite Hb1.
  - intros _. apply keeps_get_slots. intros sl'.
    apply keeps_bind; [apply keeps_append_history|]. intros _.
    apply keeps_bind; [apply keeps_save_registry|]. intros _.
    apply keeps_ret.
Qed.

Lemma keeps_initialize_baseline ty src meta now :
  keeps (initialize_baseline ty src meta now).
Proof.
  unfold initialize_baseline. apply keeps_get_slots. intros sl.
  case_bool_decide; [apply keeps_ret|].
  apply keeps_get. intros m0 Hb0.
  case_bool_decide; [apply keeps_raise|].
  apply keeps_bind; [apply keeps_copy2|]. intros _.
  apply keeps_bind.
  { repeat case_bool_decide;
      first [apply keeps_copy_if_exists | apply keeps_ret]. }
  intros _.
  apply (keeps_update ty
           (λ sl0, {| v1 := Some {| slot_path := (get_model_dir m0 ty "1", src.2);
                                    created_at := now; promoted_at := None;
                                    rolled_back_at := None;
                                    created_from_v1 := false;
                                    metadata := default ∅ meta |};
                      v2 := v2 sl0; v3 := v3 sl0 |})
           (λ _, save_registry now)).
  - intros sl' version info. unfold slot_of; cbn [v1 v2 v3].
    repeat case_bool_decide; try done; try (by left); subst version.
    intros [= <-]. right. unfold get_model_dir. by rewrite Hb0.
  - intros _. apply keeps_save_registry.
Qed.

Lemma keeps_get_model_path {B} ty version (f : option path → VM B) :
  (∀ p, keeps (f p)) → keeps (get_model_path ty version ≫= f).
Proof.
  intros Hf. apply keeps_bind; [|done]. unfold get_model_path.
  case_bool_decide; [|apply keeps_raise].
  apply keeps_get_slots. intros sl.
  destruct (slot_of version sl); [|apply keeps_ret].
  apply keeps_get. intros m0 _. case_bool_decide; apply keeps_ret.
Qed.

Lemma keeps_rollback_to_version ty target now stamp :
  keeps (rollback_to_version ty target now stamp).
Proof.
  unfold rollback_to_version. case_bool_decide; [|apply keeps_raise].
  apply keeps_get_model_path. intros [target_path|]; [|apply keeps_raise].
  apply keeps_get_slots. intros sl.
  apply keeps_bind.
  { unfold backup_v3. destruct (v3 sl); [|apply keeps_ret].
    apply keeps_get. intros m0 _.
    cbv zeta. case_bool_decide; [apply keeps_copytree | apply keeps_ret]. }
  intros _. apply keeps_get. intros m1 Hb1. cbv zeta.
  apply keeps_bind; [apply keeps_copy_all|]. intros _.
  intros m Hm. rewrite get_slots_bind.
  destruct (models (reg m) !! ty) as [sl1|] eqn:Hsl1; [|done].
  destruct (slot_of target sl1) as [target_info|] eqn:Hti; [|done].
  set (g := λ sl0 : slots,
         {| v1 := v1 sl0; v2 := v2 sl0;
            v3 := Some {| slot_path := (get_model_dir m1 ty "3", target_path.2);
                          created_at := created_at target_info;
                          promoted_at := None; rolled_back_at := Some now;
                          created_from_v1 := false;
                          metadata := metadata target_info |} |}).
  pose proof (keeps_update ty g
                (λ _, append_history
                        {| h_model_type := ty; h_action := "rollback";
                           h_timestamp := now; h_version := target;
                           h_promoted := false |} ;; save_registry now)) as Hupd.
  specialize (Hupd ltac:(
    intros sl' version info; unfold slot_of, g; cbn [v1 v2 v3];
    repeat case_bool_decide; try done; try (by left); subst version;
    intros [= <-]; right; unfold get_model_dir; by rewrite Hb1)).
  specialize (Hupd ltac:(
    intros ?; apply keeps_bind; [apply keeps_append_history|];
    intros ?; apply keeps_save_registry) m Hm).
  rewrite get_slots_bind, Hsl1 in Hupd. exact Hupd.
Qed.

End Invariant.

(** X16: once every registered artifact lies in the directory of its slot,
    that stays so through [initialize_baseline], [register_new_model] and
    [rollback_to_version], for every model type, whether the call returns
    or raises part of the way. *)
Theorem registry_stays_in_slot_dirs ty' m :
  own_dirs m ty' →
  (∀ ty src meta now, own_dirs (initialize_baseline ty src meta now m).2 ty')
  ∧ (∀ ty src meta now, own_dirs (register_new_model ty src meta now m).2 ty')
  ∧ (∀ ty target now stamp,
       own_dirs (rollback_to_version ty target now stamp m).2 ty').
Proof.
  intros Hown.
  assert (Hgood : good (base_models_dir m) ty' m) by done.
  split; [|split]; intros.
  - by apply (keeps_initialize_baseline (base_models_dir m) ty').
  - by apply (keeps_register_new_model (base_models_dir m) ty').
  - by apply (keeps_rollback_to_version (base_models_dir m) ty').
Qed.

Lemma registry_stays_in_slot_dirs_witness :
  own_dirs sample_manager "lightgbm"
  ∧ own_dirs (register_new_model "lightgbm" (["out"], "model_b.txt") None 1
                sample_manager).2 "lightgbm"
  ∧ own_dirs (register_new_model "lightgbm" (["out"], "missing.txt") None 1
                sample_manager).2 "lightgbm".
Proof.
  assert (H : own_dirs sample_manager "lightgbm").
  { intros sl version info Hsl Hslot. injection Hsl as <-.
    unfold slot_of in Hslot.
    repeat case_bool_decide; subst; try done.
    injection Hslot as <-. reflexivity. }
  split; [exact H|].
  destruct (registry_stays_in_slot_dirs "lightgbm" sample_manager H)
    as (_ & Hreg & _).
  split; apply Hreg.
Defined.


End VersionOpsFacts.

(** ** The consumer callback: cursor, window and redelivery *)

Module ConsumerWindowFacts.
Import ControlPlane Data Consumer ConsumerWindow.

Lemma filter_none {A} (P : A → Prop) `{∀ x, Decision (P x)} (l : list A) :
  Forall (λ x, ¬ P x) l → filter P l = [].
Proof.
  induction 1 as [|x l Hx _ IH]; [done|].
  by rewrite filter_cons_False.
Qed.

Lemma last_last_n {A} (n : nat) (l : list A) :
  (0 < n)%nat → last (last_n n l) = last l.
Proof.
  intros Hn. unfold last_n. rewrite !last_lookup, lookup_drop, length_drop.
  destruct l as [|x l]; [done|]. f_equal. simpl. lia.
Qed.

Lemma length_last_n {A} (n : nat) (l : list A) :
  (n < length l)%nat → length (last_n n l) = n.
Proof. intros H. unfold last_n. rewrite length_drop. lia. Qed.

Lemma length_slide st df :
  (length (slide st df) ≤ seq_len)%nat.
Proof.
  unfold slide. case_bool_decide as H.
  - by rewrite length_last_n.
  - lia.
Qed.

Lemma last_slide st df r :
  last df = Some r → last (last_n seq_len (slide st df)) = Some r.
Proof.
  intros Hr. rewrite last_last_n by (unfold seq_len; lia).
  unfold slide. case_bool_decide.
  - rewrite last_last_n by (unfold seq_len; lia).
    by rewrite last_app, Hr.
  - by rewrite last_app, Hr.
Qed.

Lemma row_le_trans : Transitive row_le.
Proof. intros a b c. unfold row_le. lia. Qed.

Lemma row_le_total : Total row_le.
Proof. intros a b. unfold row_le. lia. Qed.

(** The last of the fresh rows is the latest candle of the message. *)
Lemma last_fresh_rows st rows r :
  last (fresh_rows st rows) = Some r →
  r ∈ rows
  ∧ (∀ r', r' ∈ rows → open_time r' ≤ open_time r)
  ∧ (∀ t, last_processed_time st = Some t → t < open_time r).
Proof.
  intros Hlast.
  assert (Hsorted : StronglySorted row_le (merge_sort row_le rows))
    by apply (@StronglySorted_merge_sort _ row_le _ row_le_trans row_le_total).
  assert (Hperm : ∀ x, x ∈ merge_sort row_le rows ↔ x ∈ rows).
  { intros x. by rewrite merge_sort_Permutation. }
  assert (Hmax : ∀ l x, StronglySorted row_le l → last l = Some x →
                        ∀ y, y ∈ l → open_time y ≤ open_time x).
  { intros l x Hs Hl y Hy. apply last_Some in Hl as [l' ->].
    apply elem_of_app in Hy as [Hy|Hy].
    - eapply (StronglySorted_app_1_elem_of row_le l' [x]); [done..|left].
    - apply list_elem_of_singleton in Hy as ->. lia. }
  unfold fresh_rows in Hlast. cbv zeta in Hlast.
  destruct (last_processed_time st) as [t|] eqn:Ht.
  - pose proof (last_Some_elem_of _ _ Hlast) as Hin.
    apply list_elem_of_filter in Hin as [Hlt Hin].
    split; [by apply Hperm|]. split; [|by intros t' [= <-]].
    intros r' Hr'. apply Hperm in Hr'.
    destruct (decide (t < open_time r')) as [Hnew|Hold]; [|lia].
    assert (Hs : StronglySorted row_le
                   (filter (λ r, t < open_time r) (merge_sort row_le rows))).
    { clear -Hsorted. induction Hsorted as [|x l Hs IH Hx]; [constructor|].
      destruct (decide (t < open_time x)).
      - rewrite filter_cons_True by done. constructor; [done|].
        apply Forall_forall. intros y Hy.
        apply list_elem_of_filter in Hy as [_ Hy].
        by eapply Forall_forall in Hx.
      - by rewrite filter_cons_False. }
    apply (Hmax _ _ Hs Hlast). by apply list_elem_of_filter.
  - split; [apply Hperm; by eapply last_Some_elem_of|].
    split; [|done]. intros r' Hr'. apply (Hmax _ _ Hsorted Hlast).
    by apply Hperm.
Qed.

Lemma logged_state r : (logged r).1.2 = r.1.2.
Proof.
  destruct r as [[[[]|e] st] evs]; simpl; [done|]. by destruct (is_Exception e).
Qed.

Lemma predict_and_store_state env t st :
  (predict_and_store env t st).1.2 = st
  ∨ (predict_and_store env t st).1.2 = set_cursor st t.
Proof.
  unfold predict_and_store.
  destruct (predicted env) as [[|p ps]|e]; try by left.
  destruct (upserted env) as [[]|e]; [|by left].
  destruct (appended env) as [[]|e]; [by right | by left].
Qed.

(** What a call can do to the two variables: nothing; or it slides the
    window over the fresh rows, and then it may move the cursor to the
    last of them. *)
Lemma maybe_process_state env value st :
  let st' := (maybe_process env value st).1.2 in
  st' = st
  ∨ ∃ rows, value = Candles rows ∧ fresh_rows st rows ≠ []
      ∧ let w := slide st (fresh_rows st rows) in
        st' = set_window st w
        ∨ ∃ r, last (fresh_rows st rows) = Some r
               ∧ st' = set_cursor (set_window st w) (open_time r).
Proof.
  cbv zeta. unfold maybe_process. rewrite logged_state.
  destruct (polled env) as [state|e]; [|by left].
  case_bool_decide; [by left|]. case_bool_decide; [by left|].
  destruct value as [[|r0 rows]|n]; try by left.
  fold (fresh_rows st (r0 :: rows)).
  case_bool_decide as Hdf; [by left|].
  fold (slide st (fresh_rows st (r0 :: rows))).
  right. exists (r0 :: rows). split; [done|]. split; [done|].
  case_bool_decide; [by left|].
  destruct (preprocessed env) as [[|f fs]|e]; try by left.
  destruct (last (fresh_rows st (r0 :: rows))) as [r|] eqn:Hr.
  - rewrite (last_slide st _ r Hr). rewrite logged_state.
    destruct (predict_and_store_state env (open_time r)
                (set_window st (slide st (fresh_rows st (r0 :: rows)))))
      as [-> | ->]; [by left|]. right. by exists r.
  - apply last_None in Hr. done.
Qed.

(** X17: the cursor never goes back: a call leaves it alone, or moves it to
    the latest open time in the message, which is then later than the
    cursor was. *)
Theorem consumer_cursor_moves_forward env value st :
  let st' := (maybe_process env value st).1.2 in
  last_processed_time st' = last_processed_time st
  ∨ ∃ rows r, value = Candles rows ∧ r ∈ rows
      ∧ last_processed_time st' = Some (open_time r)
      ∧ (∀ r', r' ∈ rows → open_time r' ≤ open_time r)
      ∧ (∀ t, last_processed_time st = Some t → t < open_time r).
Proof.
  cbv zeta.
  destruct (maybe_process_state env value st)
    as [-> | (rows & -> & _ & [-> | (r & Hr & ->)])]; try by left.
  right. exists rows, r. split; [done|].
  destruct (last_fresh_rows st rows r Hr) as (Hin & Hmax & Hlater).
  done.
Qed.

(** X18: a message that holds nothing later than the cursor, as a redelivery
    does, changes neither the cursor nor the window and leads to no
    prediction, upsert or CSV line. *)
Theorem redelivery_ignored env rows st t :
  last_processed_time st = Some t →
  Forall (λ r, open_time r ≤ t) rows →
  (maybe_process env (Candles rows) st).1.2 = st
  ∧ ∀ ev, ev ∈ (maybe_process env (Candles rows) st).2 → ev = ErrorLogged.
Proof.
  intros Ht Hold.
  assert (Hdf : fresh_rows st rows = []).
  { unfold fresh_rows. rewrite Ht. apply filter_none.
    apply Forall_forall. intros r Hr.
    rewrite merge_sort_Permutation in Hr.
    eapply Forall_forall in Hold; [|done]. simpl in Hold. lia. }
  unfold maybe_process.
  destruct (polled env) as [state|e].
  - case_bool_decide; [by split; [|intros ? ?%elem_of_nil]|].
    case_bool_decide; [by split; [|intros ? ?%elem_of_nil]|].
    destruct rows as [|r0 rows]; [by split; [|intros ? ?%elem_of_nil]|].
    fold (fresh_rows st (r0 :: rows)). rewrite Hdf.
    rewrite bool_decide_eq_true_2 by done.
    by split; [|intros ? ?%elem_of_nil].
  - simpl. destruct (is_Exception e); simpl.
    + split; [done|]. by intros ev ->%list_elem_of_singleton.
    + by split; [|intros ? ?%elem_of_nil].
Qed.

Lemma redelivery_ignored_witness :
  last_processed_time caught_up = Some 1704068940000000
  ∧ Forall (λ r, open_time r ≤ 1704068940000000) thirty
  ∧ (maybe_process all_well (Candles thirty) caught_up).1.2 = caught_up.
Proof.
  assert (H1 : last_processed_time caught_up = Some 1704068940000000)
    by (vm_compute; reflexivity).
  assert (H2 : Forall (λ r, open_time r ≤ 1704068940000000) thirty).
  { apply Forall_forall. intros r Hr. unfold thirty in Hr.
    apply list_elem_of_fmap in Hr as (i & -> & Hi).
    apply elem_of_seq in Hi. simpl. unfold minute. lia. }
  split; [exact H1|]. split; [exact H2|].
  exact (proj1 (redelivery_ignored all_well thirty caught_up _ H1 H2)).
Defined.

(** X19: the rolling window never grows beyond [seq_len] rows. *)
Theorem rolling_window_bounded env value st :
  (length (rolling_window st) ≤ seq_len)%nat →
  (length (rolling_window (maybe_process env value st).1.2) ≤ seq_len)%nat.
Proof.
  intros Hst.
  destruct (maybe_process_state env value st)
    as [-> | (rows & _ & _ & [-> | (r & _ & ->)])]; [done|..];
    simpl; apply length_slide.
Qed.

Lemma rolling_window_bounded_witness :
  (length (rolling_window fresh) ≤ seq_len)%nat
  ∧ (length (rolling_window
               (maybe_process all_well (Candles (thirty ++ thirty)) fresh).1.2)
     ≤ seq_len)%nat.
Proof.
  assert (H : (length (rolling_window fresh) ≤ seq_len)%nat)
    by (unfold seq_len; simpl; lia).
  split; [exact H|].
  exact (rolling_window_bounded all_well (Candles (thirty ++ thirty)) fresh H).
Defined.

End ConsumerWindowFacts.

(** ** Retries of the prediction request *)

Module PredictorFacts.
Import Predictor.

Lemma posts_posted i j a evs :
  posts i (Posted j a :: evs)
  = if bool_decide (j = i) then a :: posts i evs else posts i evs.
Proof. unfold posts. simpl. by case_bool_decide. Qed.

Lemma posts_slept i s evs : posts i (Slept s :: evs) = posts i evs.
Proof. reflexivity. Qed.

Lemma slept_posted j a evs : slept (Posted j a :: evs) = slept evs.
Proof. reflexivity. Qed.

Lemma slept_slept s evs : slept (Slept s :: evs) = s + slept evs.
Proof. reflexivity. Qed.

Lemma slept_app evs evs' : slept (evs ++ evs') = slept evs + slept evs'.
Proof.
  induction evs as [|[] evs IH]; [done| |].
  - by rewrite <- app_comm_cons, !slept_posted.
  - rewrite <- app_comm_cons, !slept_slept. lia.
Qed.

Lemma posts_app i evs evs' : posts i (evs ++ evs') = posts i evs ++ posts i evs'.
Proof. unfold posts. by rewrite omap_app. Qed.

(** One batch, from attempt [a0] on: the attempts before the first
    success fail, each followed by a sleep that doubles. *)
Lemma attempt_loop_success post i max_retries a0 len a :
  (a0 ≤ a < a0 + len)%nat → Z.of_nat (a0 + len) ≤ max_retries →
  (∀ j, (a0 ≤ j < a)%nat → fails (post j)) →
  (∃ p, post a = Return p) →
  ∃ evs, attempt_loop post i max_retries (seq a0 len)
         = (Return (answer (post a)), evs)
       ∧ posts i evs = seq a0 (a - a0 + 1)
       ∧ slept evs = 2 ^ Z.of_nat a - 2 ^ Z.of_nat a0
       ∧ ∀ j, j ≠ i → posts j evs = [].
Proof.
  revert a0. induction len as [|len IH]; intros a0 Ha Hmax Hfail [p Hp];
    [lia|].
  cbn [seq attempt_loop].
  destruct (decide (a = a0)) as [->|Hne].
  - rewrite Hp. eexists. split; [done|].
    rewrite posts_posted, bool_decide_eq_true_2 by done.
    replace (a0 - a0 + 1)%nat with 1%nat by lia.
    split; [done|]. split; [rewrite slept_posted; simpl; lia|]. intros j Hj.
    by rewrite posts_posted, bool_decide_eq_false_2 by done.
  - destruct (Hfail a0 ltac:(lia)) as (e & He & Hexc). rewrite He, Hexc.
    rewrite bool_decide_eq_true_2 by lia. simpl.
    destruct (IH (S a0)) as (evs & Hrun & Hposts & Hslept & Hother);
      [lia | lia | intros j Hj; apply Hfail; lia | by exists p |].
    rewrite Hrun. eexists. split; [done|].
    rewrite posts_posted, bool_decide_eq_true_2, posts_slept by done.
    rewrite Hposts, slept_posted, slept_slept, Hslept.
    split; [|split].
    + replace (a - a0 + 1)%nat with (S (a - S a0 + 1)) by lia. done.
    + replace (Z.of_nat (S a0)) with (Z.of_nat a0 + 1) by lia.
      rewrite Z.pow_add_r by lia. lia.
    + intros j Hj. rewrite posts_posted, bool_decide_eq_false_2, posts_slept
        by done. by apply Hother.
Qed.

Lemma attempt_loop_exhausted post i max_retries a0 len :
  (0 < len)%nat → Z.of_nat (a0 + len) = max_retries →
  (∀ j, (a0 ≤ j < a0 + len)%nat → fails (post j)) →
  ∃ evs, attempt_loop post i max_retries (seq a0 len)
         = (post (a0 + len - 1)%nat, evs)
       ∧ posts i evs = seq a0 len
       ∧ slept evs = 2 ^ (max_retries - 1) - 2 ^ Z.of_nat a0.
Proof.
  revert a0. induction len as [|len IH]; intros a0 Hlen Hmax Hfail; [lia|].
  cbn [seq attempt_loop].
  destruct (Hfail a0 ltac:(lia)) as (e & He & Hexc). rewrite He, Hexc.
  destruct (decide (len = 0%nat)) as [->|Hne].
  - rewrite bool_decide_eq_false_2 by lia. simpl.
    replace (a0 + 1 - 1)%nat with a0 by lia. rewrite He.
    eexists. split; [done|].
    rewrite posts_posted, bool_decide_eq_true_2 by done. split; [done|].
    rewrite slept_posted. simpl.
    replace (max_retries - 1) with (Z.of_nat a0) by lia. lia.
  - rewrite bool_decide_eq_true_2 by lia. simpl.
    destruct (IH (S a0)) as (evs & Hrun & Hposts & Hslept);
      [lia | lia | intros j Hj; apply Hfail; lia |].
    rewrite Hrun. replace (S a0 + len - 1)%nat with (a0 + S len - 1)%nat by lia.
    eexists. split; [done|].
    rewrite posts_posted, bool_decide_eq_true_2, posts_slept by done.
    rewrite Hposts, slept_posted, slept_slept, Hslept. split; [done|].
    replace (Z.of_nat (S a0)) with (Z.of_nat a0 + 1) by lia.
    rewrite Z.pow_add_r by lia. lia.
Qed.


Lemma batch_loop_success post max_retries features starts (win : nat → nat) :
  NoDup starts →
  (∀ i, i ∈ starts → settles post max_retries features i (win i)) →
  ∃ evs,
    batch_loop post max_retries features starts
    = (Return (concat ((λ i, answer (post i (take batch_size (drop i features))
                                       (win i))) <$> starts)), evs)
    ∧ (∀ i, i ∈ starts → posts i evs = seq 0 (win i + 1))
    ∧ (∀ i, i ∉ starts → posts i evs = [])
    ∧ slept evs = total (λ i, 2 ^ Z.of_nat (win i) - 1) starts.
Proof.
  induction starts as [|i starts IH]; intros Hnd Hwin.
  - exists []. split; [done|]. split; [by intros i ?%elem_of_nil|]. done.
  - apply NoDup_cons in Hnd as [Hi Hnd].
    destruct (Hwin i ltac:(left)) as (Hlt & Hp & Hfail). cbv zeta in *.
    destruct (attempt_loop_success
                (post i (take batch_size (drop i features))) i max_retries
                0 (Z.to_nat max_retries) (win i))
      as (evs & Hrun & Hposts & Hslept & Hother);
      [lia | lia | intros j Hj; apply Hfail; lia | done |].
    destruct IH as (evs' & Hrun' & Hposts' & Hnone' & Hslept');
      [done | intros j Hj; apply Hwin; by right |].
    cbn [batch_loop]. rewrite Hrun, Hrun'.
    exists (evs ++ evs'). split; [done|].
    split; [|split].
    + intros j Hj. rewrite posts_app. apply elem_of_cons in Hj as [->|Hj].
      * rewrite Hposts, (Hnone' i Hi), app_nil_r.
        by replace (win i - 0 + 1)%nat with (win i + 1)%nat by lia.
      * rewrite (Hother j) by (intros ->; done). by apply Hposts'.
    + intros j Hj. rewrite posts_app.
      rewrite (Hother j) by (intros ->; apply Hj; left).
      apply Hnone'. intros ?. apply Hj. by right.
    + rewrite slept_app, Hslept, Hslept'. simpl. lia.
Qed.

Lemma NoDup_py_range n step : (0 < step)%nat → NoDup (Publisher.py_range n step).
Proof.
  intros Hs. unfold Publisher.py_range.
  apply NoDup_fmap_2; [|apply NoDup_seq].
  intros a b Hab. nia.
Qed.

(** X20: when every batch is settled within the attempts allowed, the result
    is the answers to the batches, in the order of the batches; each
    batch was posted once more than it failed, and after the failure of
    attempt [a] the code slept [2 ^ a] seconds. *)
Theorem get_predictions_returns int post features version max_retries win :
  parses int version →
  (∀ i, i ∈ Publisher.py_range (length features) batch_size →
        settles post max_retries features i (win i)) →
  ∃ evs,
    get_predictions int post features version max_retries
    = (Return (concat ((λ i, answer (post i (take batch_size (drop i features))
                                       (win i)))
                       <$> Publisher.py_range (length features) batch_size)),
       evs)
    ∧ (∀ i, i ∈ Publisher.py_range (length features) batch_size →
            posts i evs = seq 0 (win i + 1))
    ∧ slept evs = total (λ i, 2 ^ Z.of_nat (win i) - 1)
                    (Publisher.py_range (length features) batch_size).
Proof.
  intros [n Hn] Hwin. unfold get_predictions. cbv zeta. rewrite Hn.
  destruct (batch_loop_success post max_retries features
              (Publisher.py_range (length features) batch_size) win)
    as (evs & Hrun & Hposts & _ & Hslept);
    [apply NoDup_py_range; unfold batch_size; lia | done |].
  by exists evs.
Qed.

Lemma get_predictions_returns_witness :
  parses digits "v2"
  ∧ (∀ i, i ∈ Publisher.py_range (length [[1%Q]]) batch_size →
          settles third_time 3 [[1%Q]] i 2)
  ∧ ∃ evs, get_predictions digits third_time [[1%Q]] "v2" 3
           = (Return [[1 # 5; 3 # 10; 1 # 2]%Q], evs)
         ∧ posts 0 evs = [0; 1; 2]%nat
         ∧ slept evs = 3.
Proof.
  assert (H1 : parses digits "v2") by (by exists 2).
  assert (H2 : ∀ i, i ∈ Publisher.py_range (length [[1%Q]]) batch_size →
                    settles third_time 3 [[1%Q]] i 2).
  { intros i Hi. split; [lia|]. split; [by eexists|].
    intros j Hj. exists unavailable. unfold third_time.
    destruct j as [|[|j]]; [done | done | lia]. }
  split; [exact H1|]. split; [exact H2|].
  destruct (get_predictions_returns digits third_time [[1%Q]] "v2" 3
              (λ _, 2%nat) H1 H2) as (evs & Hrun & Hposts & Hslept).
  exists evs. split; [exact Hrun|]. split.
  - apply (Hposts 0%nat). vm_compute. left.
  - rewrite Hslept. vm_compute. reflexivity.
Defined.

Lemma batch_loop_gives_up post max_retries features before i after
    (win : nat → nat) :
  0 < max_retries →
  NoDup (before ++ i :: after) →
  (∀ k, k ∈ before → settles post max_retries features k (win k)) →
  (∀ j, Z.of_nat j < max_retries →
        fails (post i (take batch_size (drop i features)) j)) →
  ∃ evs,
    batch_loop post max_retries features (before ++ i :: after)
    = (post i (take batch_size (drop i features))
         (Z.to_nat max_retries - 1)%nat, evs)
    ∧ posts i evs = seq 0 (Z.to_nat max_retries)
    ∧ (∀ k, k ∈ after → posts k evs = [])
    ∧ slept evs = total (λ k, 2 ^ Z.of_nat (win k) - 1) before
                  + (2 ^ (max_retries - 1) - 1).
Proof.
  intros Hmax. induction before as [|b before IH]; intros Hnd Hwin Hfail.
  - simpl in *. apply NoDup_cons in Hnd as [Hi Hnd].
    destruct (attempt_loop_exhausted
                (post i (take batch_size (drop i features))) i max_retries
                0 (Z.to_nat max_retries))
      as (evs & Hrun & Hposts & Hslept);
      [lia | lia | intros j Hj; apply Hfail; lia |].
    cbn [batch_loop]. rewrite Hrun.
    destruct (Hfail (Z.to_nat max_retries - 1)%nat ltac:(lia))
      as (e & He & _).
    replace (0 + Z.to_nat max_retries - 1)%nat
      with (Z.to_nat max_retries - 1)%nat by lia.
    rewrite He. exists evs. split; [done|]. split; [done|].
    split; [|rewrite Hslept; simpl; lia].
    intros k Hk. clear -Hrun Hk Hi.
    assert (Hgen : ∀ l evs0 r,
              attempt_loop (post i (take batch_size (drop i features))) i
                max_retries l = (r, evs0) → k ≠ i → posts k evs0 = []).
    { induction l as [|a l IHl]; intros evs0 r; cbn [attempt_loop].
      - by intros [= _ <-].
      - destruct (post _ _ a) as [p|e0].
        + intros [= _ <-] Hne. by rewrite posts_posted, bool_decide_eq_false_2.
        + destruct (_ && _).
          * destruct (attempt_loop _ i max_retries l) as [r' evs'] eqn:Hl.
            intros [= _ <-] Hne.
            rewrite posts_posted, bool_decide_eq_false_2, posts_slept by done.
            by eapply IHl.
          * intros [= _ <-] Hne.
            by rewrite posts_posted, bool_decide_eq_false_2. }
    eapply Hgen; [exact Hrun|]. intros ->. done.
  - rewrite <- app_comm_cons in Hnd. apply NoDup_cons in Hnd as [Hb Hnd].
    destruct (Hwin b ltac:(left)) as (Hlt & Hp & Hfb). cbv zeta in *.
    destruct (attempt_loop_success
                (post b (take batch_size (drop b features))) b max_retries
                0 (Z.to_nat max_retries) (win b))
      as (evs & Hrun & Hposts & Hslept & Hother);
      [lia | lia | intros j Hj; apply Hfb; lia | done |].
    destruct IH as (evs' & Hrun' & Hposts' & Hafter' & Hslept');
      [done | intros k Hk; apply Hwin; by right | done |].
    rewrite <- app_comm_cons. cbn [batch_loop]. rewrite Hrun, Hrun'.
    destruct (Hfail (Z.to_nat max_retries - 1)%nat ltac:(lia))
      as (e & He & _). rewrite He.
    exists (evs ++ evs'). split; [done|].
    assert (Hbi : ∀ k, k ∈ i :: after → k ≠ b).
    { intros k Hk ->. apply Hb, elem_of_app. by right. }
    split; [|split].
    + rewrite posts_app, (Hother i) by (apply Hbi; left). done.
    + intros k Hk. rewrite posts_app, (Hother k) by (apply Hbi; by right).
      by apply Hafter'.
    + rewrite slept_app, Hslept, Hslept'. simpl. lia.
Qed.

(** X21: when a batch fails at every attempt allowed, the call raises what the
    last attempt raised, after [max_retries] requests for that batch and
    sleeps of 1, 2, 4, ... seconds between them; the batches after it
    are not sent, and the answers to the batches before it are lost. *)
Theorem get_predictions_gives_up int post features version max_retries
    before i after win :
  parses int version → 0 < max_retries →
  Publisher.py_range (length features) batch_size = before ++ i :: after →
  (∀ k, k ∈ before → settles post max_retries features k (win k)) →
  (∀ j, Z.of_nat j < max_retries →
        fails (post i (take batch_size (drop i features)) j)) →
  ∃ e evs,
    get_predictions int post features version max_retries = (Raise e, evs)
    ∧ post i (take batch_size (drop i features)) (Z.to_nat max_retries - 1)%nat
      = Raise e
    ∧ posts i evs = seq 0 (Z.to_nat max_retries)
    ∧ (∀ k, k ∈ after → posts k evs = [])
    ∧ slept evs = total (λ k, 2 ^ Z.of_nat (win k) - 1) before
                  + (2 ^ (max_retries - 1) - 1).
Proof.
  intros [n Hn] Hmax Hstarts Hwin Hfail.
  unfold get_predictions. cbv zeta. rewrite Hn, Hstarts.
  destruct (batch_loop_gives_up post max_retries features before i after win)
    as (evs & Hrun & Hposts & Hafter & Hslept); [done| |done|done|].
  { rewrite <- Hstarts. apply NoDup_py_range. unfold batch_size. lia. }
  destruct (Hfail (Z.to_nat max_retries - 1)%nat ltac:(lia)) as (e & He & _).
  exists e, evs. rewrite Hrun, He. done.
Qed.

Lemma get_predictions_gives_up_witness :
  parses digits "v2" ∧ 0 < 3
  ∧ Publisher.py_range (length [[1%Q]]) batch_size = [] ++ 0%nat :: []
  ∧ (∀ k, k ∈ ([] : list nat) → settles down 3 [[1%Q]] k 0)
  ∧ (∀ j, Z.of_nat j < 3 →
          fails (down 0 (take batch_size (drop 0 [[1%Q]])) j))
  ∧ ∃ evs, get_predictions digits down [[1%Q]] "v2" 3
           = (Raise unavailable, evs)
         ∧ posts 0 evs = [0; 1; 2]%nat ∧ slept evs = 3.
Proof.
  assert (H1 : parses digits "v2") by (by exists 2).
  assert (H2 : 0 < 3) by lia.
  assert (H3 : Publisher.py_range (length [[1%Q]]) batch_size
               = [] ++ 0%nat :: []) by (vm_compute; reflexivity).
  assert (H4 : ∀ k, k ∈ ([] : list nat) → settles down 3 [[1%Q]] k 0)
    by (by intros k ?%elem_of_nil).
  assert (H5 : ∀ j, Z.of_nat j < 3 →
                    fails (down 0 (take batch_size (drop 0 [[1%Q]])) j))
    by (intros j _; by exists unavailable).
  repeat (split; [assumption|]).
  destruct (get_predictions_gives_up digits down [[1%Q]] "v2" 3 [] 0%nat []
              (λ _, 0%nat) H1 H2 H3 H4 H5)
    as (e & evs & Hrun & He & Hposts & _ & Hslept).
  exists evs. injection He as <-. split; [exact Hrun|]. split; [exact Hposts|].
  rewrite Hslept. reflexivity.
Defined.

Lemma batch_loop_no_attempts post max_retries features starts :
  max_retries ≤ 0 →
  batch_loop post max_retries features starts = (Return [], []).
Proof.
  intros Hmax. induction starts as [|i starts IH]; [done|].
  cbn [batch_loop]. replace (Z.to_nat max_retries) with 0%nat by lia.
  cbn [seq attempt_loop]. by rewrite IH.
Qed.

(** X22: with no attempt allowed the call makes no request and returns the
    empty list: the missing predictions are not reported as an error. *)
Theorem get_predictions_without_attempts int post features version
    max_retries :
  parses int version → max_retries ≤ 0 →
  get_predictions int post features version max_retries = (Return [], []).
Proof.
  intros [n Hn] Hmax. unfold get_predictions. cbv zeta. rewrite Hn.
  by apply batch_loop_no_attempts.
Qed.

Lemma get_predictions_without_attempts_witness :
  parses digits "3" ∧ 0 ≤ 0
  ∧ get_predictions digits third_time [[1%Q]] "3" 0 = (Return [], []).
Proof.
  assert (H1 : parses digits "3") by (by exists 3).
  assert (H2 : 0 ≤ 0) by lia.
  split; [exact H1|]. split; [exact H2|].
  exact (get_predictions_without_attempts digits third_time [[1%Q]] "3" 0
           H1 H2).
Defined.

End PredictorFacts.

(** ** The clean-up at the end of the shutdown script *)

Module KillAllRunsFacts.
Import ControlPlane KillAll KillAllRuns KillAllFacts.

Section Signals.
Variable o : nat → answer.

Local Abbreviation I := (undisturbed o).

Lemma run_keeps_ret {A} (a : A) : keeps I (mret a).
Proof. by intros st r st' H [= _ <-]. Qed.

Lemma run_keeps_bind {A B} (c : KM A) (f : A → KM B) :
  keeps I c → (∀ a, keeps I (f a)) → keeps I (c ≫= f).
Proof.
  intros Hc Hf st r st' HI. unfold mbind, KM_bind.
  destruct (c st) as [[[a|e] st1]|] eqn:Hrun; [| |done].
  - apply (Hf a). by eapply Hc.
  - intros [= _ <-]. by eapply Hc.
Qed.

Lemma run_keeps_get {B} (f : kstate → KM B) :
  (∀ st0, keeps I (f st0)) → keeps I (get ≫= f).
Proof. intros Hf st r st' HI. apply Hf, HI. Qed.

Lemma run_keeps_call {A} ms (pick : answer → outcome A) ev :
  ev ≠ DeletedAllStates → keeps I (call ms pick ev).
Proof.
  intros Hev st r st' (Ho & Hsig & Hlog) [= _ <-]. split; [done|]. simpl.
  split.
  - intros [Hsc Hnow]%andb_true_iff k Hk.
    destruct (decide (k = tick st)) as [->|Hne].
    + rewrite <- Ho. by apply negb_true_iff.
    + apply Hsig; [done | lia].
  - rewrite elem_of_app, list_elem_of_singleton. intros [?|?]; done.
Qed.

Lemma run_keeps_logger_error : keeps I logger_error.
Proof.
  intros st r st' (Ho & Hsig & Hlog) [= _ <-]. split; [done|].
  split; [done|]. simpl.
  rewrite elem_of_app, list_elem_of_singleton. intros [?|?]; done.
Qed.

Lemma run_keeps_stop_continuing : keeps I stop_continuing.
Proof. intros st r st' (Ho & Hsig & Hlog) [= _ <-]. by split. Qed.

Lemma run_keeps_try_except {A} (c h : KM A) :
  keeps I c → keeps I h → keeps I (try_except c h).
Proof.
  intros Hc Hh st r st' HI. unfold try_except.
  destruct (c st) as [[[a|e] st1]|] eqn:Hrun; [| |done].
  - intros [= _ <-]. by eapply Hc.
  - destruct (is_Exception e).
    + apply Hh. by eapply Hc.
    + intros [= _ <-]. by eapply Hc.
Qed.

Lemma run_keeps_sleep secs : keeps I (sleep secs).
Proof. by apply run_keeps_call. Qed.

Lemma run_keeps_state_checker c m v : keeps I (state_checker c m v).
Proof. by apply run_keeps_call. Qed.

Lemma run_keeps_state_write c m v s : keeps I (state_write c m v s).
Proof. by apply run_keeps_call. Qed.

Lemma run_keeps_wait_loop fuel c m v timeout start_time :
  keeps I (wait_loop fuel c m v timeout start_time).
Proof.
  induction fuel as [|fuel IH]; [by intros st r st' _|].
  cbn [wait_loop]. apply run_keeps_get. intros st0.
  destruct (_ && _); [|apply run_keeps_ret].
  apply run_keeps_bind.
  - apply run_keeps_try_except.
    + apply run_keeps_bind; [apply run_keeps_state_checker|]. intros state.
      repeat case_bool_decide; try apply run_keeps_ret.
      apply run_keeps_bind; [apply run_keeps_sleep|]. intros _. apply run_keeps_ret.
    + apply run_keeps_bind; [apply run_keeps_logger_error|]. intros _.
      apply run_keeps_bind; [apply run_keeps_sleep|]. intros _. apply run_keeps_ret.
  - intros [b|]; [apply run_keeps_ret | apply IH].
Qed.

Lemma run_keeps_wait_for_shutdown c m v timeout :
  keeps I (wait_for_shutdown c m v timeout).
Proof.
  apply run_keeps_get. intros st0.
  destruct (negb _); [apply run_keeps_ret | apply run_keeps_wait_loop].
Qed.

Lemma run_keeps_send_delete c m v : keeps I (send_delete c m v).
Proof.
  apply run_keeps_try_except; [|apply run_keeps_logger_error].
  apply run_keeps_bind; [apply run_keeps_state_checker|]. intros state.
  destruct (negb _); [apply run_keeps_state_write | apply run_keeps_ret].
Qed.

Lemma run_keeps_send_deletes es start_time : keeps I (send_deletes es start_time).
Proof.
  induction es as [|[[c m] v] es IH]; [apply run_keeps_ret|].
  cbn [send_deletes]. apply run_keeps_get. intros st0.
  destruct (negb _); [apply run_keeps_ret|].
  destruct (_ <? _); [apply run_keeps_stop_continuing|].
  apply run_keeps_bind; [apply run_keeps_send_delete | done].
Qed.

Lemma run_keeps_wait_all es start_time : keeps I (wait_all es start_time).
Proof.
  induction es as [|[[c m] v] es IH]; [apply run_keeps_ret|].
  cbn [wait_all]. apply run_keeps_get. intros st0.
  destruct (_ || _); [apply run_keeps_ret|].
  apply run_keeps_bind; [apply run_keeps_wait_for_shutdown | done].
Qed.

Lemma run_keeps_when_continuing c : keeps I c → keeps I (when_continuing c).
Proof.
  intros Hc. apply run_keeps_get. intros st0.
  destruct (should_continue st0); [done | apply run_keeps_ret].
Qed.

Lemma leads_bind {A B} (Q : kstate → Prop) (c : KM A) (f : A → KM B) :
  keeps I c → (∀ st, I st → Q st) → (∀ a, leads I Q (f a)) →
  leads I Q (c ≫= f).
Proof.
  intros Hc HIQ Hf st r st' HI. unfold mbind, KM_bind.
  destruct (c st) as [[[a|e] st1]|] eqn:Hrun; [| |done].
  - apply (Hf a). by eapply Hc.
  - intros [= _ <-]. apply HIQ. by eapply Hc.
Qed.

Lemma undisturbed_in_peace st : I st → cleaned_in_peace o st.
Proof. intros (_ & _ & Hlog) Hin. done. Qed.

Lemma leads_cleanup :
  leads I (cleaned_in_peace o)
    (when_continuing (try_except delete_all_states logger_error)).
Proof.
  intros st r st' HI. pose proof HI as (Ho & Hsig & Hlog).
  unfold when_continuing, mbind, KM_bind, get.
  destruct (should_continue st) eqn:Hsc.
  - specialize (Hsig eq_refl).
    unfold try_except, delete_all_states, call.
    destruct (written (oracle st (tick st))) as [[]|e];
      [|destruct (is_Exception e)]; intros [= _ <-] _ j Hj; simpl in Hj;
      apply Hsig; lia.
  - intros [= _ <-]. by apply undisturbed_in_peace.
Qed.

Lemma leads_shutdown : leads I (cleaned_in_peace o) shutdown.
Proof.
  unfold shutdown. intros st0 r st' HI0. revert st0 r st' HI0.
  apply (leads_bind _ get); [by intros st r st' H [= _ <-]
                            | apply undisturbed_in_peace |].
  intros st0. cbv zeta.
  apply leads_bind; [apply run_keeps_send_deletes | apply undisturbed_in_peace |].
  intros _.
  apply leads_bind; [apply run_keeps_when_continuing, run_keeps_send_delete
                    | apply undisturbed_in_peace |].
  intros _.
  apply leads_bind; [apply run_keeps_when_continuing, run_keeps_wait_all
                    | apply undisturbed_in_peace |].
  intros _.
  apply (leads_bind _ get); [by intros st r st' H [= _ <-]
                            | apply undisturbed_in_peace |].
  intros st1.
  apply leads_bind; [| apply undisturbed_in_peace | intros _; apply leads_cleanup].
  destruct (_ && _); [|apply run_keeps_ret].
  apply run_keeps_bind; [apply run_keeps_wait_for_shutdown|]. intros _. apply run_keeps_ret.
Qed.

End Signals.

(** X23: the state files are not cleaned up once a signal has arrived: when
    SIGTERM or SIGINT comes during any call before the last one, the
    script ends without having called [delete_all_states]. *)
Theorem no_cleanup_after_signal o r st k :
  main (start o) = Some (r, st) →
  signalled (o k) = true → (S k < tick st)%nat →
  DeletedAllStates ∉ log st.
Proof.
  unfold main, try_finally, try_except. intros Hrun Hsig Hk Hin.
  assert (H0 : undisturbed o (start o)).
  { split; [done|]. split; [intros _ j Hj; simpl in Hj; lia|].
    by intros ?%elem_of_nil. }
  destruct (shutdown (start o)) as [[r1 st1]|] eqn:Hs; [|done].
  pose proof (leads_shutdown o _ _ _ H0 Hs) as Hpeace.
  assert (Hst : tick st = tick st1
                ∧ (DeletedAllStates ∈ log st → DeletedAllStates ∈ log st1)).
  { destruct r1 as [[]|e]; [|destruct (is_Exception e)];
      simpl in Hrun; injection Hrun as _ <-; simpl; split; try done.
    rewrite elem_of_app, list_elem_of_singleton. by intros [?|?]. }
  destruct Hst as [Htick Hlog]. rewrite Htick in Hk.
  rewrite (Hpeace (Hlog Hin) k) in Hsig; [done | lia].
Qed.

Lemma no_cleanup_after_signal_witness :
  let run := default (Return tt, start interrupted) (main (start interrupted)) in
  main (start interrupted) = Some run
  ∧ signalled (interrupted 2) = true
  ∧ (3 < tick run.2)%nat
  ∧ DeletedAllStates ∉ log run.2.
Proof.
  intros run.
  assert (H1 : main (start interrupted) = Some run)
    by (vm_compute; reflexivity).
  assert (H2 : signalled (interrupted 2) = true) by reflexivity.
  assert (H3 : (3 < tick run.2)%nat) by (vm_compute; lia).
  split; [exact H1|]. split; [exact H2|]. split; [exact H3|].
  destruct run as [r st].
  exact (no_cleanup_after_signal interrupted r st 2 H1 H2 H3).
Defined.


Section Polite.
Variable o : nat → answer.
Hypothesis Hpolite : polite o.

Local Abbreviation C := (continuing o).

Lemma send_delete_returns c m v st :
  C st →
  ∃ st', send_delete c m v st = Some (Return tt, st')
         ∧ C st' ∧ clock st' ≤ clock st + 120000.
Proof.
  intros [Ho Hsc].
  destruct (Hpolite (tick st)) as (Hc1 & _ & Ht1 & Hs1).
  destruct (Hpolite (S (tick st))) as (_ & Hw2 & Ht2 & Hs2).
  unfold send_delete, try_except, mbind, KM_bind, state_checker,
    state_write, call, logger_error.
  rewrite Ho. simpl.
  destruct (checked (o (tick st))) as [state|e] eqn:Hchk.
  - destruct (negb (gone state)); simpl.
    + rewrite ?Ho. simpl.
      destruct (written (o (S (tick st)))) as [[]|e] eqn:Hw.
      * eexists. split; [done|]. simpl. rewrite Hsc, Hs1, Hs2.
        split; [done|]. lia.
      * rewrite (Hw2 e eq_refl). eexists. split; [done|]. simpl.
        rewrite Hsc, Hs1, Hs2. split; [done|]. lia.
    + eexists. split; [done|]. simpl. rewrite Hsc, Hs1. split; [done|]. lia.
  - rewrite (Hc1 e eq_refl). eexists. split; [done|]. simpl.
    rewrite Hsc, Hs1. split; [done|]. lia.
Qed.

Lemma send_deletes_returns es start_time st :
  C st →
  clock st - start_time + 120000 * Z.of_nat (length es - 1) ≤ TOTAL_TIMEOUT * 1000 →
  ∃ st', send_deletes es start_time st = Some (Return tt, st') ∧ C st'.
Proof.
  revert st. induction es as [|[[c m] v] es IH]; intros st HC Hclock.
  - by exists st.
  - cbn [send_deletes]. unfold mbind at 1. unfold KM_bind at 1. simpl.
    destruct HC as [Ho Hsc]. rewrite Hsc. simpl.
    destruct (Z.ltb_spec (TOTAL_TIMEOUT * 1000) (clock st - start_time))
      as [Hlate|_].
    { simpl in Hclock. lia. }
    destruct (send_delete_returns c m v st) as (st1 & Hrun & HC1 & Hc1);
      [done|].
    unfold mbind, KM_bind. rewrite Hrun.
    destruct es as [|e es]; [by exists st1|].
    apply IH; [done|]. simpl length in *. lia.
Qed.

Lemma wait_turn_returns c m v st :
  C st →
  ∃ r st',
    try_except
      (state ← state_checker c m v;
       if bool_decide (state = JStr "deleted") then mret (Some true)
       else if bool_decide (state = JStr "unknown") then mret (Some true)
       else sleep 5 ;; mret None)
      (logger_error ;; sleep 5 ;; mret None) st = Some (Return r, st')
    ∧ C st' ∧ (r = None → clock st + 5000 ≤ clock st').
Proof.
  intros [Ho Hsc].
  destruct (Hpolite (tick st)) as (Hc1 & _ & Ht1 & Hs1).
  destruct (Hpolite (S (tick st))) as (_ & _ & Ht2 & Hs2).
  unfold try_except, mbind, KM_bind, state_checker, sleep, call, logger_error.
  rewrite Ho. simpl.
  destruct (checked (o (tick st))) as [state|e] eqn:Hchk.
  - repeat case_bool_decide;
      try (eexists _, _; split; [reflexivity|]; simpl;
           rewrite Hsc, Hs1; split; [done|done]).
    simpl. rewrite ?Ho. simpl.
    eexists _, _. split; [reflexivity|]. simpl. rewrite Hsc, Hs1, Hs2.
    split; [done|]. intros _. lia.
  - rewrite (Hc1 e eq_refl). simpl. rewrite ?Ho. simpl.
    eexists _, _. split; [reflexivity|]. simpl. rewrite Hsc, Hs1, Hs2.
    split; [done|]. intros _. lia.
Qed.

Lemma wait_loop_returns fuel c m v timeout start_time st :
  C st →
  timeout * 1000 ≤ clock st - start_time + 5000 * Z.of_nat fuel →
  ∃ b st', wait_loop (S fuel) c m v timeout start_time st
           = Some (Return b, st') ∧ C st'.
Proof.
  revert st. induction fuel as [|fuel IH]; intros st HC Hfuel.
  - cbn [wait_loop]. unfold mbind at 1. unfold KM_bind at 1. simpl.
    destruct (Z.ltb_spec (clock st - start_time) (timeout * 1000)); [lia|].
    by eexists _, _.
  - remember (S fuel) as n. cbn [wait_loop]. subst n.
    unfold mbind at 1. unfold KM_bind at 1. simpl.
    destruct (_ && _); [|by eexists _, _].
    destruct (wait_turn_returns c m v st HC) as (r & st' & Hturn & HC' & Hclock).
    unfold mbind at 1. unfold KM_bind at 1. rewrite Hturn.
    destruct r as [b|]; [by eexists _, _|].
    apply IH; [done|]. specialize (Hclock eq_refl). lia.
Qed.

Lemma wait_for_shutdown_returns c m v timeout st :
  C st →
  ∃ b st', wait_for_shutdown c m v timeout st = Some (Return b, st') ∧ C st'.
Proof.
  intros HC. unfold wait_for_shutdown, mbind, KM_bind, get.
  destruct HC as [Ho Hsc]. rewrite Hsc. simpl.
  apply wait_loop_returns; [done | lia].
Qed.

Lemma wait_all_returns es start_time st :
  C st →
  ∃ st', wait_all es start_time st = Some (Return tt, st') ∧ C st'.
Proof.
  revert st. induction es as [|[[c m] v] es IH]; intros st HC.
  - by exists st.
  - cbn [wait_all]. unfold mbind at 1. unfold KM_bind at 1. simpl.
    destruct (_ || _); [by exists st|].
    destruct (wait_for_shutdown_returns c m v INDIVIDUAL_PROCESS_TIMEOUT st HC)
      as (b & st1 & Hrun & HC1).
    unfold mbind, KM_bind. rewrite Hrun. by apply IH.
Qed.

Lemma km_bind_return {A B} (c : KM A) (f : A → KM B) st a st' :
  c st = Some (Return a, st') → (c ≫= f) st = f a st'.
Proof. intros H. unfold mbind, KM_bind. by rewrite H. Qed.

Lemma km_get_bind {B} (f : kstate → KM B) st : (get ≫= f) st = f st st.
Proof. reflexivity. Qed.

Lemma when_continuing_on c st :
  should_continue st = true → when_continuing c st = c st.
Proof. intros H. unfold when_continuing. by rewrite km_get_bind, H. Qed.

Lemma shutdown_cleans st :
  C st →
  ∃ st', shutdown st = Some (Return tt, st') ∧ DeletedAllStates ∈ log st'.
Proof.
  intros HC. unfold shutdown. rewrite km_get_bind. cbv zeta.
  destruct (send_deletes_returns entities (clock st) st HC) as (st1 & H1 & HC1).
  { vm_compute length. unfold TOTAL_TIMEOUT. lia. }
  rewrite (km_bind_return _ _ _ _ _ H1).
  destruct (send_delete_returns "ALL" "producer" "main" st1 HC1)
    as (st2 & H2 & HC2 & _).
  rewrite <- (when_continuing_on _ st1 (proj2 HC1)) in H2.
  rewrite (km_bind_return _ _ _ _ _ H2).
  destruct (wait_all_returns entities (clock st) st2 HC2) as (st3 & H3 & HC3).
  rewrite <- (when_continuing_on _ st2 (proj2 HC2)) in H3.
  rewrite (km_bind_return _ _ _ _ _ H3).
  rewrite km_get_bind.
  assert (H45 : ∃ st4,
    (if should_continue st3
        && (clock st3 - clock st <=? TOTAL_TIMEOUT * 1000)
     then wait_for_shutdown "ALL" "producer" "main"
            INDIVIDUAL_PROCESS_TIMEOUT ;; mret tt
     else mret tt) st3 = Some (Return tt, st4) ∧ C st4).
  { destruct (_ && _); [|by exists st3].
    destruct (wait_for_shutdown_returns "ALL" "producer" "main"
                INDIVIDUAL_PROCESS_TIMEOUT st3 HC3) as (b & st4 & H4 & HC4).
    exists st4. by rewrite (km_bind_return _ _ _ _ _ H4). }
  destruct H45 as (st4 & H4 & [Ho4 Hsc4]).
  rewrite (km_bind_return _ _ _ _ _ H4).
  rewrite (when_continuing_on _ st4 Hsc4).
  unfold try_except, delete_all_states, call, logger_error.
  destruct (Hpolite (tick st4)) as (_ & Hw & _ & _). rewrite Ho4.
  destruct (written (o (tick st4))) as [[]|e] eqn:Hwr.
  - eexists. split; [done|]. simpl. apply elem_of_app. right. left.
  - rewrite (Hw e eq_refl). eexists. split; [done|]. simpl.
    rewrite !elem_of_app. left. right. left.
Qed.

End Polite.

(** X24: when no signal arrives, no call takes more than a minute and nothing
    but [Exception]s are raised, the script always gets to the clean-up:
    the state files are deleted whatever the consumers and the producer
    report, also when none of them has shut down. *)
Theorem cleanup_reached o :
  polite o →
  ∃ st, main (start o) = Some (Raise (SystemExit 0), st)
        ∧ DeletedAllStates ∈ log st.
Proof.
  intros Hpolite.
  destruct (shutdown_cleans o Hpolite (start o)) as (st & Hrun & Hlog);
    [done|].
  exists st. unfold main, try_finally, try_except. by rewrite Hrun.
Qed.

Lemma cleanup_reached_witness :
  polite stubborn
  ∧ ∃ st, main (start stubborn) = Some (Raise (SystemExit 0), st)
          ∧ DeletedAllStates ∈ log st
          ∧ Wrote "BTCUSDT" "tst" "v3" "delete" ∈ log st.
Proof.
  assert (H : polite stubborn) by (intros k; repeat split; done).
  split; [exact H|].
  destruct (cleanup_reached stubborn H) as (st & Hrun & Hlog).
  exists st. split; [exact Hrun|]. split; [exact Hlog|].
  assert (Hst : st = (default (Return tt, start stubborn)
                        (main (start stubborn))).2) by (by rewrite Hrun).
  rewrite Hst. vm_compute.
  repeat (apply elem_of_cons; first [left; reflexivity | right]).
Defined.

End KillAllRunsFacts.

(** ** What the backfill can reach *)

Module ReconciliationFacts.
Import Data Consumer Predictor Reconciliation.

(** The start of the window as the source computes it, on integers. *)
Lemma window_start j :
  (seq_len - 1 ≤ j)%nat →
  Z.of_nat (j + 1 - seq_len) = Z.of_nat j - Z.of_nat seq_len + 1
  ∧ (j + 1 - (j + 1 - seq_len) = seq_len)%nat.
Proof. unfold seq_len. lia. Qed.

Lemma windows_loop_times env batch_df js windows window_times :
  windows_loop env batch_df js = Return (windows, window_times) →
  length windows = length js
  ∧ ∀ t, t ∈ window_times →
         ∃ j r, j ∈ js ∧ batch_df !! j = Some r ∧ open_time r = t.
Proof.
  revert windows window_times.
  induction js as [|j js IH]; intros windows window_times; cbn [windows_loop].
  - intros [= <- <-]. split; [done|]. by intros t ?%elem_of_nil.
  - destruct (features_of env _) as [f|e]; [|done].
    destruct (batch_df !! j) as [r|] eqn:Hr; [|done].
    destruct (windows_loop env batch_df js) as [[ws wts]|e]; [|done].
    intros [= <- <-]. destruct (IH ws wts eq_refl) as [Hlen Htimes].
    split; [simpl; by rewrite Hlen|].
    intros t [->|Ht]%elem_of_cons.
    + exists j, r. split; [left|done].
    + destruct (Htimes t Ht) as (j' & r' & Hj' & Hr' & Ho).
      exists j', r'. split; [by right|done].
Qed.

Lemma only_logged_app (evs evs' : list revent) :
  (∀ ev, ev ∈ evs → ev = Logged) → (∀ ev, ev ∈ evs' → ev = Logged) →
  ∀ ev, ev ∈ evs ++ evs' → ev = Logged.
Proof. intros H H' ev [?|?]%elem_of_app; auto. Qed.

Lemma batches_loop_times env missing_df starts r evs :
  batches_loop env missing_df starts = (r, evs) →
  (∀ i, i ∈ starts → (i mod batch_size = 0)%nat) →
  (∀ ev, ev ∈ evs → ev = Logged)
  ∧ ∀ all_predictions all_times,
      r = Return (all_predictions, all_times) →
      (∀ t, t ∈ all_times → reachable missing_df t)
      ∧ (all_predictions ≠ [] → (seq_len ≤ length missing_df)%nat).
Proof.
  revert r evs. induction starts as [|i starts IH]; intros r evs;
    cbn [batches_loop].
  - intros [= <- <-] _. split; [by intros ev ?%elem_of_nil|].
    intros ps ts [= <- <-]. split; [by intros t ?%elem_of_nil | done].
  - intros Hrun Hstarts.
    set (batch_df := take batch_size (drop i missing_df)) in *.
    destruct (windows_loop env batch_df _) as [[windows window_times]|e]
      eqn:Hwin.
    2:{ injection Hrun as <- <-. split; [by intros ev ?%elem_of_nil | done]. }
    apply windows_loop_times in Hwin as [Hlen Hwt].
    destruct (batches_loop env missing_df starts) as [r' evs'] eqn:Hrest.
    destruct (IH r' evs' eq_refl) as [Hlog' Hrest'];
      [intros k Hk; apply Hstarts; by right|].
    assert (Hhere : ∀ t, t ∈ window_times → reachable missing_df t).
    { intros t Ht. destruct (Hwt t Ht) as (j & r0 & Hj & Hr0 & Ho).
      apply elem_of_seq in Hj.
      assert (Hjb : (j < batch_size)%nat).
      { apply lookup_lt_Some in Hr0. unfold batch_df in Hr0.
        rewrite length_take in Hr0. lia. }
      exists (i + j)%nat, r0. split.
      - unfold batch_df in Hr0. rewrite lookup_take_Some in Hr0.
        destruct Hr0 as [Hr0 _]. by rewrite lookup_drop in Hr0.
      - split; [done|].
        pose proof (Hstarts i ltac:(left)) as Hi.
        rewrite <- Nat.Div0.add_mod_idemp_l, Hi, Nat.add_0_l.
        rewrite Nat.mod_small by done. lia. }
    assert (Hlong : windows ≠ [] → (seq_len ≤ length missing_df)%nat).
    { intros Hw. destruct windows as [|w ws]; [done|].
      rewrite length_seq in Hlen. simpl in Hlen.
      unfold batch_df in Hlen. rewrite length_take, length_drop in Hlen.
      unfold seq_len in *. lia. }
    assert (Hgo : ∀ predictions times evs0 r1 evs1,
              (∀ ev, ev ∈ evs0 → ev = Logged) →
              (∀ t, t ∈ times → reachable missing_df t) →
              (predictions ≠ [] → (seq_len ≤ length missing_df)%nat) →
              match r' with
              | Raise e => (Raise e, evs0 ++ evs')
              | Return (all_predictions, all_times) =>
                  (Return (predictions ++ all_predictions, times ++ all_times),
                   evs0 ++ evs')
              end = (r1, evs1) →
              (∀ ev, ev ∈ evs1 → ev = Logged)
              ∧ ∀ ps ts, r1 = Return (ps, ts) →
                  (∀ t, t ∈ ts → reachable missing_df t)
                  ∧ (ps ≠ [] → (seq_len ≤ length missing_df)%nat)).
    { intros predictions times evs0 r1 evs1 Hl0 Ht0 Hp0.
      destruct r' as [[aps ats]|e]; intros [= <- <-].
      - split; [by apply only_logged_app|].
        intros ps ts [= <- <-].
        destruct (Hrest' aps ats eq_refl) as [Hats Haps]. split.
        + intros t [?|?]%elem_of_app; auto.
        + intros Hne. destruct predictions; [apply Haps; done | by apply Hp0].
      - split; [by apply only_logged_app | done]. }
    revert Hrun. cbv zeta.
    case_bool_decide as Hw.
    + apply Hgo; [by intros ev ?%elem_of_nil | by intros t ?%elem_of_nil | done].
    + destruct (predictions_for env i windows) as [predictions|e].
      * apply Hgo; [by intros ev ?%elem_of_nil | done | by intros _; apply Hlong].
      * destruct (is_Exception e).
        -- apply Hgo; [by intros ev ->%list_elem_of_singleton
                      | by intros t ?%elem_of_nil | done].
        -- intros [= <- <-]. split; [by intros ev ?%elem_of_nil | done].
Qed.

Lemma py_range_multiple n step i :
  i ∈ Publisher.py_range n step → (i mod step = 0)%nat.
Proof.
  unfold Publisher.py_range. intros (k & -> & _)%list_elem_of_fmap.
  apply Nat.Div0.mod_mul.
Qed.

(** X25: the backfill hands a timestamp to [upsert_predictions] only for a
    row that has [seq_len - 1] rows before it in its batch of 1000
    missing rows: the first 29 rows of every batch get no prediction, and
    with fewer than 30 missing rows nothing is upserted at all, whatever
    the prediction service answers. *)
Theorem reconciliation_skips_batch_heads env times predictions original_df :
  Upsert times predictions original_df ∈ (historical_reconciliation env).2 →
  ∃ ts price_df,
    missing_times env = Return ts ∧ price_csv env = Some (Return price_df)
    ∧ original_df = six_columns <$> missing_rows ts price_df
    ∧ (seq_len ≤ length (missing_rows ts price_df))%nat
    ∧ ∀ t, t ∈ times → reachable (missing_rows ts price_df) t.
Proof.
  unfold historical_reconciliation.
  destruct (match existing_csv env with
            | Some (Raise e) => if is_Exception e then None else Some e
            | _ => None
            end); [by intros ?%elem_of_nil|].
  destruct (missing_times env) as [[|t0 ts]|e]; try by intros ?%elem_of_nil.
  destruct (price_csv env) as [[price_df|e]|];
    [|destruct (is_Exception e)|];
    try (by intros ?%elem_of_nil);
    try (by intros [=]%list_elem_of_singleton).
  cbv zeta. set (missing_df := missing_rows (t0 :: ts) price_df).
  case_bool_decide; [by intros ?%elem_of_nil|].
  destruct (batches_loop env missing_df _) as [r evs] eqn:Hloop.
  apply batches_loop_times in Hloop as [Hlog Hres];
    [|intros i; apply py_range_multiple].
  destruct r as [[all_predictions all_times]|e].
  2:{ intros Hin. by apply Hlog in Hin. }
  destruct (Hres _ _ eq_refl) as [Htimes Hlong].
  case_bool_decide as Hp.
  { intros [Hin|[=]%list_elem_of_singleton]%elem_of_app. by apply Hlog in Hin. }
  assert (Hfound : Upsert times predictions original_df
                   = Upsert all_times all_predictions (six_columns <$> missing_df)
                   → ∃ ts0 price_df0,
                       Return (t0 :: ts) = Return ts0
                       ∧ Some (Return price_df) = Some (Return price_df0)
                       ∧ original_df = six_columns <$> missing_rows ts0 price_df0
                       ∧ (seq_len ≤ length (missing_rows ts0 price_df0))%nat
                       ∧ ∀ t, t ∈ times → reachable (missing_rows ts0 price_df0) t).
  { intros [= -> -> ->]. exists (t0 :: ts), price_df.
    split; [done|]. split; [done|]. split; [done|]. split; [by apply Hlong|].
    done. }
  assert (Hattempt : ∀ r ev e', e' ∈ (attempt r ev).2 → e' = ev ∨ e' = Logged).
  { intros [[]|e] ev e'; simpl; [|destruct (is_Exception e); simpl].
    - intros ->%list_elem_of_singleton. by left.
    - intros ->%list_elem_of_singleton. by right.
    - by intros ?%elem_of_nil. }
  destruct (attempt (upsert env _ _ _) _) as [r1 evs1] eqn:H1.
  destruct (attempt (append_csv env _ _) _) as [r2 evs2] eqn:H2.
  assert (Hin1 : Upsert times predictions original_df ∈ evs1 →
                 Upsert times predictions original_df
                 = Upsert all_times all_predictions (six_columns <$> missing_df)).
  { intros Hin. pose proof (Hattempt _ _ _ ltac:(rewrite H1; exact Hin))
      as [?|?]; done. }
  assert (Hin2 : Upsert times predictions original_df ∉ evs2).
  { intros Hin. pose proof (Hattempt _ _ _ ltac:(rewrite H2; exact Hin))
      as [?|?]; done. }
  destruct r1 as [[]|e]; simpl; rewrite !elem_of_app.
  - intros [Hin|[Hin|Hin]]; [by apply Hlog in Hin | by apply Hfound, Hin1 | done].
  - intros [Hin|Hin]; [by apply Hlog in Hin | by apply Hfound, Hin1].
Qed.

Lemma reconciliation_skips_batch_heads_witness :
  ∃ times predictions original_df,
    Upsert times predictions original_df
      ∈ (historical_reconciliation (backfill 31)).2
    ∧ length times = 2%nat
    ∧ ∀ t, t ∈ times →
           reachable (missing_rows (open_time <$> Publisher.sample_frame 31)
                        (Publisher.sample_frame 31)) t.
Proof.
  assert (Hrun : ∃ times predictions original_df rest,
            (historical_reconciliation (backfill 31)).2
            = Upsert times predictions original_df :: rest
            ∧ length times = 2%nat).
  { vm_compute. eexists _, _, _, _. split; reflexivity. }
  destruct Hrun as (times & predictions & original_df & rest & Hrun & Hlen).
  assert (Hin : Upsert times predictions original_df
                  ∈ (historical_reconciliation (backfill 31)).2)
    by (rewrite Hrun; left).
  exists times, predictions, original_df.
  split; [exact Hin|]. split; [exact Hlen|].
  destruct (reconciliation_skips_batch_heads (backfill 31) times predictions
              original_df Hin) as (ts & price_df & Hts & Hp & _ & _ & Hreach).
  injection Hts as <-. injection Hp as <-. exact Hreach.
Defined.

End ReconciliationFacts.

(** ** Bulk writes: batch sizes, and what an update may touch *)

Module BulkUpdateFacts.
Import Data Firestore CryptoDB BulkUpdate CryptoDBFacts MergeFacts.

Lemma chunk_sizes_spec n :
  Forall (λ k, (0 < k ≤ BATCH_LIMIT)%nat) (chunk_sizes n)
  ∧ sum_list (chunk_sizes n) = n.
Proof.
  unfold chunk_sizes. split.
  - apply Forall_app. split.
    + apply Forall_replicate. unfold BATCH_LIMIT. lia.
    + case_bool_decide; [|constructor].
      apply Forall_singleton. split; [done|].
      pose proof (Nat.mod_upper_bound n BATCH_LIMIT). unfold BATCH_LIMIT in *.
      lia.
  - rewrite sum_list_with_app, sum_list_replicate.
    pose proof (Nat.div_mod_eq n BATCH_LIMIT) as Hn.
    case_bool_decide;
      [change (sum_list [n mod BATCH_LIMIT]%nat) with (n mod BATCH_LIMIT + 0)%nat
      |change (sum_list (@nil nat)) with 0%nat]; lia.
Qed.

(** X26: with no commit refused, [bulk_insert_df] writes every row of the
    frame, in batches that are never empty and never hold more than 500
    writes. *)
Theorem bulk_insert_batch_sizes st table df :
  ∃ w', bulk_insert_df table df (quiet st) = (Return tt, w')
        ∧ Forall (λ k, (0 < k ≤ 500)%nat) (write_chunks (log w'))
        ∧ sum_list (write_chunks (log w')) = length df.
Proof.
  destruct (bulk_insert_chunks st table df) as (w' & Hrun & Hlog).
  exists w'. split; [exact Hrun|]. rewrite Hlog. apply chunk_sizes_spec.
Qed.


Lemma dict_set_keys {A} k (v : A) d :
  (dict_set k v d).*1 = if bool_decide (k ∈ d.*1) then d.*1 else d.*1 ++ [k].
Proof.
  induction d as [|[k' v'] d IH]; [done|]. cbn [dict_set].
  destruct (decide (k = k')) as [->|Hne].
  - rewrite (bool_decide_eq_true_2 (k' = k')) by done.
    by rewrite (bool_decide_eq_true_2 (k' ∈ ((k', v') :: d).*1)) by left.
  - rewrite (bool_decide_eq_false_2 (k = k')) by done.
    rewrite !fmap_cons, IH. cbn [fst].
    rewrite (bool_decide_ext (k ∈ k' :: d.*1) (k ∈ d.*1)).
    2:{ rewrite elem_of_cons. split; [intros [?|?]; done | by right]. }
    by destruct (bool_decide (k ∈ d.*1)).
Qed.

Lemma NoDup_py_dict {A} (kvs : list (Z * A)) : NoDup (py_dict kvs).*1.
Proof.
  unfold py_dict.
  assert (H : ∀ d : list (Z * A), NoDup d.*1 →
              NoDup (foldl (λ d kv, dict_set kv.1 kv.2 d) d kvs).*1).
  { induction kvs as [|[k v] kvs IH]; intros d Hd; [done|].
    cbn [foldl]. apply IH. rewrite dict_set_keys.
    case_bool_decide as Hk; [done|].
    apply NoDup_app. split; [done|]. split; [|apply NoDup_singleton].
    intros x Hx ->%list_elem_of_singleton. done. }
  apply H. constructor.
Qed.

Lemma dict_get_cons {A} id k (p : A) rest :
  dict_get id ((k, p) :: rest)
  = if bool_decide (k = id) then Some p else dict_get id rest.
Proof.
  unfold dict_get. case_bool_decide as Hk.
  - by rewrite filter_cons_True.
  - by rewrite filter_cons_False.
Qed.

Lemma dict_get_absent {A} id (d : list (Z * A)) :
  id ∉ d.*1 → dict_get id d = None.
Proof.
  induction d as [|[k p] d IH]; [done|]. intros Hid.
  rewrite dict_get_cons, bool_decide_eq_false_2.
  - apply IH. intros ?. apply Hid. by right.
  - intros ->. apply Hid. left.
Qed.

(** The document of [id] after the updates of [items]: as before, with
    the prediction of [id] in the column if [items] has one. *)
Lemma lookup_updated col (c : collection) items id :
  NoDup items.*1 →
  updated col c items !! id
  = (λ d, match dict_get id items with
          | Some p => pred_field col p ∪ d
          | None => d
          end) <$> c !! id.
Proof.
  unfold updated. revert c.
  induction items as [|[k p] items IH]; intros c Hnd.
  - simpl. by destruct (c !! id).
  - apply NoDup_cons in Hnd as [Hk Hnd]. cbn [foldl]. rewrite IH by done.
    rewrite dict_get_cons. unfold upd. cbn [fst snd].
    case_bool_decide as Hid.
    + subst k. rewrite (dict_get_absent id items Hk).
      destruct (c !! id) as [old|] eqn:Hc.
      * by rewrite lookup_insert_eq.
      * by rewrite Hc.
    + destruct (c !! k); [|done]. by rewrite lookup_insert_ne.
Qed.

Lemma upd_dom col (c : collection) item id :
  is_Some (upd col c item !! id) ↔ is_Some (c !! id).
Proof.
  unfold upd. destruct (c !! item.1) as [old|] eqn:Hc; [|done].
  destruct (decide (item.1 = id)) as [<-|Hne].
  - rewrite lookup_insert_eq, Hc. split; by eexists.
  - by rewrite lookup_insert_ne.
Qed.

(** The loop of [bulk_update_predictions] with an open batch whose
    writes would turn the stored collection into [v]. *)
Lemma exists_update_loop_spec name col items :
  ∀ batch w (v : collection),
    faults w = [] →
    apply_batch (coll_of w name) batch = Some v →
    (∀ id, is_Some (v !! id) ↔ is_Some (coll_of w name !! id)) →
    (batch = [] → v = coll_of w name) →
    ∃ w', exists_update_loop name col items batch w = (Return tt, w')
          ∧ faults w' = []
          ∧ coll_of w' name = updated col v items
          ∧ ∀ other, other ≠ name → coll_of w' other = coll_of w other.
Proof.
  induction items as [|[ot preds] items IH]; intros batch w v Hf Hv Hdom Hnil.
  - cbn [exists_update_loop]. case_bool_decide as Hlen.
    + rewrite (commit_quiet name batch w v Hf Hv). eexists.
      split; [done|]. split; [done|]. split; [by rewrite coll_of_insert|].
      intros other Hne. by rewrite coll_of_insert_ne.
    + exists w. split; [done|]. split; [done|]. split; [|done].
      destruct batch; [|simpl in Hlen; lia]. symmetry. by apply Hnil.
  - cbn [exists_update_loop]. unfold mbind at 1. unfold M_bind at 1.
    unfold get_coll at 1.
    destruct (coll_of w name !! ot) as [old0|] eqn:Hot.
    + destruct (proj2 (Hdom ot) ltac:(by eexists)) as [old Hold].
      assert (Hv' : apply_batch (coll_of w name)
                      (batch ++ [WUpdate ot (pred_field col preds)])
                    = Some (upd col v (ot, preds))).
      { rewrite apply_batch_app, Hv. simpl. unfold upd. simpl.
        by rewrite Hold. }
      case_bool_decide.
      * unfold mbind at 1. unfold M_bind at 1.
        rewrite (commit_quiet name _ w _ Hf Hv').
        set (w1 := {| store := <[name := upd col v (ot, preds)]> (store w);
                      faults := [];
                      log := log w ++ [Committed name
                               (batch ++ [WUpdate ot (pred_field col preds)])] |}).
        assert (Hc1 : coll_of w1 name = upd col v (ot, preds))
          by apply coll_of_insert.
        destruct (IH [] w1 (upd col v (ot, preds)))
          as (w' & Hrun & Hf' & Hc' & Hoth');
          [done | by rewrite Hc1 | by rewrite Hc1 | by rewrite Hc1 |].
        exists w'. split; [exact Hrun|]. split; [done|]. split; [done|].
        intros other Hne. rewrite Hoth' by done.
        unfold w1. by rewrite coll_of_insert_ne.
      * apply IH; [done | done | |].
        -- intros id. by rewrite upd_dom.
        -- intros Hb. by destruct batch.
    + assert (Hnone : v !! ot = None).
      { destruct (v !! ot) eqn:Hvo; [|done].
        destruct (proj1 (Hdom ot) ltac:(by eexists)) as [? ?]. congruence. }
      destruct (IH batch w v Hf Hv Hdom Hnil) as (w' & Hrun & Hrest).
      exists w'. split; [exact Hrun|].
      unfold updated in *. cbn [foldl]. unfold upd at 2. simpl.
      by rewrite Hnone.
Qed.

(** X27: with no commit refused, [bulk_update_predictions] returns, creates
    and deletes no document, leaves every field but the prediction
    column of the model version as it is, and puts a prediction into the
    column exactly for the timestamps of [pred_df], from the earliest
    document on, that have a document; other collections are not
    touched. *)
Theorem bulk_update_predictions_frame table model version pred_df w :
  faults w = [] →
  ∃ w',
    bulk_update_predictions table model version pred_df w = (Return tt, w')
    ∧ (∀ other, other ≠ lower table → coll_of w' other = coll_of w other)
    ∧ ∀ id,
        coll_of w' (lower table) !! id
        = (λ d, match dict_get id (update_items (coll_of w (lower table))
                                     pred_df) with
                | Some p => <[col_name model version := VVec p]> d
                | None => d
                end) <$> coll_of w (lower table) !! id.
Proof.
  intros Hf. unfold bulk_update_predictions. cbv zeta.
  unfold mbind, M_bind, get_coll.
  assert (Hfield : ∀ p (d : doc),
            pred_field (col_name model version) p ∪ d
            = <[col_name model version := VVec p]> d).
  { intros p d. unfold pred_field, normalize_pred.
    by rewrite <- insert_union_l, (left_id_L ∅ (∪)). }
  assert (Hnone : ∀ id, coll_of w (lower table) !! id
                        = (λ d : doc, d) <$> coll_of w (lower table) !! id).
  { intros id. by destruct (_ !! id). }
  unfold update_items.
  destruct (earliest_time (coll_of w (lower table))) as [first|].
  2:{ exists w. split; [done|]. split; [done|]. apply Hnone. }
  case_bool_decide as Hempty.
  { exists w. split; [done|]. split; [done|]. rewrite Hempty. apply Hnone. }
  destruct (exists_update_loop_spec (lower table) (col_name model version)
              (py_dict (filter (λ p, first ≤ p.1) pred_df)) [] w
              (coll_of w (lower table)) Hf eq_refl)
    as (w' & Hrun & _ & Hc & Hoth); [done | done |].
  exists w'. split; [exact Hrun|]. split; [exact Hoth|].
  intros id. rewrite Hc, lookup_updated by apply NoDup_py_dict.
  destruct (coll_of w (lower table) !! id) as [d|]; [|done]. simpl.
  destruct (dict_get id _); [by rewrite Hfield | done].
Qed.

Lemma bulk_update_predictions_frame_witness :
  faults (quiet scored) = []
  ∧ ∃ w', bulk_update_predictions "BTCUSDT" "LightGBM" "v2" two_predictions
            (quiet scored) = (Return tt, w')
        ∧ coll_of w' "btcusdt" !! t2024
          = Some (<["lightgbm_v2" := VVec sample_pred]>
                  (<["tst_v1" := VVec [1%Q]]> (doc_data (candle t2024 42000))))
        ∧ coll_of w' "btcusdt" !! (t2024 + minute) = None.
Proof.
  assert (H : faults (quiet scored) = []) by reflexivity.
  split; [exact H|].
  destruct (bulk_update_predictions_frame "BTCUSDT" "LightGBM" "v2"
              two_predictions (quiet scored) H) as (w' & Hrun & _ & Hc).
  exists w'. split; [exact Hrun|].
  change (lower "BTCUSDT") with "btcusdt" in Hc.
  split; rewrite Hc; vm_compute; reflexivity.
Defined.

End BulkUpdateFacts.

(** ** Job files, from consumer_start.py to job_handler.py *)

Module JobFilesFacts.
Import ControlPlane StateFiles VersionOps JobFiles StateFilesFacts.

Lemma rev_involutive (s : string) : String.rev (String.rev s) = s.
Proof.
  induction s as [|a s IH]; [done|].
  change (String a s) with (String a "" +:+ s) at 1.
  rewrite rev_append, rev_append, IH. done.
Qed.

Lemma lstrip_solid s : solid s = true → lstrip s = s.
Proof. destruct s as [|c r]; [done|]. simpl. by destruct (is_space c). Qed.

Lemma lstrip_app a b : solid b = true → lstrip (a +:+ b) = lstrip a +:+ b.
Proof.
  intros Hb. induction a as [|c a IH]; [by apply lstrip_solid|].
  rewrite append_cons. cbn [lstrip]. by destruct (is_space c).
Qed.

Lemma solid_app a b : solid a = true → solid (a +:+ b) = true.
Proof. by destruct a. Qed.

(** Stripping leaves alone a beginning that starts and ends with
    something else than white space. *)
Lemma strip_keeps p x :
  solid p = true → solid (String.rev p) = true →
  strip (p +:+ x) = p +:+ rstrip x.
Proof.
  intros Hp Hr. unfold strip. rewrite lstrip_solid by by apply solid_app.
  unfold rstrip. rewrite rev_append, lstrip_app by done.
  by rewrite rev_append, rev_involutive.
Qed.

Lemma has_char_app c a b : has_char c (a +:+ b) = has_char c a || has_char c b.
Proof.
  induction a as [|x a IH]; [done|]. rewrite append_cons. cbn [has_char].
  rewrite IH. by rewrite orb_assoc.
Qed.

Lemma split_plain sep s : has_char sep s = false → split sep s = [s].
Proof.
  induction s as [|c s IH]; [done|]. cbn [has_char split].
  intros [Hc Hs]%orb_false_iff. rewrite Hc, IH by done. done.
Qed.

Lemma split_app sep h r :
  has_char sep h = false →
  split sep (h +:+ String sep r) = h :: split sep r.
Proof.
  induction h as [|c h IH].
  - intros _. change ("" +:+ String sep r) with (String sep r).
    cbn [split]. by rewrite bool_decide_eq_true_2.
  - cbn [has_char]. intros [Hc Hh]%orb_false_iff.
    rewrite append_cons. cbn [split]. rewrite Hc, IH by done. done.
Qed.

Lemma split_nonempty sep s : split sep s ≠ [].
Proof.
  induction s as [|c s IH]; [done|]. cbn [split].
  case_bool_decide; [done|]. by destruct (split sep s).
Qed.

Lemma join_split sep s : join (String sep "") (split sep s) = s.
Proof.
  induction s as [|c s IH]; [done|]. cbn [split].
  case_bool_decide as Hc.
  - subst c. pose proof (split_nonempty sep s) as Hne.
    destruct (split sep s) as [|h t] eqn:Hs; [done|].
    change (join (String sep "") ("" :: h :: t))
      with (String sep (join (String sep "") (h :: t))).
    by rewrite IH.
  - pose proof (split_nonempty sep s) as Hne.
    destruct (split sep s) as [|h t] eqn:Hs; [done|].
    destruct t as [|h' t].
    + simpl in *. by rewrite IH.
    + change (join (String sep "") (String c h :: h' :: t))
        with (String c (join (String sep "") (h :: h' :: t))).
      by rewrite IH.
Qed.

Lemma substring_prefix (s b : string) :
  String.substring 0 (String.length s) (s +:+ b) = s.
Proof.
  induction s as [|c s IH]; [by destruct b|].
  rewrite append_cons. cbn [String.length String.substring]. by rewrite IH.
Qed.

Lemma substring_skip (a s b : string) :
  String.substring (String.length a) (String.length s) (a +:+ s +:+ b) = s.
Proof.
  induction a as [|c a IH]; [exact (substring_prefix s b)|].
  rewrite append_cons. cbn [String.length String.substring]. apply IH.
Qed.

Lemma contains_mid sub pre post :
  sub ≠ "" → contains sub (pre +:+ sub +:+ post) = true.
Proof.
  intros Hsub. unfold contains.
  destruct (String.index 0 sub (pre +:+ sub +:+ post)) eqn:Hi; [done|].
  exfalso.
  apply (String.index_correct3 0 (String.length pre) sub _ Hi Hsub);
    [lia|]. apply substring_skip.
Qed.

(** The command of a job file that [create_job_file] wrote names the
    module [utils.producer_consumer...], whatever the arguments were. *)
Lemma command_of_job crypto model version pt :
  ∃ rest,
    command_of (job_command crypto model version pt)
    = "export PYTHONPATH=..:$PYTHONPATH" +:+ String nl
        ("python -m utils.producer_consumer." +:+ rest).
Proof.
  unfold command_of. cbv zeta.
  destruct pt.
  - set (x := " " +:+ crypto +:+ String nl "").
    set (p2 := "export PYTHONPATH=..:$PYTHONPATH" +:+ String nl
                 "python -m utils.producer_consumer.producer --symbol").
    set (p1 := "#!/bin/bash" +:+ String nl p2).
    change (job_command crypto model version Producer) with (p1 +:+ x).
    rewrite (strip_keeps p1 x) by reflexivity.
    change (p1 +:+ rstrip x)
      with ("#!/bin/bash" +:+ String nl (p2 +:+ rstrip x)).
    rewrite prefix_append, split_app by reflexivity.
    cbn [tail]. rewrite join_split, (strip_keeps p2) by reflexivity.
    by eexists.
  - set (x := " " +:+ crypto +:+ " --model " +:+ model +:+ " --version "
              +:+ version +:+ String nl "").
    set (p2 := "export PYTHONPATH=..:$PYTHONPATH" +:+ String nl
                 "python -m utils.producer_consumer.consumer --crypto").
    set (p1 := "#!/bin/bash" +:+ String nl p2).
    change (job_command crypto model version Consumer) with (p1 +:+ x).
    rewrite (strip_keeps p1 x) by reflexivity.
    change (p1 +:+ rstrip x)
      with ("#!/bin/bash" +:+ String nl (p2 +:+ rstrip x)).
    rewrite prefix_append, split_app by reflexivity.
    cbn [tail]. rewrite join_split, (strip_keeps p2) by reflexivity.
    by eexists.
Qed.


Lemma job_names_producer crypto model version pt :
  contains "producer" (command_of (job_command crypto model version pt)) = true.
Proof.
  destruct (command_of_job crypto model version pt) as [rest ->].
  exact (contains_mid "producer"
           ("export PYTHONPATH=..:$PYTHONPATH" +:+ String nl "python -m utils.")
           ("_consumer." +:+ rest) ltac:(done)).
Qed.

(** What [launch_process] does with a job file of [create_job_file]. *)
Lemma launch_job spawn stuck path crypto model version pt a1 a2 a3 hs :
  jobs hs !! path = Some (job_command crypto model version pt) →
  let command := command_of (job_command crypto model version pt) in
  launch_process spawn stuck path a1 a2 a3 hs
  = match spawn command with
    | Return _ =>
        (Return tt,
         {| jobs := jobs hs; states := states hs;
            processes := <["producer" := command]> (processes hs);
            hlog := hlog hs ++ [Spawned command] |})
    | Raise e =>
        if is_Exception e then (Return tt, note Errored hs) else (Raise e, hs)
    end.
Proof.
  intros Hjob command. unfold launch_process. cbv zeta. rewrite Hjob.
  rewrite job_names_producer. fold command.
  unfold popen. destruct (spawn command) as [[]|e]; [done|].
  by destruct (is_Exception e).
Qed.

(** X28: a job file that [create_job_file] wrote goes down the producer
    branch of [launch_process], for a consumer as well: the process is
    registered under the key <<producer>>, no other key of the table is
    touched, and the state file of the consumer is not deleted. *)
Theorem job_takes_producer_branch spawn stuck path crypto model version pt
    a1 a2 a3 hs :
  jobs hs !! path = Some (job_command crypto model version pt) →
  let command := command_of (job_command crypto model version pt) in
  let r := launch_process spawn stuck path a1 a2 a3 hs in
  states r.2 = states hs
  ∧ jobs r.2 = jobs hs
  ∧ (∀ key, key ≠ "producer" → processes r.2 !! key = processes hs !! key)
  ∧ (spawn command = Return tt →
     r.1 = Return tt ∧ processes r.2 !! "producer" = Some command).
Proof.
  intros Hjob command r. unfold r.
  rewrite (launch_job spawn stuck path crypto model version pt a1 a2 a3 hs Hjob).
  fold command. destruct (spawn command) as [[]|e]; simpl.
  - split; [done|]. split; [done|]. split.
    + intros key Hkey. by rewrite lookup_insert_ne.
    + intros _. split; [done|]. apply lookup_insert_eq.
  - destruct (is_Exception e); simpl; done.
Qed.

Lemma job_takes_producer_branch_witness :
  let hs := {| jobs := create_job_file "/jobs" "BTCUSDT" "tst" "v2" Consumer ∅;
               states := state_write "BTCUSDT" "tst" "v2" "deleted" None ∅;
               processes := ∅; hlog := [] |} in
  let path := "/jobs/BTCUSDT_tst_v2.sh" in
  jobs hs !! path = Some (job_command "BTCUSDT" "tst" "v2" Consumer)
  ∧ let r := launch_process spawn_ok ∅ path (Some "BTCUSDT") (Some "tst")
               (Some "v2") hs in
    states r.2 = states hs
    ∧ processes r.2 !! "BTCUSDT_tst_v2" = None
    ∧ is_Some (processes r.2 !! "producer").
Proof.
  intros hs path.
  assert (H : jobs hs !! path = Some (job_command "BTCUSDT" "tst" "v2" Consumer))
    by apply lookup_insert_eq.
  split; [exact H|].
  destruct (job_takes_producer_branch spawn_ok ∅ path "BTCUSDT" "tst" "v2"
              Consumer (Some "BTCUSDT") (Some "tst") (Some "v2") hs H)
    as (Hst & _ & Hkeys & Hprod).
  cbv zeta. split; [exact Hst|]. split.
  - rewrite Hkeys by done. reflexivity.
  - destruct (Hprod eq_refl) as [_ ->]. by eexists.
Defined.

(** *** The name of a job file, written and read *)

Lemma ends_with_slash a :
  ends_with "/" a = true → ∃ a0, a = a0 +:+ "/".
Proof.
  unfold ends_with. intros H.
  destruct (String.rev a) as [|c t] eqn:Hr; [done|].
  change (String.rev "/") with "/" in H. cbn [String.prefix] in H.
  destruct (ascii_dec "/" c) as [<-|]; [|done].
  exists (String.rev t). rewrite <- (rev_involutive a), Hr.
  change (String "/" t) with ("/" +:+ t). by rewrite rev_append.
Qed.

Lemma no_slash_prefix b : has_char slash b = false → String.prefix "/" b = false.
Proof.
  destruct b as [|c b]; [done|]. cbn [has_char].
  intros [Hc _]%orb_false_iff. cbn [String.prefix].
  destruct (ascii_dec "/" c) as [<-|]; [|done].
  by rewrite bool_decide_eq_true_2 in Hc.
Qed.

Lemma path_join_name a b :
  has_char slash b = false →
  ∃ d, path_join a b = d +:+ b ∧ (d = "" ∨ ∃ d0, d = d0 +:+ "/").
Proof.
  intros Hb. unfold path_join. rewrite no_slash_prefix by done.
  destruct (bool_decide (a = "")) eqn:Ha; simpl.
  - apply bool_decide_eq_true in Ha as ->. exists "". split; [done | by left].
  - destruct (ends_with "/" a) eqn:He.
    + exists a. split; [done|]. right. by apply ends_with_slash.
    + exists (a +:+ "/"). split; [by rewrite append_assoc|]. right. by exists a.
Qed.

Lemma basename_plain name : has_char slash name = false → basename name = name.
Proof.
  destruct name as [|x name]; [done|]. cbn [has_char basename].
  intros [Hx Hn]%orb_false_iff. by rewrite Hn, Hx.
Qed.

Lemma basename_app d name :
  has_char slash name = false →
  d = "" ∨ (∃ d0, d = d0 +:+ "/") →
  basename (d +:+ name) = name.
Proof.
  intros Hn. induction d as [|c d IH]; intros Hd.
  - by apply basename_plain.
  - destruct Hd as [|[d0 Hd0]]; [done|].
    rewrite append_cons. cbn [basename].
    destruct d0 as [|c0 d0].
    + injection Hd0 as -> ->.
      change ("" +:+ name) with name. rewrite Hn.
      by rewrite bool_decide_eq_true_2.
    + rewrite append_cons in Hd0. injection Hd0 as -> ->.
      rewrite !has_char_app. cbn [has_char].
      rewrite (bool_decide_eq_true_2 ("/"%char = slash)) by done.
      rewrite orb_true_r, orb_true_l.
      apply IH. right. by exists d0.
Qed.

Lemma replace_suffix x :
  has_char "."%char x = false → str_replace ".sh" "" (x +:+ ".sh") = x.
Proof.
  unfold str_replace. rewrite bool_decide_eq_false_2 by done.
  induction x as [|c x IH]; [done|]. cbn [has_char].
  intros [Hc Hx]%orb_false_iff. rewrite append_cons. cbn [replace_from].
  assert (Hp : String.prefix ".sh" (String c (x +:+ ".sh")) = false).
  { cbn [String.prefix]. destruct (ascii_dec "." c) as [<-|]; [|done].
    by rewrite bool_decide_eq_true_2 in Hc. }
  rewrite Hp. by rewrite IH.
Qed.

Lemma plain_filename crypto model version :
  plain crypto → plain model → plain version →
  has_char slash (job_filename crypto model version Consumer) = false
  ∧ str_replace ".sh" "" (job_filename crypto model version Consumer)
    = crypto +:+ "_" +:+ model +:+ "_" +:+ version
  ∧ split underscore (crypto +:+ "_" +:+ model +:+ "_" +:+ version)
    = [crypto; model; version].
Proof.
  intros (Hc1 & Hc2 & Hc3) (Hm1 & Hm2 & Hm3) (Hv1 & Hv2 & Hv3).
  unfold job_filename. split; [|split].
  - rewrite !has_char_app, Hc3, Hm3, Hv3. reflexivity.
  - rewrite <- (replace_suffix (crypto +:+ "_" +:+ model +:+ "_" +:+ version)).
    + by rewrite !append_assoc.
    + rewrite !has_char_app, Hc2, Hm2, Hv2. reflexivity.
  - change ("_" +:+ model +:+ "_" +:+ version)
      with (String underscore (model +:+ String underscore version)).
    rewrite split_app by done. rewrite split_app by done.
    by rewrite split_plain.
Qed.

(** X29: a consumer job whose three names hold no underscore, dot or slash
    comes out of the handler as it went in: [on_created] recovers the
    names from the file name, launches the command of the file, and
    removes the file. *)
Theorem job_file_round_trip jobs_dir crypto model version stuck hs0 :
  plain crypto → plain model → plain version →
  ¬ (crypto = "ALL" ∧ model = "producer") →
  let path := path_join jobs_dir (job_filename crypto model version Consumer) in
  let command := command_of (job_command crypto model version Consumer) in
  let hs := {| jobs := create_job_file jobs_dir crypto model version Consumer
                         (jobs hs0);
               states := states hs0; processes := processes hs0;
               hlog := hlog hs0 |} in
  parse_job path = Some (Some (crypto, model, version))
  ∧ on_created spawn_ok stuck path false hs
    = (Return tt,
       {| jobs := delete path (jobs hs0);
          states := states hs0;
          processes := <["producer" := command]> (processes hs0);
          hlog := hlog hs0
                  ++ [Launching Consumer (Some crypto) (Some model)
                        (Some version);
                      Spawned command; RemovedJob path] |}).
Proof.
  intros Hc Hm Hv Hnot path command hs.
  destruct (plain_filename crypto model version Hc Hm Hv)
    as (Hslash & Hrep & Hsplit).
  destruct (path_join_name jobs_dir _ Hslash) as (d & Hpath & Hd).
  fold path in Hpath.
  assert (Hparse : parse_job path = Some (Some (crypto, model, version))).
  { unfold parse_job. cbv zeta. rewrite Hpath, basename_app by done.
    rewrite Hrep, Hsplit.
    destruct (bool_decide (crypto = "ALL")) eqn:H1;
      destruct (bool_decide (model = "producer")) eqn:H2; try done.
    apply bool_decide_eq_true in H1, H2. by destruct Hnot. }
  split; [exact Hparse|].
  unfold on_created.
  assert (Hsh : ends_with ".sh" path = true).
  { rewrite Hpath. unfold job_filename. rewrite <- !append_assoc.
    apply ends_with_append. }
  rewrite Hsh, Hparse. cbn [negb].
  set (hs1 := note (Launching Consumer (Some crypto) (Some model)
                      (Some version)) hs).
  assert (Hjob : jobs hs1 !! path
                 = Some (job_command crypto model version Consumer))
    by apply lookup_insert_eq.
  rewrite (launch_job spawn_ok stuck path crypto model version Consumer
             (Some crypto) (Some model) (Some version) hs1 Hjob).
  fold command. cbn [spawn_ok jobs]. rewrite Hjob.
  unfold note. cbn [jobs states processes hlog].
  subst hs1 hs. unfold note. cbn [jobs states processes hlog].
  f_equal. f_equal.
  - unfold create_job_file. fold path. by rewrite delete_insert_eq.
  - by rewrite <- !app_assoc.
Qed.

Lemma job_file_round_trip_witness :
  plain "BTCUSDT" ∧ plain "lightgbm" ∧ plain "v3"
  ∧ ¬ ("BTCUSDT" = "ALL" ∧ "lightgbm" = "producer")
  ∧ parse_job (path_join "/opt/airflow/custom_persistent_shared/jobs"
                 (job_filename "BTCUSDT" "lightgbm" "v3" Consumer))
    = Some (Some ("BTCUSDT", "lightgbm", "v3")).
Proof.
  assert (H1 : plain "BTCUSDT") by (repeat split; reflexivity).
  assert (H2 : plain "lightgbm") by (repeat split; reflexivity).
  assert (H3 : plain "v3") by (repeat split; reflexivity).
  assert (H4 : ¬ ("BTCUSDT" = "ALL" ∧ "lightgbm" = "producer"))
    by (by intros [? _]).
  repeat (split; [assumption|]).
  exact (proj1 (job_file_round_trip
                  "/opt/airflow/custom_persistent_shared/jobs"
                  "BTCUSDT" "lightgbm" "v3" ∅ idle H1 H2 H3 H4)).
Defined.

End JobFilesFacts.

(** ** A refused commit of a full batch *)

Module QuotaFacts.
Import Data Firestore CryptoDB Merge StoreSamples CryptoDBFacts MergeFacts.

(** The row loop when the next commit is refused for lack of quota and
    the rows fill a batch: the refusal is waited out, and the loop goes
    on as if nothing had happened. *)
Lemma insert_loop_refused name rows e :
  is_Exception e = true → is_quota e = true →
  ∀ idx brows total w,
    faults w = [Some e] → (length brows < BATCH_LIMIT)%nat →
    (BATCH_LIMIT ≤ length brows + length rows)%nat →
    ∃ brows' total' w',
      insert_loop name rows idx (sets brows) total w
        = (Return (sets brows', total'), w')
      ∧ faults w' = []
      ∧ merged (coll_of w' name) brows' = merged (coll_of w name) (brows ++ rows)
      ∧ ∀ other, other ≠ name → coll_of w' other = coll_of w other.
Proof.
  intros He Hq.
  induction rows as [|r rows IH]; intros idx brows total w Hf Hlen Hfill.
  { simpl in Hfill. lia. }
  cbn [insert_loop]. rewrite sets_snoc. unfold mbind, M_bind.
  assert (Hsnoc : length (sets (brows ++ [r])) = S (length brows)).
  { unfold sets. rewrite length_fmap, length_app. simpl. lia. }
  case_bool_decide as Hfull.
  - rewrite (full_batch_quota_retried name _ w e [] Hf He Hq).
    set (w0 := {| store := store w; faults := [];
                  log := log w ++ [CommitFailed name (sets (brows ++ [r])) e;
                                   Slept 60000] |}).
    rewrite (commit_quiet name _ w0 _ eq_refl (apply_batch_merged _ _)).
    set (w1 := {| store := <[name := merged (coll_of w0 name) (brows ++ [r])]>
                             (store w0);
                  faults := [];
                  log := log w0 ++ [Committed name (sets (brows ++ [r]))] |}).
    assert (Hsleep : ∃ w2,
              (if bool_decide (idx mod 1000 = 0)%nat then sleep 100
               else mret tt) w1 = (Return tt, w2)
              ∧ faults w2 = [] ∧ store w2 = store w1).
    { destruct (bool_decide _); by eexists. }
    destruct Hsleep as (w2 & Hrun2 & Hf2 & Hst2).
    unfold mret, M_ret in *. rewrite Hrun2.
    destruct (insert_loop_store name rows (S idx) []
                (total + length (sets (brows ++ [r])))%nat w2 Hf2)
      as (brows' & total' & w' & Hrun & Hf' & Hm & Hoth).
    { unfold BATCH_LIMIT. simpl. lia. }
    exists brows', total', w'. split; [exact Hrun|]. split; [done|].
    assert (Hc2 : ∀ n, coll_of w2 n
                       = if bool_decide (n = name)
                         then merged (coll_of w name) (brows ++ [r])
                         else coll_of w n).
    { intros n. unfold coll_of. rewrite Hst2. simpl.
      destruct (decide (n = name)) as [->|Hn].
      - by rewrite bool_decide_eq_true_2, lookup_insert_eq.
      - by rewrite bool_decide_eq_false_2, lookup_insert_ne. }
    split.
    + rewrite Hm, Hc2, bool_decide_eq_true_2 by done. simpl.
      rewrite <- merged_app. by rewrite <- app_assoc.
    + intros other Hne. rewrite Hoth, Hc2 by done.
      by rewrite bool_decide_eq_false_2.
  - assert (Hsleep : ∃ w2,
              (if bool_decide (idx mod 1000 = 0)%nat then sleep 100
               else mret tt) w = (Return tt, w2)
              ∧ faults w2 = [Some e] ∧ store w2 = store w).
    { destruct (bool_decide _); by eexists. }
    destruct Hsleep as (w2 & Hrun2 & Hf2 & Hst2).
    unfold mret, M_ret in *. rewrite Hrun2.
    destruct (IH (S idx) (brows ++ [r]) total w2 Hf2)
      as (brows' & total' & w' & Hrun & Hf' & Hm & Hoth).
    { rewrite length_app. unfold BATCH_LIMIT in *. cbn [length]. lia. }
    { rewrite length_app. cbn [length] in *. lia. }
    exists brows', total', w'. split; [exact Hrun|]. split; [done|].
    unfold coll_of in *. rewrite Hst2 in *.
    split; [|done]. by rewrite Hm, <- app_assoc.
Qed.

(** X30: a commit of a full batch that is refused for lack of quota is tried
    again after a minute, and [bulk_insert_df] then ends as it would have
    without the refusal: it returns, with every row merged into the
    collection and the retention applied. *)
Theorem quota_refusal_recovered table df w e :
  faults w = [Some e] → is_Exception e = true → is_quota e = true →
  (BATCH_LIMIT ≤ length df)%nat →
  ∃ w', bulk_insert_df table df w = (Return tt, w')
        ∧ faults w' = []
        ∧ coll_of w' (lower table)
          = trimmed (merged (coll_of w (lower table)) df)
        ∧ ∀ other, other ≠ lower table → coll_of w' other = coll_of w other.
Proof.
  intros Hf He Hq Hlen. unfold bulk_insert_df.
  rewrite bool_decide_eq_false_2
    by (intros ->; unfold BATCH_LIMIT in Hlen; simpl in Hlen; lia).
  unfold mbind, M_bind.
  destruct (insert_loop_refused (lower table) df e He Hq 1 [] 0 w Hf)
    as (brows' & total' & w1 & Hrun & Hf1 & Hm1 & Hoth1).
  { unfold BATCH_LIMIT. cbn [length]. lia. }
  { done. }
  change (sets []) with (@nil write) in Hrun. rewrite Hrun.
  rewrite app_nil_l in Hm1.
  assert (Hfinal : ∃ w2,
    (if bool_decide (0 < length (sets brows'))%nat
     then commit (lower table) (sets brows') else mret tt) w1 = (Return tt, w2)
    ∧ faults w2 = []
    ∧ coll_of w2 (lower table) = merged (coll_of w (lower table)) df
    ∧ ∀ other, other ≠ lower table → coll_of w2 other = coll_of w other).
  { case_bool_decide as Hrem.
    - rewrite (commit_quiet _ _ _ _ Hf1 (apply_batch_merged _ _)).
      eexists. split; [done|]. split; [done|]. split.
      + by rewrite coll_of_insert.
      + intros other Hne. rewrite coll_of_insert_ne by done. by apply Hoth1.
    - exists w1. split; [done|]. split; [done|]. split; [|done].
      destruct brows'; [done|]. simpl in Hrem. lia. }
  destruct Hfinal as (w2 & -> & Hf2 & Hc2 & Hoth2).
  destruct (keep_last_quiet (lower table) w2 Hf2) as (w3 & Hrun3 & Hf3 & _).
  rewrite Hrun3. apply keep_last_returns in Hrun3 as [Hc3 Hoth3].
  rewrite lower_idemp in Hc3, Hoth3.
  exists w3. split; [done|]. split; [done|]. split.
  - by rewrite Hc3, Hc2.
  - intros other Hne. unfold coll_of at 1. rewrite Hoth3 by done.
    by apply Hoth2.
Qed.

Lemma quota_refusal_recovered_witness :
  faults throttled = [Some quota_error]
  ∧ is_Exception quota_error = true ∧ is_quota quota_error = true
  ∧ (BATCH_LIMIT ≤ length (candles 500))%nat
  ∧ ∃ w', bulk_insert_df "BTCUSDT" (candles 500) throttled = (Return tt, w')
          ∧ faults w' = [].
Proof.
  assert (H1 : faults throttled = [Some quota_error]) by reflexivity.
  assert (H2 : is_Exception quota_error = true) by reflexivity.
  assert (H3 : is_quota quota_error = true) by reflexivity.
  assert (H4 : (BATCH_LIMIT ≤ length (candles 500))%nat).
  { unfold candles, BATCH_LIMIT. rewrite length_fmap, length_seq. lia. }
  split; [exact H1|]. split; [exact H2|]. split; [exact H3|].
  split; [exact H4|].
  destruct (quota_refusal_recovered "BTCUSDT" (candles 500) throttled
              quota_error H1 H2 H3 H4) as (w' & Hrun & Hf & _).
  exists w'. split; [exact Hrun | exact Hf].
Defined.

End QuotaFacts.
